(** * vite-plugin-build-monitoring: a shallow embedding of [src/index.ts]

    The plugin samples the resident memory of the build process on a
    timer, keeps a running maximum, warns or kills the process when
    thresholds are crossed, and checks bundle size, [node_modules] size
    and the number of declared dependencies.

    Layout of this development:
    - [JS]: the fragment of ECMAScript the plugin relies on (binary64
      numbers, [undefined], truthiness, [>], [/], [toFixed], [Number]);
    - [Lodash]: [debounce], the closure behind [warningMemoryLimit];
    - the plugin's own functions, under their source names;
    - the properties of the plugin. *)

From Stdlib Require Import ZArith List String Bool Lia SpecFloat.
From stdpp Require Import base gmap strings pretty.

Local Open Scope Z_scope.

(* ===================================================================== *)
(** ** ECMAScript values used by the plugin *)
(* ===================================================================== *)

Module JS.

(** A JavaScript [number] is an IEEE 754 binary64 value.  The standard
    library's [spec_float] is used at precision 53 and maximal exponent
    1024; a finite value [S754_finite s m e] denotes [(-1)^s * m * 2^e]. *)
Definition prec : Z := 53.
Definition emax : Z := 1024.
Definition number : Type := spec_float.

Definition NaN : number := S754_nan.

(** The number denoted by an integer literal. *)
Definition of_Z (z : Z) : number := binary_normalize prec emax z 0 false.
Definition of_nat (n : nat) : number := of_Z (Z.of_nat n).

(** [x / y] *)
Definition div (x y : number) : number := SFdiv prec emax x y.

(** [x < y] on numbers: false as soon as one side is NaN. *)
Definition lt (x y : number) : bool := SFltb x y.
Definition le (x y : number) : bool := SFleb x y.

(** An optional numeric option of the plugin is a number or [undefined]. *)
Inductive value : Type :=
| Undefined
| Num (x : number).

Definition ToNumber (v : value) : number :=
  match v with
  | Undefined => NaN
  | Num x => x
  end.

(** Truthiness: [undefined], [+0], [-0] and [NaN] are falsy. *)
Definition ToBoolean (v : value) : bool :=
  match v with
  | Undefined => false
  | Num (S754_zero _) => false
  | Num S754_nan => false
  | Num _ => true
  end.

(** [a > b]: both sides are converted to numbers and [b < a] is tested. *)
Definition gt (a b : value) : bool := lt (ToNumber b) (ToNumber a).

(** [a ?? d] *)
Definition nullish {A : Type} (a : option A) (d : A) : A :=
  match a with
  | Some x => x
  | None => d
  end.

(** *** [Number.prototype.toFixed] and [Number(string)]

    The strings that [toFixed] produces are kept in structured form: a
    decimal numeral with a fixed number of fraction digits, the
    shortest round-trip form that [Number::toString] gives, or a minus
    sign in front of either. *)
Inductive numeric_string : Type :=
| str_of_number (x : number)
| str_minus (s : numeric_string)
| str_decimal (n : Z) (f : nat).

(** [10^21 <= m * 2^e] *)
Definition ge_1e21 (m : positive) (e : Z) : bool :=
  if 0 <=? e then 10 ^ 21 <=? Zpos m * 2 ^ e
  else 10 ^ 21 * 2 ^ (- e) <=? Zpos m.

(** The integer [n] for which [n / 10^f - m * 2^e] is as close to zero
    as possible; of two such [n] the larger one. *)
Definition nearest_scaled (m : positive) (e : Z) (f : nat) : Z :=
  if 0 <=? e then Zpos m * 2 ^ e * 10 ^ Z.of_nat f
  else (2 * Zpos m * 10 ^ Z.of_nat f + 2 ^ (- e)) / (2 * 2 ^ (- e)).

Definition toFixed (x : number) (f : nat) : numeric_string :=
  match x with
  | S754_nan | S754_infinity _ => str_of_number x
  | S754_zero _ => str_decimal 0 f
  | S754_finite s m e =>
      let body :=
        if ge_1e21 m e then str_of_number (S754_finite false m e)
        else str_decimal (nearest_scaled m e f) f in
      if s then str_minus body else body
  end.

(** The binary64 value nearest to [n / 10^f] for [n >= 0]. *)
Definition decimal (n : Z) (f : nat) : number :=
  match n with
  | Zpos p => div (S754_finite false p 0)
                  (S754_finite false (Z.to_pos (10 ^ Z.of_nat f)) 0)
  | _ => S754_zero false
  end.

(** [Number(s)] for the strings above.  [Number::toString] round-trips
    except that it prints [-0] as ["0"]. *)
Fixpoint Number (s : numeric_string) : number :=
  match s with
  | str_of_number (S754_zero _) => S754_zero false
  | str_of_number x => x
  | str_minus s' => SFopp (Number s')
  | str_decimal n f => decimal n f
  end.

(** Instants are milliseconds since the epoch, as [Date.now()] counts. *)
Definition time : Type := Z.

(** A template literal: literal chunks and interpolated values. *)
Inductive piece : Type :=
| Lit (s : string)
| Interp (v : value)
| InterpDate (d : time).

Definition text : Type := list piece.

End JS.

Import JS.

(* ===================================================================== *)
(** ** [toMB] *)
(* ===================================================================== *)

(** [Number((bytes / 1000 / 1000).toFixed(2))] *)
Definition toMB (bytes : number) : number :=
  Number (toFixed (div (div bytes (of_Z 1000)) (of_Z 1000)) 2).


(* ===================================================================== *)
(** ** lodash's [debounce] *)
(* ===================================================================== *)

(** The closure that [debounce(func, wait, {leading, trailing})] returns,
    as lodash 4 implements it for a call without [maxWait]: its captured
    variables form the state, [debounced] is the function handed back to
    the caller and [timerExpired] is the callback of its [setTimeout].
    The pending timeout is recorded by the instant at which it is due.
    Both functions return the invocations of [func] they perform. *)
Module Lodash.
Section Debounce.
Context {A : Type}.
Variable wait : Z.
Variables leading trailing : bool.

Record state : Type := mkState {
  lastArgs : option A;
  lastCallTime : option time;
  lastInvokeTime : time;
  timerId : option time
}.

Definition init : state :=
  {| lastArgs := None; lastCallTime := None;
     lastInvokeTime := 0; timerId := None |}.

Definition invokeFunc (s : state) (t : time) : list A * state :=
  (match lastArgs s with Some a => [a] | None => [] end,
   {| lastArgs := None; lastCallTime := lastCallTime s;
      lastInvokeTime := t; timerId := timerId s |}).

Definition leadingEdge (s : state) (t : time) : list A * state :=
  let s' := {| lastArgs := lastArgs s; lastCallTime := lastCallTime s;
               lastInvokeTime := t; timerId := Some (t + wait) |} in
  if leading then invokeFunc s' t else ([], s').

(** Only reached when [shouldInvoke] is false, hence with a recorded
    [lastCallTime]. *)
Definition remainingWait (s : state) (t : time) : Z :=
  match lastCallTime s with
  | Some c => wait - (t - c)
  | None => wait
  end.

Definition shouldInvoke (s : state) (t : time) : bool :=
  match lastCallTime s with
  | None => true
  | Some c => (wait <=? t - c) || (t - c <? 0)
  end.

Definition trailingEdge (s : state) (t : time) : list A * state :=
  let s' := {| lastArgs := lastArgs s; lastCallTime := lastCallTime s;
               lastInvokeTime := lastInvokeTime s; timerId := None |} in
  if trailing && bool_decide (is_Some (lastArgs s)) then invokeFunc s' t
  else ([], {| lastArgs := None; lastCallTime := lastCallTime s';
               lastInvokeTime := lastInvokeTime s'; timerId := None |}).

Definition timerExpired (s : state) (t : time) : list A * state :=
  if shouldInvoke s t then trailingEdge s t
  else ([], {| lastArgs := lastArgs s; lastCallTime := lastCallTime s;
               lastInvokeTime := lastInvokeTime s;
               timerId := Some (t + remainingWait s t) |}).

Definition debounced (s : state) (t : time) (a : A) : list A * state :=
  let isInvoking := shouldInvoke s t in
  let s' := {| lastArgs := Some a; lastCallTime := Some t;
               lastInvokeTime := lastInvokeTime s; timerId := timerId s |} in
  if isInvoking && bool_decide (timerId s' = None) then leadingEdge s' t
  else if bool_decide (timerId s' = None) then
    ([], {| lastArgs := lastArgs s'; lastCallTime := lastCallTime s';
            lastInvokeTime := lastInvokeTime s';
            timerId := Some (t + wait) |})
  else ([], s').
End Debounce.

Arguments state : clear implicits.
End Lodash.

(* ===================================================================== *)
(** ** The process: observable events and mutable state *)
(* ===================================================================== *)

(** The keys of [checksObservables]. *)
Inductive kind : Type := Error | Warning | Info.

Inductive console_method : Type := c_log | c_info | c_error | c_warn.

Inductive color : Type := red | bgYellow | green.

Definition handle : Type := nat.
Definition ref : Type := nat.

(** What the plugin does to the outside world, in program order. *)
Inductive event : Type :=
| subject_next (k : kind) (t : text)
| console (m : console_method) (c : color) (t : text)
| process_exit (code : Z)
| set_interval (h : handle) (delay : value)
| clear_interval (h : option handle)
| dynamic_import (root rel : string)
| fastFolderSize (path : string).

(** The object literal that [checkMemoryUsage] creates and returns. *)
Record Infos : Type := mkInfos {
  interval : option handle;
  tmpMaxMemoryConsumption : number;
  dateMaxMemoryConsumption : time
}.

(** What the callback given to [setInterval] closes over. *)
Record closure : Type := mkClosure {
  c_MEMORY_WARNING_MAX_SIZE : value;
  c_MEMORY_ERROR_MAX_SIZE : value;
  c_infos : ref
}.

(** The state of the process that the plugin reads and writes:
    - [clock]: what [new Date()] and [Date.now()] read;
    - [rss]: what [process.memoryUsage.rss()] reads;
    - [cwd]: what [process.cwd()] returns;
    - [MONITORING_LOG_ENABLED]: the variable of that name in [process.env];
    - [heap]: the [infos] objects, by reference;
    - [intervals]: the live [setInterval] timers with their callbacks;
    - [warn_closure]: the variables captured by [warningMemoryLimit];
    - [exit_code]: set once [process.exit] was called;
    - [out]: everything emitted so far, oldest first. *)
Record world : Type := mkWorld {
  clock : time;
  rss : number;
  cwd : string;
  MONITORING_LOG_ENABLED : option string;
  heap : gmap ref Infos;
  fresh_ref : ref;
  intervals : gmap handle closure;
  fresh_handle : handle;
  warn_closure : Lodash.state (number * value);
  exit_code : option Z;
  out : list event
}.

(** Statements run in a state monad over [world]; the result is [None]
    when the statement did not run to completion because the process was
    terminated on the way. *)
Definition M (A : Type) : Type := world -> option A * world.

Definition ret {A : Type} (a : A) : M A := fun w => (Some a, w).

Definition bind {A B : Type} (m : M A) (k : A -> M B) : M B :=
  fun w =>
    match m w with
    | (Some a, w') => k a w'
    | (None, w') => (None, w')
    end.

Notation "x <- m ;; k" := (bind m (fun x => k))
  (at level 100, m at next level, right associativity).
Notation "m ;;; k" := (bind m (fun _ => k))
  (at level 100, right associativity).

Definition when (b : bool) (m : M unit) : M unit := if b then m else ret tt.

Definition with_out (w : world) (o : list event) : world :=
  {| clock := clock w; rss := rss w; cwd := cwd w;
     MONITORING_LOG_ENABLED := MONITORING_LOG_ENABLED w; heap := heap w;
     fresh_ref := fresh_ref w; intervals := intervals w;
     fresh_handle := fresh_handle w; warn_closure := warn_closure w;
     exit_code := exit_code w; out := o |}.

Definition with_env (w : world) (v : option string) : world :=
  {| clock := clock w; rss := rss w; cwd := cwd w;
     MONITORING_LOG_ENABLED := v; heap := heap w; fresh_ref := fresh_ref w;
     intervals := intervals w; fresh_handle := fresh_handle w;
     warn_closure := warn_closure w; exit_code := exit_code w;
     out := out w |}.

Definition with_heap (w : world) (h : gmap ref Infos) (n : ref) : world :=
  {| clock := clock w; rss := rss w; cwd := cwd w;
     MONITORING_LOG_ENABLED := MONITORING_LOG_ENABLED w; heap := h;
     fresh_ref := n; intervals := intervals w;
     fresh_handle := fresh_handle w; warn_closure := warn_closure w;
     exit_code := exit_code w; out := out w |}.

Definition with_intervals (w : world) (t : gmap handle closure) (n : handle) : world :=
  {| clock := clock w; rss := rss w; cwd := cwd w;
     MONITORING_LOG_ENABLED := MONITORING_LOG_ENABLED w; heap := heap w;
     fresh_ref := fresh_ref w; intervals := t; fresh_handle := n;
     warn_closure := warn_closure w; exit_code := exit_code w;
     out := out w |}.

Definition with_warn (w : world) (s : Lodash.state (number * value)) : world :=
  {| clock := clock w; rss := rss w; cwd := cwd w;
     MONITORING_LOG_ENABLED := MONITORING_LOG_ENABLED w; heap := heap w;
     fresh_ref := fresh_ref w; intervals := intervals w;
     fresh_handle := fresh_handle w; warn_closure := s;
     exit_code := exit_code w; out := out w |}.

Definition with_exit (w : world) (c : Z) : world :=
  {| clock := clock w; rss := rss w; cwd := cwd w;
     MONITORING_LOG_ENABLED := MONITORING_LOG_ENABLED w; heap := heap w;
     fresh_ref := fresh_ref w; intervals := intervals w;
     fresh_handle := fresh_handle w; warn_closure := warn_closure w;
     exit_code := Some c; out := out w |}.

(** The event loop sets the instant and the memory reading before it
    runs a callback. *)
Definition with_inputs (w : world) (t : time) (r : number) : world :=
  {| clock := t; rss := r; cwd := cwd w;
     MONITORING_LOG_ENABLED := MONITORING_LOG_ENABLED w; heap := heap w;
     fresh_ref := fresh_ref w; intervals := intervals w;
     fresh_handle := fresh_handle w; warn_closure := warn_closure w;
     exit_code := exit_code w; out := out w |}.

Definition emit (e : event) : M unit :=
  fun w => (Some tt, with_out w (out w ++ [e])).

(** [new Date()] *)
Definition new_Date : M time := fun w => (Some (clock w), w).

(** [process.memoryUsage.rss()] *)
Definition memoryUsage_rss : M number := fun w => (Some (rss w), w).

(** [process.cwd()] *)
Definition process_cwd : M string := fun w => (Some (cwd w), w).

(** [process.exit(code)] does not return. *)
Definition process_exit_ {A : Type} (code : Z) : M A :=
  fun w => (None, with_exit (with_out w (out w ++ [process_exit code])) code).

(** [subject.next({k: t})] *)
Definition subject_next_ (k : kind) (t : text) : M unit := emit (subject_next k t).

(** [setInterval(callback, delay)] *)
Definition setInterval (c : closure) (delay : value) : M handle :=
  fun w =>
    let h := fresh_handle w in
    (Some h, with_out (with_intervals w (<[h := c]> (intervals w)) (S h))
                      (out w ++ [set_interval h delay])).

(** [clearInterval(h)]; a [null] handle clears nothing. *)
Definition clearInterval (h : option handle) : M unit :=
  fun w =>
    let t := match h with
             | Some h' => delete h' (intervals w)
             | None => intervals w
             end in
    (Some tt, with_out (with_intervals w t (fresh_handle w))
                       (out w ++ [clear_interval h])).

(** Truthiness of a string read from [process.env]. *)
Definition env_truthy (v : option string) : bool :=
  match v with
  | None => false
  | Some EmptyString => false
  | Some _ => true
  end.

(** [infos = {...}]: a new object on the heap. *)
Definition new_object (i : Infos) : M ref :=
  fun w =>
    let r := fresh_ref w in
    (Some r, with_heap w (<[r := i]> (heap w)) (S r)).

(** Reading the object behind a reference. *)
Definition deref (r : ref) : M Infos :=
  fun w =>
    match heap w !! r with
    | Some i => (Some i, w)
    | None => (None, w)
    end.

(** Assigning to the properties of the object behind a reference. *)
Definition assign (r : ref) (f : Infos -> Infos) : M unit :=
  fun w => (Some tt, with_heap w (alter f r (heap w)) (fresh_ref w)).

Definition set_interval_prop (h : handle) (i : Infos) : Infos :=
  {| interval := Some h;
     tmpMaxMemoryConsumption := tmpMaxMemoryConsumption i;
     dateMaxMemoryConsumption := dateMaxMemoryConsumption i |}.

Definition set_tmpMaxMemoryConsumption (x : number) (i : Infos) : Infos :=
  {| interval := interval i;
     tmpMaxMemoryConsumption := x;
     dateMaxMemoryConsumption := dateMaxMemoryConsumption i |}.

Definition set_dateMaxMemoryConsumption (d : time) (i : Infos) : Infos :=
  {| interval := interval i;
     tmpMaxMemoryConsumption := tmpMaxMemoryConsumption i;
     dateMaxMemoryConsumption := d |}.

(* ===================================================================== *)
(** ** The plugin *)
(* ===================================================================== *)

Record MonitoringOptions : Type := mkOptions {
  MEMORY_WARNING_MAX_SIZE : value;
  MEMORY_ERROR_MAX_SIZE : value;
  BUNDLE_ROOT_FOLDER_PATH : option string;
  BUNDLE_MAX_SIZE : value;
  NODE_MODULES_MAX_SIZE : value;
  NB_NODE_MODULES_MAX : value;
  INTERVAL_CHECK_MEMORY : value;
  LOG : option bool
}.

(** [process.env.MONITORING_LOG_ENABLED ? console[type](colorFn(text)) : void 0] *)
Definition colorizedLog (colorFn : color) (type : console_method) (t : text) : M unit :=
  fun w =>
    if env_truthy (MONITORING_LOG_ENABLED w) then emit (console type colorFn t) w
    else ret tt w.

Definition errorLog : text -> M unit := colorizedLog red c_error.
Definition warningLog : text -> M unit := colorizedLog bgYellow c_log.
Definition infoLog : text -> M unit := colorizedLog green c_log.

Definition LF : string := String (Ascii.ascii_of_nat 10) EmptyString.

(** *** Messages about memory *)

Definition WARNING_ABOVE_ERROR_TXT : text :=
  [Lit LF;
   Lit " MEMORY_WARNING_MAX_SIZE value should be lower than  MEMORY_ERROR_MAX_SIZE"].

Definition MEMORY_CONSUMPTION_TXT
    (maxMemoryConsumption : number) (dateMaxMemoryConsumption : time) : text :=
  [Lit LF; Lit "Max memory consumption: "; Interp (Num maxMemoryConsumption);
   Lit "MB at "; InterpDate dateMaxMemoryConsumption; Lit LF].

Definition WARNING_MEMORY_CONSUMPTION_TXT
    (memUsage : number) (MEMORY_WARNING_MAX_SIZE : value) : M text :=
  d <- new_Date;;
  ret [Lit LF; Lit "MEMORY_WARNING_MAX_SIZE option has been reached, memory used is ";
       Interp (Num memUsage); Lit "MB/"; Interp MEMORY_WARNING_MAX_SIZE;
       Lit "MB at "; InterpDate d; Lit LF].

Definition ERROR_MEMORY_CONSUMPTION_TXT
    (memUsage : number) (MEMORY_ERROR_MAX_SIZE : value) : M text :=
  d <- new_Date;;
  ret [Lit LF; Lit "MEMORY_ERROR_MAX_SIZE option has been reached, memory used is ";
       Interp (Num memUsage); Lit "/"; Interp MEMORY_ERROR_MAX_SIZE;
       Lit " at "; InterpDate d; Lit ", killing vite"; Lit LF].

(** *** Messages about [node_modules] *)

Definition ERROR_NODE_MODULE_SIZE_TXT
    (nodeModuleMB : number) (NODE_MODULES_MAX_SIZE : value) : text :=
  [Lit LF; Lit "Node modules deps size is about "; Interp (Num nodeModuleMB);
   Lit "MB exedeed "; Interp NODE_MODULES_MAX_SIZE; Lit "MB"; Lit LF].

Definition INFO_NODE_MODULE_SIZE_TXT
    (nodeModuleMB : number) (NODE_MODULES_MAX_SIZE : value) : text :=
  [Lit LF; Lit "Node modules deps size is about "; Interp (Num nodeModuleMB);
   Lit "MB, limit is "; Interp NODE_MODULES_MAX_SIZE; Lit "MB"; Lit LF].

Definition ERROR_NODE_MODULE_NB_TXT
    (nbOfNodeModulesDeps : number) (NB_NODE_MODULES_MAX : value) : text :=
  [Lit LF; Lit "Too many node modules installed, "; Interp (Num nbOfNodeModulesDeps);
   Lit "/"; Interp NB_NODE_MODULES_MAX; Lit " did you add some ?"; Lit LF].

Definition INFO_NODE_MODULE_NB_TXT
    (nbOfNodeModulesDeps : number) (NB_NODE_MODULES_MAX : value) : text :=
  [Lit LF; Lit "Nb of node modules installed is, "; Interp (Num nbOfNodeModulesDeps);
   Lit "/"; Interp NB_NODE_MODULES_MAX; Lit " (max)"; Lit LF].

(** *** Messages about the bundle *)

Definition ERROR_BUNDLE_SIZE_TXT (bundleMB : number) (BUNDLE_MAX_SIZE : value) : text :=
  [Lit LF; Lit "Bundle size is about "; Interp (Num bundleMB);
   Lit "MB exedeed "; Interp BUNDLE_MAX_SIZE; Lit "MB"; Lit LF].

Definition INFO_BUNDLE_SIZE_TXT (bundleMB : number) (BUNDLE_MAX_SIZE : value) : text :=
  [Lit LF; Lit "Bundle size is about "; Interp (Num bundleMB);
   Lit "MB, limit is "; Interp BUNDLE_MAX_SIZE; Lit "MB"; Lit LF].

(** *** The size checks *)

Definition checkNodeModulesSize
    (NODE_MODULES_MAX_SIZE : value) (nodeModuleMB : number) : M unit :=
  if ToBoolean NODE_MODULES_MAX_SIZE && gt (Num nodeModuleMB) NODE_MODULES_MAX_SIZE
  then
    let error := ERROR_NODE_MODULE_SIZE_TXT nodeModuleMB NODE_MODULES_MAX_SIZE in
    subject_next_ Error error;;;
    errorLog error
  else
    let info := INFO_NODE_MODULE_SIZE_TXT nodeModuleMB NODE_MODULES_MAX_SIZE in
    subject_next_ Info info;;;
    infoLog info.

Definition checkBundleSizes (BUNDLE_MAX_SIZE : value) (bundleMB : number) : M unit :=
  if ToBoolean BUNDLE_MAX_SIZE && gt (Num bundleMB) BUNDLE_MAX_SIZE
  then
    let error := ERROR_BUNDLE_SIZE_TXT bundleMB BUNDLE_MAX_SIZE in
    subject_next_ Error error;;;
    errorLog error
  else
    let info := INFO_BUNDLE_SIZE_TXT bundleMB BUNDLE_MAX_SIZE in
    subject_next_ Info info;;;
    infoLog info.

(** *** The coalesced memory warning *)

(** The function that [warningMemoryLimit] debounces. *)
Definition warningMemoryLimit_func (args : number * value) : M unit :=
  let '(memUsage, MEMORY_WARNING_MAX_SIZE) := args in
  warning <- WARNING_MEMORY_CONSUMPTION_TXT memUsage MEMORY_WARNING_MAX_SIZE;;
  subject_next_ Warning warning;;;
  warningLog warning.

Fixpoint invoke_each (l : list (number * value)) : M unit :=
  match l with
  | [] => ret tt
  | a :: l' => warningMemoryLimit_func a;;; invoke_each l'
  end.

Definition WARNING_WAIT : Z := 2500.

(** [warningMemoryLimit = debounce(func, 2500, {leading: true, trailing: true})],
    called with [(memUsage, MEMORY_WARNING_MAX_SIZE)]. *)
Definition warningMemoryLimit
    (memUsage : number) (MEMORY_WARNING_MAX_SIZE : value) : M unit :=
  fun w =>
    let '(calls, s) :=
      Lodash.debounced WARNING_WAIT true (warn_closure w) (clock w)
                       (memUsage, MEMORY_WARNING_MAX_SIZE) in
    invoke_each calls (with_warn w s).

(** The callback of the timeout that [warningMemoryLimit] keeps pending. *)
Definition warningMemoryLimit_timerExpired : M unit :=
  fun w =>
    let '(calls, s) :=
      Lodash.timerExpired WARNING_WAIT true (warn_closure w) (clock w) in
    invoke_each calls (with_warn w s).

(** *** The memory monitor *)

(** The function given to [setInterval] in [checkMemoryUsage]. *)
Definition interval_callback (c : closure) : M unit :=
  bytes <- memoryUsage_rss;;
  let memUsage := toMB bytes in
  when (gt (Num memUsage) (c_MEMORY_ERROR_MAX_SIZE c))
    (error <- ERROR_MEMORY_CONSUMPTION_TXT memUsage (c_MEMORY_ERROR_MAX_SIZE c);;
     subject_next_ Error error;;;
     errorLog error;;;
     process_exit_ 1);;;
  when (gt (Num memUsage) (c_MEMORY_WARNING_MAX_SIZE c))
    (warningMemoryLimit memUsage (c_MEMORY_WARNING_MAX_SIZE c));;;
  infos <- deref (c_infos c);;
  when (gt (Num memUsage) (Num (tmpMaxMemoryConsumption infos)))
    (assign (c_infos c) (set_tmpMaxMemoryConsumption memUsage);;;
     d <- new_Date;;
     assign (c_infos c) (set_dateMaxMemoryConsumption d)).

Definition checkMemoryUsage
    (MEMORY_WARNING_MAX_SIZE MEMORY_ERROR_MAX_SIZE INTERVAL_CHECK_MEMORY : value)
    : M ref :=
  d <- new_Date;;
  infos <- new_object {| interval := None;
                         tmpMaxMemoryConsumption := of_Z 0;
                         dateMaxMemoryConsumption := d |};;
  h <- setInterval {| c_MEMORY_WARNING_MAX_SIZE := MEMORY_WARNING_MAX_SIZE;
                      c_MEMORY_ERROR_MAX_SIZE := MEMORY_ERROR_MAX_SIZE;
                      c_infos := infos |}
                   INTERVAL_CHECK_MEMORY;;
  assign infos (set_interval_prop h);;;
  ret infos.

(** *** The number of declared dependencies *)

(** The part of [package.json] that the plugin reads; [None] stands for
    an absent mapping. *)
Record manifest : Type := mkManifest {
  dependencies : option (gmap string string);
  devDependencies : option (gmap string string)
}.

Definition Object_keys (o : gmap string string) : list string :=
  (map_to_list o).*1.

(** Array lengths are integers below [2^32], on which the addition of
    numbers is exact; the sum is taken on integers and then read as a
    number. *)
Definition nbOfNodeModulesDeps (packageJson : manifest) : nat :=
  (length (Object_keys (nullish (dependencies packageJson) ∅)) +
   length (Object_keys (nullish (devDependencies packageJson) ∅)))%nat.

(** [checkNbOfNodeModulesDeps] up to its [await]: the result tells
    whether the import of the manifest was started. *)
Definition checkNbOfNodeModulesDeps (NB_NODE_MODULES_MAX : value) : M bool :=
  if negb (ToBoolean NB_NODE_MODULES_MAX) then ret false
  else
    appRoot <- process_cwd;;
    emit (dynamic_import appRoot "./package.json");;;
    ret true.

(** [checkNbOfNodeModulesDeps] from its [await] on, once the manifest is
    there. *)
Definition checkNbOfNodeModulesDeps_then
    (NB_NODE_MODULES_MAX : value) (packageJson : manifest) : M unit :=
  let nb := of_nat (nbOfNodeModulesDeps packageJson) in
  if gt (Num nb) NB_NODE_MODULES_MAX then
    let error := ERROR_NODE_MODULE_NB_TXT nb NB_NODE_MODULES_MAX in
    subject_next_ Error error;;;
    errorLog error
  else
    let info := INFO_NODE_MODULE_NB_TXT nb NB_NODE_MODULES_MAX in
    subject_next_ Info info;;;
    infoLog info.

(** [await checkNbOfNodeModulesDeps(max)] with the manifest that the
    import yields. *)
Definition checkNbOfNodeModulesDeps_await
    (NB_NODE_MODULES_MAX : value) (packageJson : manifest) : M unit :=
  started <- checkNbOfNodeModulesDeps NB_NODE_MODULES_MAX;;
  when started (checkNbOfNodeModulesDeps_then NB_NODE_MODULES_MAX packageJson).

(** *** The plugin object and the build hooks *)

(** What [finalCallback] closes over. *)
Record Plugin : Type := mkPlugin {
  p_infos : ref;
  p_BUNDLE_ROOT_FOLDER_PATH : string;
  p_BUNDLE_MAX_SIZE : value;
  p_NODE_MODULES_MAX_SIZE : value
}.

(** The default of a destructured numeric option. *)
Definition default_number (v : value) (d : Z) : value :=
  match v with
  | Undefined => Num (of_Z d)
  | Num _ => v
  end.

Definition set_env (v : string) : M unit :=
  fun w => (Some tt, with_env w (Some v)).

Definition monitoring (options : MonitoringOptions) : M Plugin :=
  let MEMORY_WARNING_MAX_SIZE' := default_number (MEMORY_WARNING_MAX_SIZE options) 2950 in
  let MEMORY_ERROR_MAX_SIZE' := default_number (MEMORY_ERROR_MAX_SIZE options) 4500 in
  let BUNDLE_ROOT_FOLDER_PATH' := nullish (BUNDLE_ROOT_FOLDER_PATH options) "./public/build" in
  let INTERVAL_CHECK_MEMORY' := default_number (INTERVAL_CHECK_MEMORY options) 350 in
  let LOG' := nullish (LOG options) true in
  when LOG' (set_env "true");;;
  when (gt MEMORY_WARNING_MAX_SIZE' MEMORY_ERROR_MAX_SIZE')
    (subject_next_ Error WARNING_ABOVE_ERROR_TXT;;;
     errorLog WARNING_ABOVE_ERROR_TXT);;;
  infos <- checkMemoryUsage MEMORY_WARNING_MAX_SIZE' MEMORY_ERROR_MAX_SIZE'
                            INTERVAL_CHECK_MEMORY';;
  checkNbOfNodeModulesDeps (NB_NODE_MODULES_MAX options);;;
  ret {| p_infos := infos;
         p_BUNDLE_ROOT_FOLDER_PATH := BUNDLE_ROOT_FOLDER_PATH';
         p_BUNDLE_MAX_SIZE := BUNDLE_MAX_SIZE options;
         p_NODE_MODULES_MAX_SIZE := NODE_MODULES_MAX_SIZE options |}.

(** [finalCallback] up to its [await]. *)
Definition finalCallback (p : Plugin) : M unit :=
  infos <- deref (p_infos p);;
  clearInterval (interval infos);;;
  infos <- deref (p_infos p);;
  let info := MEMORY_CONSUMPTION_TXT (tmpMaxMemoryConsumption infos)
                                     (dateMaxMemoryConsumption infos) in
  subject_next_ Info info;;;
  infoLog info;;;
  emit (fastFolderSize (p_BUNDLE_ROOT_FOLDER_PATH p));;;
  emit (fastFolderSize "./node_modules").

(** [finalCallback] from its [await] on, with the two folder sizes in
    bytes. *)
Definition finalCallback_then (p : Plugin) (bundle node_modules : number) : M unit :=
  let bundleMB := toMB bundle in
  let nodeModuleMB := toMB node_modules in
  checkNodeModulesSize (p_NODE_MODULES_MAX_SIZE p) nodeModuleMB;;;
  checkBundleSizes (p_BUNDLE_MAX_SIZE p) bundleMB.

(* ===================================================================== *)
(** ** The event loop *)
(* ===================================================================== *)

Definition alive (w : world) : bool := bool_decide (exit_code w = None).

(** The interval timer [h] fires at instant [t] while the resident
    memory reads [r]: possible only for a live timer of a live process. *)
Definition interval_fires (h : handle) (t : time) (r : number) (w : world)
    : option world :=
  if alive w then
    match intervals w !! h with
    | Some c => Some (interval_callback c (with_inputs w t r)).2
    | None => None
    end
  else None.

(** The timeout kept by [warningMemoryLimit] fires when it is due. *)
Definition timeout_fires (w : world) : option world :=
  if alive w then
    match Lodash.timerId (warn_closure w) with
    | Some due => Some (warningMemoryLimit_timerExpired (with_inputs w due (rss w))).2
    | None => None
    end
  else None.

(** Let the pending timeout fire as long as it is due at or before [t]. *)
Fixpoint timeouts_until (fuel : nat) (t : time) (w : world) : world :=
  match fuel with
  | O => w
  | S fuel' =>
      match Lodash.timerId (warn_closure w) with
      | Some due =>
          if due <=? t then
            match timeout_fires w with
            | Some w' => timeouts_until fuel' t w'
            | None => w
            end
          else w
      | None => w
      end
  end.

(** A monitoring session: the interval timer [h] fires at the given
    instants with the given memory readings; timeouts that fall due in
    between fire first.  A tick that cannot fire any more is skipped. *)
Fixpoint session (h : handle) (ticks : list (time * number)) (w : world) : world :=
  match ticks with
  | [] => w
  | (t, r) :: ticks' =>
      let w1 := timeouts_until 2 t w in
      match interval_fires h t r w1 with
      | Some w2 => session h ticks' w2
      | None => session h ticks' w1
      end
  end.

(** The process before the plugin is loaded. *)
Definition boot (t : time) (dir : string) (env : option string) : world :=
  {| clock := t; rss := of_Z 0; cwd := dir; MONITORING_LOG_ENABLED := env;
     heap := ∅; fresh_ref := O; intervals := ∅; fresh_handle := O;
     warn_closure := Lodash.init; exit_code := None; out := [] |}.

(* ===================================================================== *)
(** ** Observations *)
(* ===================================================================== *)

(** What a statement adds to the output when run in [w]. *)
Definition emitted {A : Type} (m : M A) (w : world) : list event :=
  drop (length (out w)) (out (m w).2).

(** A statement that runs to completion and only writes [evs]. *)
Definition writes (m : M unit) (w : world) (evs : list event) : Prop :=
  m w = (Some tt, with_out w (out w ++ evs)).

(** What a logger prints in [w]. *)
Definition logged (w : world) (type : console_method) (c : color) (t : text)
    : list event :=
  if env_truthy (MONITORING_LOG_ENABLED w) then [console type c t] else [].

(** A message published on [subject] and handed to a logger. *)
Definition reported (w : world) (k : kind) (type : console_method) (c : color)
    (t : text) : list event :=
  subject_next k t :: logged w type c t.

(** The classifications published on [subject], in order. *)
Fixpoint published (evs : list event) : list kind :=
  match evs with
  | [] => []
  | subject_next k _ :: evs' => k :: published evs'
  | _ :: evs' => published evs'
  end.

(** The exit codes passed to [process.exit], in order. *)
Fixpoint exits (evs : list event) : list Z :=
  match evs with
  | [] => []
  | process_exit c :: evs' => c :: exits evs'
  | _ :: evs' => exits evs'
  end.

(** The running maximum and its date, as stored behind [r]. *)
Definition running_max (r : ref) (w : world) : option (number * time) :=
  match heap w !! r with
  | Some i => Some (tmpMaxMemoryConsumption i, dateMaxMemoryConsumption i)
  | None => None
  end.

(** The integer that a number denotes, if it denotes one. *)
Definition integer_value (x : number) : option Z :=
  match x with
  | S754_zero _ => Some 0
  | S754_finite s m e =>
      let v := if 0 <=? e then Some (Zpos m * 2 ^ e)
               else if Zpos m mod 2 ^ (- e) =? 0 then Some (Zpos m / 2 ^ (- e))
               else None in
      (fun z => if s then - z else z) <$> v
  | _ => None
  end.

(** [Number::toString] where its result does not depend on the search
    for the shortest digits: [NaN], the infinities, and the integers of
    magnitude below [2^53].  Other numbers are not rendered. *)
Definition Number_toString (x : number) : option string :=
  match x with
  | S754_nan => Some "NaN"
  | S754_infinity s => Some (if s then "-Infinity" else "Infinity")
  | _ => match integer_value x with
         | Some v => if Z.abs v <? 2 ^ 53 then Some (pretty v) else None
         | None => None
         end
  end.

(** The characters of a message, where all its pieces can be rendered;
    dates are not, their form depends on the locale. *)
Fixpoint render (t : text) : option string :=
  match t with
  | [] => Some ""
  | p :: t' =>
      match match p with
            | Lit s => Some s
            | Interp Undefined => Some "undefined"
            | Interp (Num x) => Number_toString x
            | InterpDate _ => None
            end, render t' with
      | Some s, Some s' => Some (s +:+ s')
      | _, _ => None
      end
  end.

(** The memory messages, dated [d]. *)
Definition WARNING_MEMORY_CONSUMPTION_at (d : time) (args : number * value) : text :=
  [Lit LF; Lit "MEMORY_WARNING_MAX_SIZE option has been reached, memory used is ";
   Interp (Num args.1); Lit "MB/"; Interp args.2; Lit "MB at "; InterpDate d; Lit LF].

Definition ERROR_MEMORY_CONSUMPTION_at
    (d : time) (memUsage : number) (MEMORY_ERROR_MAX_SIZE : value) : text :=
  [Lit LF; Lit "MEMORY_ERROR_MAX_SIZE option has been reached, memory used is ";
   Interp (Num memUsage); Lit "/"; Interp MEMORY_ERROR_MAX_SIZE;
   Lit " at "; InterpDate d; Lit ", killing vite"; Lit LF].

(** What the invocations [calls] of the debounced function write in [w]. *)
Definition warnings (w : world) (calls : list (number * value)) : list event :=
  calls ≫= λ a, reported w Warning c_log bgYellow
                         (WARNING_MEMORY_CONSUMPTION_at (clock w) a).

(** The world after the memory warning was requested for [memUsage]. *)
Definition warned (memUsage : number) (limit : value) (w : world) : world :=
  let r := Lodash.debounced WARNING_WAIT true (warn_closure w) (clock w)
                            (memUsage, limit) in
  with_out (with_warn w r.2) (out w ++ warnings w r.1).

(** The world after [memUsage] was stored as the maximum behind [r]. *)
Definition recorded (r : ref) (memUsage : number) (w : world) : world :=
  with_heap w (alter (set_dateMaxMemoryConsumption (clock w)) r
                 (alter (set_tmpMaxMemoryConsumption memUsage) r (heap w)))
            (fresh_ref w).

(** The world once [monitoring] has dealt with its [LOG] option. *)
Definition logging (options : MonitoringOptions) (w : world) : world :=
  if nullish (LOG options) true then with_env w (Some "true"%string) else w.

(** The closure of the monitor that [monitoring options] starts; [r] is
    its [infos] object. *)
Definition monitor_of (options : MonitoringOptions) (r : ref) : closure :=
  {| c_MEMORY_WARNING_MAX_SIZE := default_number (MEMORY_WARNING_MAX_SIZE options) 2950;
     c_MEMORY_ERROR_MAX_SIZE := default_number (MEMORY_ERROR_MAX_SIZE options) 4500;
     c_infos := r |}.

(** The plugin that [monitoring options] returns. *)
Definition plugin_of (options : MonitoringOptions) (r : ref) : Plugin :=
  {| p_infos := r;
     p_BUNDLE_ROOT_FOLDER_PATH := nullish (BUNDLE_ROOT_FOLDER_PATH options) "./public/build";
     p_BUNDLE_MAX_SIZE := BUNDLE_MAX_SIZE options;
     p_NODE_MODULES_MAX_SIZE := NODE_MODULES_MAX_SIZE options |}.

(** What the event loop may run next: the callback of an interval timer,
    at some instant and under some memory reading; the pending timeout
    of [warningMemoryLimit]; [checkNbOfNodeModulesDeps] resumed with the
    manifest; the [writeBundle] hook of a plugin; [finalCallback]
    resumed with the two folder sizes. *)
Inductive task : Type :=
| Tick (h : handle) (t : time) (r : number)
| Timeout
| Imported (NB_NODE_MODULES_MAX : value) (packageJson : manifest)
| WriteBundle (p : Plugin)
| Measured (p : Plugin) (bundle node_modules : number).

(** A callback of the plugin runs, in a live process. *)
Definition resumes {A : Type} (m : M A) (w : world) : option world :=
  if alive w then Some (m w).2 else None.

Definition step (k : task) (w : world) : option world :=
  match k with
  | Tick h t r => interval_fires h t r w
  | Timeout => timeout_fires w
  | Imported NB_NODE_MODULES_MAX packageJson =>
      resumes (checkNbOfNodeModulesDeps_then NB_NODE_MODULES_MAX packageJson) w
  | WriteBundle p => resumes (finalCallback p) w
  | Measured p bundle node_modules =>
      resumes (finalCallback_then p bundle node_modules) w
  end.

Fixpoint run (ks : list task) (w : world) : option world :=
  match ks with
  | [] => Some w
  | k :: ks' =>
      match step k w with
      | Some w' => run ks' w'
      | None => None
      end
  end.

(** [new] is [old], or exceeds it. *)
Definition ratchet (old new : number * time) : Prop :=
  new = old \/ lt old.1 new.1 = true.

(** What was written between [w] and a later [w']. *)
Definition since (w w' : world) : list event := drop (length (out w)) (out w').

(** The memory reading of [n] megabytes, in bytes. *)
Definition megabytes (n : Z) : number := of_Z (n * 1000000).

(** The ticks of timer [h] at the given instants, with the given
    readings in megabytes. *)
Definition ticks_of (h : handle) (samples : list (time * Z)) : list task :=
  (λ s, Tick h s.1 (megabytes s.2)) <$> samples.

(** A burst of calls is under way in the closure of a debounced
    function: the last call came at [t], the arguments [la] wait for the
    trailing edge, and the timeout is due after [t], at most [wait]
    later. *)
Definition in_burst {A : Type} (wait : Z) (la : option A) (t : time)
    (s : Lodash.state A) : Prop :=
  Lodash.lastArgs s = la /\
  Lodash.lastCallTime s = Some t /\
  exists due, Lodash.timerId s = Some due /\ t < due <= t + wait.

(** No burst is under way at [t]: no timeout is pending and a call at
    [t] would be on a leading edge. *)
Definition idle {A : Type} (wait : Z) (t : time) (s : Lodash.state A) : Prop :=
  Lodash.timerId s = None /\ Lodash.shouldInvoke wait s t = true.

(** A sample above the warning threshold and not above the fatal one. *)
Definition in_warning_band (c : closure) (r : number) : Prop :=
  gt (Num (toMB r)) (c_MEMORY_WARNING_MAX_SIZE c) = true /\
  gt (Num (toMB r)) (c_MEMORY_ERROR_MAX_SIZE c) = false.

(** A sample that exceeds neither the warning threshold nor the fatal
    one. *)
Definition at_most_warning (c : closure) (r : number) : Prop :=
  gt (Num (toMB r)) (c_MEMORY_WARNING_MAX_SIZE c) = false /\
  gt (Num (toMB r)) (c_MEMORY_ERROR_MAX_SIZE c) = false.

(** What the trailing edge of a burst writes once [WARNING_WAIT] has
    passed since its last call, at [t]: the warning for the waiting
    arguments, if any. *)
Definition trailing_warning (w : world) (la : option (number * value)) (t : time)
    : list event :=
  match la with
  | Some a => reported w Warning c_log bgYellow
                (WARNING_MEMORY_CONSUMPTION_at (t + WARNING_WAIT) a)
  | None => []
  end.

(** Ticks that follow one another by less than the wait of the
    debounce, the first of them that close to [t]. *)
Fixpoint close_ticks (t : time) (ticks : list (time * number)) : Prop :=
  match ticks with
  | [] => True
  | (t', _) :: ticks' => t <= t' < t + WARNING_WAIT /\ close_ticks t' ticks'
  end.

(** The last of the ticks [tick :: ticks]. *)
Definition last_tick (tick : time * number) (ticks : list (time * number))
    : time * number :=
  List.last ticks tick.

(** [w'] is a later state of the process of [w] in which the same
    timers are live, logging is set as before and the objects are still
    there. *)
Definition same_process (w w' : world) : Prop :=
  exit_code w' = exit_code w /\
  intervals w' = intervals w /\
  MONITORING_LOG_ENABLED w' = MONITORING_LOG_ENABLED w /\
  (forall r, is_Some (heap w !! r) -> is_Some (heap w' !! r)).

(** The coalescing notifier as the specification words it: a window of
    [wait] ms opens with a warning, which is notified; the warnings that
    follow within the window are held back, and the last of them is
    notified when the window closes; the next warning opens a new
    window. *)
Fixpoint spec_window {A : Type} (wait : Z) (start : time) (held : option A)
    (calls : list (time * A)) : list A :=
  match calls with
  | [] => match held with Some a => [a] | None => [] end
  | (t, a) :: calls' =>
      if t <? start + wait then spec_window wait start (Some a) calls'
      else match held with Some b => [b] | None => [] end
           ++ a :: spec_window wait t None calls'
  end.

Definition spec_coalesce {A : Type} (wait : Z) (calls : list (time * A)) : list A :=
  match calls with
  | [] => []
  | (t, a) :: calls' => a :: spec_window wait t None calls'
  end.

(** The samples of the memory warnings published in [evs]. *)
Fixpoint notified (evs : list event) : list number :=
  match evs with
  | [] => []
  | subject_next Warning (_ :: _ :: Interp (Num x) :: _) :: evs' => x :: notified evs'
  | _ :: evs' => notified evs'
  end.

(** The plugin loaded without options in a fresh process. *)
Definition no_options : MonitoringOptions :=
  {| MEMORY_WARNING_MAX_SIZE := Undefined; MEMORY_ERROR_MAX_SIZE := Undefined;
     BUNDLE_ROOT_FOLDER_PATH := None; BUNDLE_MAX_SIZE := Undefined;
     NODE_MODULES_MAX_SIZE := Undefined; NB_NODE_MODULES_MAX := Undefined;
     INTERVAL_CHECK_MEMORY := Undefined; LOG := None |}.

Definition started : world := (monitoring no_options (boot 0 "/app" None)).2.

(** Sixteen ticks, 350 ms apart, reading 3000 MB, 3001 MB, ... *)
Definition sustained : list (time * number) :=
  (λ i, (350 * (i + 1), megabytes (3000 + i))) <$> seqZ 0 16.

(** A number that is [+0], positive or [+Infinity]. *)
Definition not_negative (x : number) : Prop :=
  match x with
  | S754_zero false | S754_infinity false | S754_finite false _ _ => True
  | _ => False
  end.

(** [bytes / 1,000,000] rounded to two decimals as the specification has
    it, in hundredths: the quotient is exact and a tie goes up, or goes
    to the even neighbour. *)
Definition spec_round2_half_up (bytes : Z) : Z := (bytes + 5000) / 10000.

Definition spec_round2_half_even (bytes : Z) : Z :=
  let n := bytes / 10000 in
  let r := bytes mod 10000 in
  if r <? 5000 then n
  else if 5000 <? r then n + 1
  else if Z.even n then n else n + 1.

(** The messages published on [subject], with their keys, in order. *)
Fixpoint messages (evs : list event) : list (kind * text) :=
  match evs with
  | [] => []
  | subject_next k t :: evs' => (k, t) :: messages evs'
  | _ :: evs' => messages evs'
  end.

(** What is written to the console, in order. *)
Fixpoint consoles (evs : list event) : list (console_method * color * text) :=
  match evs with
  | [] => []
  | console m c t :: evs' => (m, c, t) :: consoles evs'
  | _ :: evs' => consoles evs'
  end.

(** The logger that the plugin uses for each key: [errorLog],
    [warningLog], [infoLog]. *)
Definition logger_of (k : kind) : console_method * color :=
  match k with
  | Error => (c_error, red)
  | Warning => (c_log, bgYellow)
  | Info => (c_log, green)
  end.

(** The console shows each published message through the logger of its
    key when [log] holds, and nothing otherwise. *)
Definition mirrored (log : bool) (evs : list event) : Prop :=
  consoles evs = if log then (λ m, (logger_of m.1, m.2)) <$> messages evs else [].

(** The guard [LIMIT && measured > LIMIT] of the size checks. *)
Definition exceeds (LIMIT : value) (measured : number) : bool :=
  ToBoolean LIMIT && gt (Num measured) LIMIT.

(** An event other than a line on the console. *)
Definition off_console (e : event) : bool :=
  match e with
  | console _ _ _ => false
  | _ => true
  end.

(** The process as it would be with logging off: [MONITORING_LOG_ENABLED]
    unset and no line on the console. *)
Definition silenced (w : world) : world :=
  with_env (with_out w (List.filter off_console (out w))) None.

(** The options with [LOG: false]. *)
Definition without_log (options : MonitoringOptions) : MonitoringOptions :=
  {| MEMORY_WARNING_MAX_SIZE := MEMORY_WARNING_MAX_SIZE options;
     MEMORY_ERROR_MAX_SIZE := MEMORY_ERROR_MAX_SIZE options;
     BUNDLE_ROOT_FOLDER_PATH := BUNDLE_ROOT_FOLDER_PATH options;
     BUNDLE_MAX_SIZE := BUNDLE_MAX_SIZE options;
     NODE_MODULES_MAX_SIZE := NODE_MODULES_MAX_SIZE options;
     NB_NODE_MODULES_MAX := NB_NODE_MODULES_MAX options;
     INTERVAL_CHECK_MEMORY := INTERVAL_CHECK_MEMORY options;
     LOG := Some false |}.

(** A statement that, with logging off, does what it does with logging
    on, the console apart. *)
Definition log_blind {A : Type} (m : M A) : Prop :=
  forall w, m (silenced w) = ((m w).1, silenced (m w).2).

(* ===================================================================== *)
(** ** Facts about numbers *)
(* ===================================================================== *)

Lemma compare_cont_Eq (p q : positive) :
  PosDef.Pos.compare_cont Eq p q = (p ?= q)%positive.
Proof. reflexivity. Qed.

Ltac fold_pos_compare :=
  repeat match goal with
         | |- context [PosDef.Pos.compare_cont Eq ?a ?b] =>
             change (PosDef.Pos.compare_cont Eq a b) with (Pos.compare a b)
         end.

Lemma SFcompare_antisym (x y : number) c :
  SFcompare x y = Some c -> SFcompare y x = Some (CompOpp c).
Proof.
  destruct x as [sx|sx| |sx mx ex], y as [sy|sy| |sy my ey]; simpl;
    try discriminate;
    repeat match goal with s : bool |- _ => destruct s end; simpl;
    intros [= <-]; try reflexivity;
    rewrite (Z.compare_antisym ex ey), !compare_cont_Eq, (Pos.compare_antisym mx my);
    destruct (ex ?= ey); simpl; try reflexivity;
    destruct (mx ?= my)%positive; reflexivity.
Qed.

Lemma lt_asym (x y : number) : lt x y = true -> lt y x = false.
Proof.
  unfold lt, SFltb. destruct (SFcompare x y) as [c|] eqn:E; [|done].
  rewrite (SFcompare_antisym _ _ _ E). by destruct c.
Qed.

Lemma lt_irrefl (x : number) : lt x x = false.
Proof.
  destruct (lt x x) eqn:E; [|done]. by rewrite (lt_asym _ _ E) in E.
Qed.

Lemma le_not_lt (x y : number) : le x y = true -> lt y x = false.
Proof.
  unfold le, lt, SFleb, SFltb. destruct (SFcompare x y) as [c|] eqn:E; [|done].
  rewrite (SFcompare_antisym _ _ _ E). by destruct c.
Qed.

Lemma lt_trans (x y z : number) : lt x y = true -> lt y z = true -> lt x z = true.
Proof.
  unfold lt, SFltb.
  destruct x as [sx|sx| |sx mx ex], y as [sy|sy| |sy my ey], z as [sz|sz| |sz mz ez];
    simpl; try discriminate;
    repeat match goal with s : bool |- _ => destruct s end; simpl;
    try discriminate; try reflexivity;
    fold_pos_compare;
    destruct (Z.compare_spec ex ey), (Z.compare_spec ey ez), (Z.compare_spec ex ez);
    try discriminate; try reflexivity; try lia;
    destruct (Pos.compare_spec mx my), (Pos.compare_spec my mz), (Pos.compare_spec mx mz);
    cbn [CompOpp]; try discriminate; try reflexivity; try lia.
Qed.

(** A falsy limit never compares below anything that matters: the guard
    [limit && measured > limit] is false for it. *)
Lemma gt_undefined (v : value) : gt v Undefined = false.
Proof. reflexivity. Qed.

(* ===================================================================== *)
(** ** Rounding in binary64 *)
(* ===================================================================== *)

Lemma digits2_pos_size (p : positive) : digits2_pos p = Pos.size p.
Proof. induction p as [p IH|p IH|]; simpl; by rewrite ?IH. Qed.

Lemma Zdigits2_bounds (p : positive) :
  2 ^ (Zpos (digits2_pos p) - 1) <= Zpos p < 2 ^ Zpos (digits2_pos p).
Proof.
  rewrite digits2_pos_size. split.
  - pose proof (Pos.size_le p) as H.
    apply Pos2Z.pos_le_pos in H. rewrite Pos2Z.inj_pow in H.
    replace (Zpos (Pos.size p)) with (Z.succ (Zpos (Pos.size p) - 1)) in H by lia.
    rewrite Z.pow_succ_r in H by lia. change (Z.pos p~0) with (2 * Zpos p) in H. lia.
  - pose proof (Pos.size_gt p) as H.
    apply Pos2Z.pos_lt_pos in H. by rewrite Pos2Z.inj_pow in H.
Qed.

Lemma Zdigits2_unique (p : positive) (d : Z) :
  2 ^ (d - 1) <= Zpos p < 2 ^ d -> Zpos (digits2_pos p) = d.
Proof.
  intros [Hl Hu]. pose proof (Zdigits2_bounds p) as [Hl' Hu'].
  assert (0 < d) as Hd.
  { destruct (Z.lt_trichotomy d 0) as [H|[->|H]]; [|simpl in Hu; lia|done].
    rewrite Z.pow_neg_r in Hu by done. lia. }
  destruct (Z.lt_trichotomy (Zpos (digits2_pos p)) d) as [H|[H|H]]; [|done|]; exfalso.
  - assert (2 ^ Zpos (digits2_pos p) <= 2 ^ (d - 1)) by (apply Z.pow_le_mono_r; lia). lia.
  - assert (2 ^ d <= 2 ^ (Zpos (digits2_pos p) - 1)) by (apply Z.pow_le_mono_r; lia). lia.
Qed.

Lemma shr_record_of_loc_m m l : shr_m (shr_record_of_loc m l) = m.
Proof. by destruct l as [|[]]. Qed.

Lemma shr_record_round_trip mrs :
  shr_record_of_loc (shr_m mrs) (loc_of_shr_record mrs) = mrs.
Proof. by destruct mrs as [m [] []]. Qed.

Lemma round_nearest_even_cases m l :
  round_nearest_even m l = m \/ round_nearest_even m l = m + 1.
Proof. destruct l as [|[]]; simpl; try tauto. destruct (Z.even m); tauto. Qed.

Lemma fexp_normal (e : Z) : -1074 <= e - 53 -> fexp prec emax e = e - 53.
Proof. intros H. unfold fexp, SpecFloat.emin, prec, emax. lia. Qed.

(** The last step of [binary_round_aux] on a mantissa of 53 bits, or on
    [2^53]. *)
Lemma normalize_53 (q : positive) (e : Z) :
  2 ^ 52 <= Zpos q <= 2 ^ 53 -> -1074 <= e <= 970 ->
  (let '(mrs, e') := shr_fexp prec emax (Zpos q) e loc_Exact in
   match shr_m mrs with
   | Z0 => S754_zero false
   | Zpos m => if e' <=? emax - prec then S754_finite false m e'
               else S754_infinity false
   | Zneg _ => S754_nan
   end)
  = if Zpos q <? 2 ^ 53 then S754_finite false q e
    else S754_finite false (2 ^ 52) (e + 1).
Proof.
  intros Hq He. unfold shr_fexp.
  destruct (Z.ltb_spec (Zpos q) (2 ^ 53)) as [Hlt|Hge].
  - change (Zdigits2 (Zpos q)) with (Zpos (digits2_pos q)).
    rewrite (Zdigits2_unique q 53) by (simpl; lia).
    rewrite fexp_normal by lia.
    replace (53 + e - 53 - e) with 0 by lia. simpl.
    replace (e <=? emax - prec) with true by (symmetry; apply Z.leb_le; unfold emax, prec; lia).
    done.
  - assert (q = (2 ^ 53)%positive) as -> by lia.
    change (Zdigits2 (Zpos (2 ^ 53))) with 54.
    rewrite fexp_normal by lia.
    replace (54 + e - 53 - e) with 1 by lia. simpl.
    replace (e + 1 <=? emax - prec) with true
      by (symmetry; apply Z.leb_le; unfold emax, prec; lia).
    done.
Qed.

Lemma binary_round_aux_53 (p : positive) (ex : Z) (lx : location) :
  2 ^ 52 <= Zpos p < 2 ^ 53 -> -1074 <= ex <= 970 ->
  exists m e,
    binary_round_aux prec emax false (Zpos p) ex lx = S754_finite false m e /\
    2 ^ 52 <= Zpos m < 2 ^ 53 /\
    ((Zpos m = Zpos p /\ e = ex) \/
     (Zpos m = Zpos p + 1 /\ e = ex) \/
     (Zpos p + 1 = 2 ^ 53 /\ Zpos m = 2 ^ 52 /\ e = ex + 1)) /\
    (lx = loc_Exact -> m = p /\ e = ex).
Proof.
  intros Hp He. unfold binary_round_aux.
  unfold shr_fexp at 1.
  change (Zdigits2 (Zpos p)) with (Zpos (digits2_pos p)).
  rewrite (Zdigits2_unique p 53) by (simpl; lia).
  rewrite fexp_normal by lia.
  replace (53 + ex - 53 - ex) with 0 by lia. unfold shr.
  rewrite shr_record_of_loc_m.
  assert (loc_of_shr_record (shr_record_of_loc (Zpos p) lx) = lx) as ->
    by (by destruct lx as [|[]]).
  destruct (round_nearest_even_cases (Zpos p) lx) as [Hr|Hr].
  - rewrite Hr, normalize_53 by lia.
    replace (Zpos p <? 2 ^ 53) with true by (symmetry; apply Z.ltb_lt; lia).
    exists p, ex. split; [done|]. split; [lia|]. split; [lia | done].
  - assert (lx <> loc_Exact) as Hne by (intros ->; simpl in Hr; lia).
    rewrite Hr. change (Zpos p + 1) with (Zpos (p + 1)).
    rewrite normalize_53 by lia.
    destruct (Z.ltb_spec (Zpos (p + 1)) (2 ^ 53)) as [Hlt|Hge].
    + exists (p + 1)%positive, ex. split; [done|]. split; [lia|]. split; [lia | done].
    + exists (2 ^ 52)%positive, (ex + 1).
      split; [done|]. split; [lia|]. split; [lia | done].
Qed.

(** A mantissa of 54 bits loses its last bit first. *)
Lemma binary_round_aux_54 (p : positive) (ex : Z) (lx : location) :
  2 ^ 53 <= Zpos p < 2 ^ 54 -> -1075 <= ex <= 969 ->
  exists (q : positive) (l : location),
    Zpos q = Zpos p / 2 /\
    binary_round_aux prec emax false (Zpos p) ex lx
    = binary_round_aux prec emax false (Zpos q) (ex + 1) l.
Proof.
  intros Hp He.
  assert (exists q, Zpos q = Zpos p / 2 /\
            shr_m (shr_1 (shr_record_of_loc (Zpos p) lx)) = Zpos q) as (q & Hq & Hm).
  { destruct p as [q|q|]; [exists q|exists q|simpl in Hp; lia].
    - split; [|by destruct lx as [|[]]].
      change (Zpos q~1) with (2 * Zpos q + 1).
      apply (Z.div_unique _ 2 _ 1); lia.
    - split; [|by destruct lx as [|[]]].
      change (Zpos q~0) with (2 * Zpos q).
      apply (Z.div_unique _ 2 _ 0); lia. }
  exists q, (loc_of_shr_record (shr_1 (shr_record_of_loc (Zpos p) lx))).
  split; [done|].
  assert (2 ^ 52 <= Zpos q < 2 ^ 53) as Hq'.
  { rewrite Hq. split.
    - apply Z.div_le_lower_bound; lia.
    - apply Z.div_lt_upper_bound; lia. }
  unfold binary_round_aux. unfold shr_fexp at 1 3.
  change (Zdigits2 (Zpos p)) with (Zpos (digits2_pos p)).
  change (Zdigits2 (Zpos q)) with (Zpos (digits2_pos q)).
  rewrite (Zdigits2_unique p 54), (Zdigits2_unique q 53) by (simpl; lia).
  rewrite !fexp_normal by lia.
  replace (54 + ex - 53 - ex) with 1 by lia.
  replace (53 + (ex + 1) - 53 - (ex + 1)) with 0 by lia.
  unfold shr. simpl iter_pos.
  by rewrite <- Hm, shr_record_round_trip.
Qed.

Lemma div_pow2_half (a b k : Z) :
  0 < b -> 0 <= k -> a * 2 ^ (k + 1) / b / 2 = a * 2 ^ k / b.
Proof.
  intros Hb Hk. rewrite Z.div_div by lia.
  rewrite Z.pow_add_r by lia. change (2 ^ 1) with 2.
  rewrite Z.mul_assoc. apply Z.div_mul_cancel_r; lia.
Qed.

(** The quotient of two positive numbers with full mantissas: its
    mantissa is the quotient of the mantissas, scaled to 53 bits and
    cut, or one more. *)
Lemma div_canonical (px py : positive) (ex ey : Z) :
  2 ^ 52 <= Zpos px < 2 ^ 53 -> 2 ^ 52 <= Zpos py < 2 ^ 53 ->
  -1000 <= ex - ey <= 1000 ->
  exists (m : positive) (k : Z),
    div (S754_finite false px ex) (S754_finite false py ey)
    = S754_finite false m (ex - ey - k) /\
    51 <= k <= 53 /\
    2 ^ 52 <= Zpos m < 2 ^ 53 /\
    (Zpos m = Zpos px * 2 ^ k / Zpos py \/ Zpos m = Zpos px * 2 ^ k / Zpos py + 1).
Proof.
  intros Hx Hy He. unfold div, SFdiv, SFdiv_core_binary. simpl xorb.
  change (Zdigits2 (Zpos px)) with (Zpos (digits2_pos px)).
  change (Zdigits2 (Zpos py)) with (Zpos (digits2_pos py)).
  rewrite (Zdigits2_unique px 53), (Zdigits2_unique py 53) by (simpl; lia).
  rewrite fexp_normal by lia. rewrite Z.min_l by lia.
  replace (ex - ey - (53 + ex - (53 + ey) - 53)) with 53 by lia.
  cbv iota. rewrite Z.shiftl_mul_pow2 by lia.
  set (a := Zpos px * 2 ^ 53).
  pose proof (Z_div_mod a (Zpos py) ltac:(lia)) as Hdm.
  destruct (Z.div_eucl a (Zpos py)) as [q r]. destruct Hdm as (Ha & Hr).
  assert (q = a / Zpos py) as Hq by (apply (Z.div_unique _ _ _ r); [lia | done]).
  set (e' := 53 + ex - (53 + ey) - 53).
  set (l := new_location (Zpos py) r).
  assert (2 ^ 52 <= q < 2 ^ 54) as Hq'.
  { rewrite Hq. unfold a. split.
    - apply Z.div_le_lower_bound; [lia|].
      transitivity (2 ^ 52 * 2 ^ 53); [|apply Z.mul_le_mono_nonneg_r; lia].
      rewrite (Z.mul_comm (Zpos py)). apply Z.mul_le_mono_nonneg_l; lia.
    - apply Z.div_lt_upper_bound; [lia|].
      apply (Z.lt_le_trans _ (2 ^ 53 * 2 ^ 53)).
      + apply Z.mul_lt_mono_pos_r; lia.
      + replace (2 ^ 54) with (2 * 2 ^ 53) by done.
        rewrite (Z.mul_comm (Zpos py)), <- Z.mul_assoc.
        replace (2 ^ 53 * 2 ^ 53) with (2 * (2 ^ 52 * 2 ^ 53)) by done.
        apply Z.mul_le_mono_nonneg_l; [lia|]. rewrite (Z.mul_comm (2 ^ 53)).
        apply Z.mul_le_mono_nonneg_r; lia. }
  assert (q / 2 = Zpos px * 2 ^ 52 / Zpos py) as Hhalf
    by (rewrite Hq; unfold a; apply (div_pow2_half _ _ 52); lia).
  assert (q / 2 / 2 = Zpos px * 2 ^ 51 / Zpos py) as Hquarter
    by (rewrite Hhalf; apply (div_pow2_half _ _ 51); lia).
  destruct q as [|pq|pq]; [lia| |lia].
  destruct (Z.lt_ge_cases (Zpos pq) (2 ^ 53)) as [H53|H54].
  - destruct (binary_round_aux_53 pq e' l) as (m & e & -> & Hm & Hcases & _);
      [lia | unfold e'; lia |].
    destruct Hcases as [(Hmq & ->)|[(Hmq & ->)|(Hpq & Hmq & ->)]].
    + exists m, 53. split; [f_equal; unfold e'; lia|]. split; [lia|]. split; [lia|].
      left. fold a. lia.
    + exists m, 53. split; [f_equal; unfold e'; lia|]. split; [lia|]. split; [lia|].
      right. fold a. lia.
    + exists m, 52. split; [f_equal; unfold e'; lia|]. split; [lia|]. split; [lia|].
      right. rewrite <- Hhalf, Hmq.
      replace (Zpos pq) with (2 ^ 53 - 1) by lia. done.
  - destruct (binary_round_aux_54 pq e' l) as (ph & l' & Hph & ->);
      [lia | unfold e'; lia |].
    assert (2 ^ 52 <= Zpos ph < 2 ^ 53) as Hph'.
    { rewrite Hph. split.
      - apply Z.div_le_lower_bound; lia.
      - apply Z.div_lt_upper_bound; lia. }
    destruct (binary_round_aux_53 ph (e' + 1) l') as (m & e & -> & Hm & Hcases & _);
      [lia | unfold e'; lia |].
    destruct Hcases as [(Hmq & ->)|[(Hmq & ->)|(Hpq & Hmq & ->)]].
    + exists m, 52. split; [f_equal; unfold e'; lia|]. split; [lia|]. split; [lia|].
      left. lia.
    + exists m, 52. split; [f_equal; unfold e'; lia|]. split; [lia|]. split; [lia|].
      right. lia.
    + exists m, 51. split; [f_equal; unfold e'; lia|]. split; [lia|]. split; [lia|].
      right. rewrite <- Hquarter, <- Hph, Hmq.
      replace (Zpos ph) with (2 ^ 53 - 1) by lia. done.
Qed.

Lemma Pos_iter_xO (p n : positive) : Zpos (Pos.iter xO p n) = Zpos p * 2 ^ Zpos n.
Proof.
  induction n as [|n IH] using Pos.peano_ind.
  - simpl. lia.
  - rewrite Pos.iter_succ, Pos2Z.inj_succ, Z.pow_succ_r by lia.
    change (Zpos (Pos.iter xO p n)~0) with (2 * Zpos (Pos.iter xO p n)). lia.
Qed.

(** A byte count below [2^53] is a number as it stands. *)
Lemma of_Z_canonical (b : Z) :
  0 < b < 2 ^ 53 ->
  exists (m : positive) (e : Z),
    of_Z b = S754_finite false m e /\
    2 ^ 52 <= Zpos m < 2 ^ 53 /\ -52 <= e <= 0 /\ Zpos m = b * 2 ^ (- e).
Proof.
  intros Hb. destruct b as [|p|p]; [lia| |lia].
  unfold of_Z, binary_normalize, binary_round.
  pose proof (Zdigits2_bounds p) as [Hl Hu].
  set (d := Zpos (digits2_pos p)) in *.
  assert (1 <= d <= 53) as Hd.
  { split; [unfold d; lia|].
    destruct (Z.le_gt_cases d 53) as [|Hgt]; [done|].
    assert (2 ^ 53 <= 2 ^ (d - 1)) by (apply Z.pow_le_mono_r; lia). lia. }
  rewrite Z.add_0_r, fexp_normal by lia.
  unfold shl_align.
  assert (2 ^ (d - 1) * 2 ^ (53 - d) = 2 ^ 52) as Hpow
    by (rewrite <- Z.pow_add_r by lia; f_equal; lia).
  assert (2 ^ d * 2 ^ (53 - d) = 2 ^ 53) as Hpow'
    by (rewrite <- Z.pow_add_r by lia; f_equal; lia).
  destruct (d - 53 - 0) as [|dd|dd] eqn:Hdd; [| lia |].
  - assert (d = 53) as Hd53 by lia. rewrite Hd53 in *.
    destruct (binary_round_aux_53 p 0 loc_Exact) as (m & e & -> & Hm & _ & Hex);
      [simpl in *; lia | lia |].
    destruct (Hex eq_refl) as (-> & ->).
    exists p, 0. simpl in *. repeat split; lia.
  - assert (Zpos dd = 53 - d) as Hdd' by lia.
    pose proof (Pos_iter_xO p dd) as Hshift. rewrite Hdd' in Hshift.
    set (mz := Pos.iter xO p dd) in *.
    assert (2 ^ 52 <= Zpos mz < 2 ^ 53) as Hmz.
    { rewrite Hshift. split.
      - rewrite <- Hpow. apply Z.mul_le_mono_nonneg_r; lia.
      - rewrite <- Hpow'. apply Z.mul_lt_mono_pos_r; lia. }
    destruct (binary_round_aux_53 mz (d - 53) loc_Exact) as (m & e & -> & Hm & _ & Hex);
      [done | lia |].
    destruct (Hex eq_refl) as (-> & ->).
    exists mz, (d - 53). repeat split; try lia.
    rewrite Hshift. f_equal. f_equal. lia.
Qed.

(** The arithmetic behind [toMB]: two quotients by [1000 * 2^43], each
    cut or one more, then the nearest integer to a hundred times the
    result. *)
Lemma hundredths_bounds (b B K1 K2 P m1 m2 n : Z) :
  let Y := 1000 * 2 ^ 43 in
  0 < b < 2 ^ 51 -> 0 < B -> 0 < K1 -> 0 < K2 <= 2 ^ 53 -> 0 < P ->
  B * K1 * K2 = P * 2 ^ 86 ->
  (m1 = b * B * K1 / Y \/ m1 = b * B * K1 / Y + 1) ->
  (m2 = m1 * K2 / Y \/ m2 = m1 * K2 / Y + 1) ->
  2 ^ 52 <= m2 ->
  (P < 2 ^ 21 -> P <= 2 ^ 20) ->
  n = (2 * m2 * 10 ^ 2 + P) / (2 * P) ->
  0 <= n /\ 10000 * n - 5000 <= b <= 10000 * n + 5000.
Proof.
  intros Y Hb HB HK1 HK2 HP Hpow Hm1 Hm2 Hm2' Hstep Hn.
  assert (0 < Y) as HY by (unfold Y; lia).
  (* the two quotients *)
  assert (m1 * Y <= b * B * K1 + Y /\ b * B * K1 < m1 * Y + Y) as (H1u & H1l).
  { pose proof (Z.mul_div_le (b * B * K1) Y HY).
    pose proof (Z.mul_succ_div_gt (b * B * K1) Y HY).
    destruct Hm1 as [-> | ->]; lia. }
  assert (m2 * Y <= m1 * K2 + Y /\ m1 * K2 < m2 * Y + Y) as (H2u & H2l).
  { pose proof (Z.mul_div_le (m1 * K2) Y HY).
    pose proof (Z.mul_succ_div_gt (m1 * K2) Y HY).
    destruct Hm2 as [-> | ->]; lia. }
  (* together *)
  assert (Y * Y = 1000000 * 2 ^ 86) as HYY by (unfold Y; lia).
  assert (Y * K2 <= 1024000 * 2 ^ 86) as HYK.
  { transitivity (Y * 2 ^ 53); [apply Z.mul_le_mono_nonneg_l; lia | unfold Y; lia]. }
  assert (m2 * 1000000 <= b * P + 2024000) as Hu.
  { assert (m2 * Y * Y <= (m1 * K2 + Y) * Y) by (apply Z.mul_le_mono_nonneg_r; lia).
    assert (m1 * Y * K2 <= (b * B * K1 + Y) * K2) by (apply Z.mul_le_mono_nonneg_r; lia).
    assert (m2 * (Y * Y) <= b * (B * K1 * K2) + Y * K2 + Y * Y) by lia.
    rewrite Hpow, HYY in *.
    assert (m2 * 1000000 * 2 ^ 86 <= (b * P + 2024000) * 2 ^ 86) by lia.
    apply (Z.mul_le_mono_pos_r _ _ (2 ^ 86)); lia. }
  assert (b * P - 2024000 < m2 * 1000000) as Hl.
  { assert (m1 * K2 * Y < (m2 * Y + Y) * Y) by (apply Z.mul_lt_mono_pos_r; lia).
    assert (b * B * K1 * K2 < (m1 * Y + Y) * K2) by (apply Z.mul_lt_mono_pos_r; lia).
    assert (b * (B * K1 * K2) < m2 * (Y * Y) + Y * Y + Y * K2) by lia.
    rewrite Hpow, HYY in *.
    assert ((b * P - 2024000) * 2 ^ 86 < m2 * 1000000 * 2 ^ 86) by lia.
    apply (Z.mul_lt_mono_pos_r (2 ^ 86)); lia. }
  (* the scale of the result *)
  assert (2 ^ 21 <= P) as HP21.
  { destruct (Z.le_gt_cases (2 ^ 21) P) as [|Hsmall]; [done|]. exfalso.
    specialize (Hstep Hsmall).
    assert (b * P <= 2 ^ 51 * 2 ^ 20) by (apply Z.mul_le_mono_nonneg; lia).
    lia. }
  (* the nearest integer *)
  assert (2 * P * n <= 2 * m2 * 10 ^ 2 + P /\ 2 * m2 * 10 ^ 2 + P < 2 * P * (n + 1))
    as (Hnl & Hnu).
  { rewrite Hn. split.
    - apply Z.mul_div_le; lia.
    - replace (2 * P * ((2 * m2 * 10 ^ 2 + P) / (2 * P) + 1))
        with (2 * P * Z.succ ((2 * m2 * 10 ^ 2 + P) / (2 * P))) by lia.
      apply Z.mul_succ_div_gt; lia. }
  change (10 ^ 2) with 100 in *.
  assert (0 <= n) as Hn0.
  { rewrite Hn. apply Z.div_pos; lia. }
  split; [done|]. split.
  - (* (2n - 1) * 5000 <= b *)
    destruct (Z.le_gt_cases ((2 * n - 1) * 5000) b) as [|Hgt]; [lia|]. exfalso.
    assert (((2 * n - 1) * 5000 - b) * P >= 1 * P) by nia.
    nia.
  - destruct (Z.le_gt_cases b ((2 * n + 1) * 5000)) as [|Hgt]; [lia|]. exfalso.
    assert ((b - (2 * n + 1) * 5000) * P >= 1 * P) by nia.
    nia.
Qed.

Lemma iter_pos_invariant {A : Type} (P : A -> Prop) (f : A -> A) :
  (forall x, P x -> P (f x)) -> forall n x, P x -> P (SpecFloat.iter_pos f n x).
Proof.
  intros Hf. induction n as [n IH|n IH|]; intros x Hx; simpl.
  - by apply IH, IH, Hf.
  - by apply IH, IH.
  - by apply Hf.
Qed.

Lemma shr_1_not_negative mrs : 0 <= shr_m mrs -> 0 <= shr_m (shr_1 mrs).
Proof. destruct mrs as [[|[p|p|]|p] r s]; simpl; lia. Qed.

Lemma shr_fexp_not_negative m e l :
  0 <= m -> 0 <= shr_m (shr_fexp prec emax m e l).1.
Proof.
  intros Hm. unfold shr_fexp, shr.
  destruct (fexp prec emax (Zdigits2 m + e) - e) as [|n|n]; simpl;
    rewrite ?shr_record_of_loc_m; try done.
  apply (iter_pos_invariant (λ mrs, 0 <= shr_m mrs)).
  - apply shr_1_not_negative.
  - by rewrite shr_record_of_loc_m.
Qed.

Lemma binary_round_aux_not_negative mx ex lx :
  0 <= mx -> not_negative (binary_round_aux prec emax false mx ex lx).
Proof.
  intros Hm. unfold binary_round_aux.
  pose proof (shr_fexp_not_negative mx ex lx Hm) as H1.
  destruct (shr_fexp prec emax mx ex lx) as [mrs' e']. simpl in H1.
  assert (0 <= round_nearest_even (shr_m mrs') (loc_of_shr_record mrs')) as H2
    by (destruct (round_nearest_even_cases (shr_m mrs') (loc_of_shr_record mrs'))
          as [-> | ->]; lia).
  pose proof (shr_fexp_not_negative _ e' loc_Exact H2) as H3.
  destruct (shr_fexp prec emax _ e' loc_Exact) as [mrs'' e'']. simpl in H3.
  destruct (shr_m mrs'') as [|m|m]; [done| |lia].
  by destruct (e'' <=? emax - prec).
Qed.

Lemma div_not_negative x py ey :
  not_negative x -> not_negative (div x (S754_finite false py ey)).
Proof.
  destruct x as [[]|[]| |[] px ex]; try done. intros _.
  unfold div, SFdiv, SFdiv_core_binary. simpl xorb.
  set (e' := Z.min _ _). set (m' := match ex - ey - e' with Z0 => _ | _ => _ end).
  assert (0 <= m') as Hm'.
  { unfold m'. destruct (ex - ey - e') as [|s|s]; [lia| |lia].
    rewrite Z.shiftl_mul_pow2 by lia. apply Z.mul_nonneg_nonneg; [lia|].
    apply Z.pow_nonneg. lia. }
  pose proof (Z_div_mod m' (Zpos py) ltac:(lia)) as Hdm.
  destruct (Z.div_eucl m' (Zpos py)) as [q r]. destruct Hdm as (Hq & Hr).
  apply binary_round_aux_not_negative. nia.
Qed.

Lemma of_Z_not_negative b : 0 <= b -> not_negative (of_Z b).
Proof.
  intros Hb. destruct b as [|p|p]; [done| |lia].
  unfold of_Z, binary_normalize, binary_round.
  destruct (shl_align _ _ _) as [mz ez].
  by apply binary_round_aux_not_negative.
Qed.

Lemma decimal_not_negative n f : not_negative (decimal n f).
Proof.
  destruct n as [|p|p]; try done. unfold decimal.
  by apply (div_not_negative (S754_finite false p 0)).
Qed.

Lemma le_zero_not_negative x : not_negative x -> le (of_Z 0) x = true.
Proof. by destruct x as [[]|[]| |[] m e]. Qed.

Lemma toMB_not_negative bytes : not_negative bytes -> not_negative (toMB bytes).
Proof.
  intros Hb. unfold toMB.
  change (of_Z 1000) with (S754_finite false 8796093022208000 (-43)).
  set (x := div (div bytes _) _).
  assert (not_negative x) as Hx by (by apply div_not_negative, div_not_negative).
  destruct x as [[]|[]| |[] m e]; try done. unfold toFixed.
  destruct (ge_1e21 m e); [done|]. apply decimal_not_negative.
Qed.

(** Below [2^51] bytes, [toMB] yields a two-decimal numeral that lies
    within half a hundredth of the exact quotient. *)
Lemma toMB_nearest_hundredth (b : Z) :
  0 < b < 2 ^ 51 ->
  exists n, toMB (of_Z b) = decimal n 2 /\
            0 <= n /\ 10000 * n - 5000 <= b <= 10000 * n + 5000.
Proof.
  intros Hb.
  destruct (of_Z_canonical b ltac:(lia)) as (mb & eb & Hof & Hmb & Heb & Hmb').
  unfold toMB. rewrite Hof.
  change (of_Z 1000) with (S754_finite false 8796093022208000 (-43)).
  destruct (div_canonical mb 8796093022208000 eb (-43) Hmb ltac:(lia) ltac:(lia))
    as (m1 & k1 & -> & Hk1 & Hm1 & Hq1).
  destruct (div_canonical m1 8796093022208000 (eb - -43 - k1) (-43) Hm1
              ltac:(lia) ltac:(lia))
    as (m2 & k2 & -> & Hk2 & Hm2 & Hq2).
  set (e2 := eb - -43 - k1 - -43 - k2).
  assert (e2 < 0) as He2 by (unfold e2; lia).
  unfold toFixed, ge_1e21, nearest_scaled.
  replace (0 <=? e2) with false by (symmetry; apply Z.leb_gt; lia).
  assert (0 < 2 ^ (- e2)) as HP by (apply Z.pow_pos_nonneg; lia).
  replace (10 ^ 21 * 2 ^ (- e2) <=? Zpos m2) with false
    by (symmetry; apply Z.leb_gt; nia).
  eexists. split; [reflexivity|].
  change (10 ^ Z.of_nat 2) with (10 ^ 2).
  assert (0 < 2 ^ (- eb)) as HB by (apply Z.pow_pos_nonneg; lia).
  assert (0 < 2 ^ k1) as HK1 by (apply Z.pow_pos_nonneg; lia).
  assert (0 < 2 ^ k2 <= 2 ^ 53) as HK2
    by (split; [apply Z.pow_pos_nonneg; lia | apply Z.pow_le_mono_r; lia]).
  assert (2 ^ (- eb) * 2 ^ k1 * 2 ^ k2 = 2 ^ (- e2) * 2 ^ 86) as Hpow
    by (rewrite <- !Z.pow_add_r by lia; f_equal; unfold e2; lia).
  assert (2 ^ (- e2) < 2 ^ 21 -> 2 ^ (- e2) <= 2 ^ 20) as Hstep.
  { intros Hsmall. apply Z.pow_le_mono_r; [lia|].
    destruct (Z.le_gt_cases (- e2) 20) as [|Hgt]; [done|]. exfalso.
    assert (2 ^ 21 <= 2 ^ (- e2)) by (apply Z.pow_le_mono_r; lia). lia. }
  rewrite Hmb' in Hq1.
  change (Zpos 8796093022208000) with (1000 * 2 ^ 43) in Hq1, Hq2.
  exact (hundredths_bounds b (2 ^ (- eb)) (2 ^ k1) (2 ^ k2) (2 ^ (- e2))
           (Zpos m1) (Zpos m2) _ ltac:(lia) HB HK1 HK2 HP Hpow Hq1 Hq2
           ltac:(lia) Hstep eq_refl).
Qed.

(* ===================================================================== *)
(** ** [toMB] *)
(* ===================================================================== *)

(** C5, as amended: [toMB(20000) = 0.02] and [toMB(12345678) = 12.35];
    for every byte count [b >= 0], [toMB(b) >= 0]; for every byte count
    below [2^51], [toMB(b)] is a two-decimal numeral within half a
    hundredth of [b / 1,000,000], hence that quotient rounded to two
    decimals unless it lies half-way between two hundredths, where
    either neighbour may come out. *)
Theorem toMB_two_decimals :
  toMB (of_Z 20000) = decimal 2 2 /\
  toMB (of_Z 12345678) = decimal 1235 2 /\
  (forall b, 0 <= b -> le (of_Z 0) (toMB (of_Z b)) = true) /\
  (forall b, 0 <= b < 2 ^ 51 ->
     exists n, toMB (of_Z b) = decimal n 2 /\
               0 <= n /\ 10000 * n - 5000 <= b <= 10000 * n + 5000 /\
               (b mod 10000 <> 5000 -> n = spec_round2_half_up b)).
Proof.
  split; [reflexivity|]. split; [reflexivity|]. split.
  - intros b Hb. by apply le_zero_not_negative, toMB_not_negative, of_Z_not_negative.
  - intros b Hb.
    assert (exists n, toMB (of_Z b) = decimal n 2 /\
              0 <= n /\ 10000 * n - 5000 <= b <= 10000 * n + 5000)
      as (n & Hn & Hn0 & Hnb).
    { destruct (Z.eq_dec b 0) as [->|Hne].
      - exists 0. by repeat split.
      - apply toMB_nearest_hundredth. lia. }
    exists n. split; [done|]. split; [done|]. split; [done|].
    intros Htie. unfold spec_round2_half_up.
    apply (Z.div_unique _ _ _ (b + 5000 - 10000 * n)); [|lia].
    left. split; [lia|].
    destruct (Z.eq_dec b (10000 * n + 5000)) as [->|]; [|lia].
    exfalso. apply Htie.
    rewrite Z.add_comm, Z.mul_comm, Z.mod_add by lia. reflexivity.
Qed.

Lemma toMB_two_decimals_witness :
  exists n, toMB (of_Z 150000000) = decimal n 2 /\ n = 15000.
Proof.
  destruct toMB_two_decimals as (_ & _ & _ & H).
  destruct (H 150000000 ltac:(lia)) as (n & Hn & _ & _ & Hr).
  exists n. split; [done|]. rewrite Hr; [reflexivity|]. by vm_compute.
Defined.

(** C5 as stated fails at 15000 bytes: the exact quotient 0.015 rounds
    to 0.02, whether a tie goes up or to the even neighbour, but the
    binary64 quotient lies below 0.015 and [toMB] yields 0.01. *)
Lemma toMB_is_not_the_rounded_quotient :
  toMB (of_Z 15000) = decimal 1 2 /\
  spec_round2_half_up 15000 = 2 /\
  spec_round2_half_even 15000 = 2 /\
  ~ (forall b, 0 <= b -> toMB (of_Z b) = decimal (spec_round2_half_up b) 2) /\
  ~ (forall b, 0 <= b -> toMB (of_Z b) = decimal (spec_round2_half_even b) 2).
Proof.
  split; [reflexivity|]. split; [reflexivity|]. split; [reflexivity|].
  split; intros H; specialize (H 15000 ltac:(lia)); vm_compute in H; discriminate.
Qed.

(* ===================================================================== *)
(** ** Facts about statements *)
(* ===================================================================== *)

Lemma with_out_id w : with_out w (out w) = w.
Proof. by destruct w. Qed.

Lemma writes_ret w : writes (ret tt) w [].
Proof. unfold writes, ret. by rewrite app_nil_r, with_out_id. Qed.

Lemma writes_emit e w : writes (emit e) w [e].
Proof. done. Qed.

Lemma writes_bind m k w evs evs' :
  writes m w evs ->
  writes k (with_out w (out w ++ evs)) evs' ->
  writes (m ;;; k) w (evs ++ evs').
Proof.
  unfold writes, bind. intros -> ->. simpl. by rewrite app_assoc.
Qed.

Lemma writes_emitted m w evs : writes m w evs -> emitted m w = evs.
Proof.
  unfold writes, emitted. intros ->. simpl. apply drop_app_length.
Qed.

Lemma writes_colorizedLog c ty t w :
  writes (colorizedLog c ty t) w (logged w ty c t).
Proof.
  unfold writes, colorizedLog, logged.
  destruct (env_truthy _); [apply writes_emit | apply writes_ret].
Qed.

(** Publishing a message and logging it. *)
Lemma writes_publish k c ty t w :
  writes (subject_next_ k t ;;; colorizedLog c ty t) w (reported w k ty c t).
Proof.
  apply (writes_bind _ _ _ [subject_next k t]); [apply writes_emit |].
  apply (writes_colorizedLog c ty t (with_out w _)).
Qed.

Lemma published_reported w k ty c t : published (reported w k ty c t) = [k].
Proof. unfold reported, logged. by destruct (env_truthy _). Qed.

Lemma exits_reported w k ty c t : exits (reported w k ty c t) = [].
Proof. unfold reported, logged. by destruct (env_truthy _). Qed.

(* ===================================================================== *)
(** ** The size checks *)
(* ===================================================================== *)

Lemma checkBundleSizes_exceeded limit measured w :
  ToBoolean limit = true -> gt (Num measured) limit = true ->
  writes (checkBundleSizes limit measured) w
         (reported w Error c_error red (ERROR_BUNDLE_SIZE_TXT measured limit)).
Proof.
  intros Ht Hg. unfold checkBundleSizes. rewrite Ht, Hg. apply writes_publish.
Qed.

Lemma checkBundleSizes_within limit measured w :
  ToBoolean limit && gt (Num measured) limit = false ->
  writes (checkBundleSizes limit measured) w
         (reported w Info c_log green (INFO_BUNDLE_SIZE_TXT measured limit)).
Proof.
  intros H. unfold checkBundleSizes. rewrite H. apply writes_publish.
Qed.

Lemma checkNodeModulesSize_exceeded limit measured w :
  ToBoolean limit = true -> gt (Num measured) limit = true ->
  writes (checkNodeModulesSize limit measured) w
         (reported w Error c_error red (ERROR_NODE_MODULE_SIZE_TXT measured limit)).
Proof.
  intros Ht Hg. unfold checkNodeModulesSize. rewrite Ht, Hg. apply writes_publish.
Qed.

Lemma checkNodeModulesSize_within limit measured w :
  ToBoolean limit && gt (Num measured) limit = false ->
  writes (checkNodeModulesSize limit measured) w
         (reported w Info c_log green (INFO_NODE_MODULE_SIZE_TXT measured limit)).
Proof.
  intros H. unfold checkNodeModulesSize. rewrite H. apply writes_publish.
Qed.

(** C1, as amended: for every measured value, an unset limit gives an
    informational outcome; a limit that is set and not zero, when
    exceeded, gives an error whose message holds the measured value and
    the limit; a limit that is set and not exceeded gives an
    informational outcome.  [checkBundleSizes] and [checkNodeModulesSize]
    behave alike. *)
Theorem threshold_check_nonzero_limit (w : world) (measured : number) (limit : value) :
  (limit = Undefined ->
     emitted (checkBundleSizes limit measured) w
       = reported w Info c_log green (INFO_BUNDLE_SIZE_TXT measured limit) /\
     emitted (checkNodeModulesSize limit measured) w
       = reported w Info c_log green (INFO_NODE_MODULE_SIZE_TXT measured limit)) /\
  (ToBoolean limit = true -> gt (Num measured) limit = true ->
     emitted (checkBundleSizes limit measured) w
       = reported w Error c_error red (ERROR_BUNDLE_SIZE_TXT measured limit) /\
     emitted (checkNodeModulesSize limit measured) w
       = reported w Error c_error red (ERROR_NODE_MODULE_SIZE_TXT measured limit) /\
     In (Interp (Num measured)) (ERROR_BUNDLE_SIZE_TXT measured limit) /\
     In (Interp limit) (ERROR_BUNDLE_SIZE_TXT measured limit) /\
     In (Interp (Num measured)) (ERROR_NODE_MODULE_SIZE_TXT measured limit) /\
     In (Interp limit) (ERROR_NODE_MODULE_SIZE_TXT measured limit)) /\
  (forall l, limit = Num l -> le measured l = true ->
     emitted (checkBundleSizes limit measured) w
       = reported w Info c_log green (INFO_BUNDLE_SIZE_TXT measured limit) /\
     emitted (checkNodeModulesSize limit measured) w
       = reported w Info c_log green (INFO_NODE_MODULE_SIZE_TXT measured limit)).
Proof.
  split; [|split].
  - intros ->. split; apply writes_emitted.
    + by apply checkBundleSizes_within.
    + by apply checkNodeModulesSize_within.
  - intros Ht Hg. repeat split.
    + apply writes_emitted. by apply checkBundleSizes_exceeded.
    + apply writes_emitted. by apply checkNodeModulesSize_exceeded.
    + simpl; tauto.
    + simpl; tauto.
    + simpl; tauto.
    + simpl; tauto.
  - intros l -> Hle.
    assert (gt (Num measured) (Num l) = false) as Hg by (by apply le_not_lt).
    split; apply writes_emitted.
    + apply checkBundleSizes_within. rewrite Hg. apply andb_false_r.
    + apply checkNodeModulesSize_within. rewrite Hg. apply andb_false_r.
Qed.

Lemma threshold_check_nonzero_limit_witness :
  let w := boot 0 "/app" (Some "true"%string) in
  published (emitted (checkBundleSizes (Num (of_Z 10)) (of_Z 12)) w) = [Error] /\
  published (emitted (checkNodeModulesSize (Num (of_Z 900)) (of_Z 1000)) w) = [Error] /\
  published (emitted (checkBundleSizes (Num (of_Z 10)) (of_Z 10)) w) = [Info] /\
  published (emitted (checkBundleSizes Undefined (of_Z 12)) w) = [Info].
Proof.
  intros w.
  pose proof (threshold_check_nonzero_limit w (of_Z 12) (Num (of_Z 10))) as (_ & H12 & _).
  pose proof (threshold_check_nonzero_limit w (of_Z 1000) (Num (of_Z 900))) as (_ & H1000 & _).
  pose proof (threshold_check_nonzero_limit w (of_Z 10) (Num (of_Z 10))) as (_ & _ & H10).
  pose proof (threshold_check_nonzero_limit w (of_Z 12) Undefined) as (Hu & _ & _).
  destruct (H12 eq_refl eq_refl) as (-> & _).
  destruct (H1000 eq_refl eq_refl) as (_ & -> & _).
  destruct (H10 _ eq_refl eq_refl) as (-> & _).
  destruct (Hu eq_refl) as (-> & _).
  repeat split.
Defined.

(** C1 as stated fails for a limit that is set to zero: 5 exceeds 0, yet
    the outcome is informational. *)
Lemma zero_limit_never_exceeded :
  ~ (forall (w : world) (measured l : number),
       gt (Num measured) (Num l) = true ->
       published (emitted (checkBundleSizes (Num l) measured) w) = [Error]).
Proof.
  intros H.
  specialize (H (boot 0 "/app" None) (of_Z 5) (of_Z 0) eq_refl).
  vm_compute in H. discriminate.
Qed.

(* ===================================================================== *)
(** ** The number of declared dependencies *)
(* ===================================================================== *)

Lemma length_Object_keys (o : gmap string string) : length (Object_keys o) = size o.
Proof. unfold Object_keys. by rewrite length_fmap, length_map_to_list. Qed.

Lemma checkNbOfNodeModulesDeps_then_exceeded limit pkg w :
  gt (Num (of_nat (nbOfNodeModulesDeps pkg))) limit = true ->
  writes (checkNbOfNodeModulesDeps_then limit pkg) w
         (reported w Error c_error red
            (ERROR_NODE_MODULE_NB_TXT (of_nat (nbOfNodeModulesDeps pkg)) limit)).
Proof.
  intros H. unfold checkNbOfNodeModulesDeps_then. rewrite H. apply writes_publish.
Qed.

Lemma checkNbOfNodeModulesDeps_then_within limit pkg w :
  gt (Num (of_nat (nbOfNodeModulesDeps pkg))) limit = false ->
  writes (checkNbOfNodeModulesDeps_then limit pkg) w
         (reported w Info c_log green
            (INFO_NODE_MODULE_NB_TXT (of_nat (nbOfNodeModulesDeps pkg)) limit)).
Proof.
  intros H. unfold checkNbOfNodeModulesDeps_then. rewrite H. apply writes_publish.
Qed.

Lemma checkNbOfNodeModulesDeps_started limit w :
  ToBoolean limit = true ->
  checkNbOfNodeModulesDeps limit w
  = (Some true, with_out w (out w ++ [dynamic_import (cwd w) "./package.json"])).
Proof. intros H. unfold checkNbOfNodeModulesDeps. by rewrite H. Qed.

Lemma checkNbOfNodeModulesDeps_skipped limit w :
  ToBoolean limit = false -> checkNbOfNodeModulesDeps limit w = (Some false, w).
Proof. intros H. unfold checkNbOfNodeModulesDeps. by rewrite H. Qed.

(** C7: the count is the number of keys of the runtime mapping plus the
    number of keys of the development mapping; with 6 and 5 entries and
    a maximum of 10 the outcome is an error that reads "11/10". *)
Theorem dependency_count (w : world) (packageJson : manifest) :
  let runtime := nullish (dependencies packageJson) ∅ in
  let development := nullish (devDependencies packageJson) ∅ in
  nbOfNodeModulesDeps packageJson = (size runtime + size development)%nat /\
  (size runtime = 6%nat -> size development = 5%nat ->
   let message := ERROR_NODE_MODULE_NB_TXT (of_Z 11) (Num (of_Z 10)) in
   emitted (checkNbOfNodeModulesDeps_await (Num (of_Z 10)) packageJson) w
     = dynamic_import (cwd w) "./package.json"
       :: reported w Error c_error red message /\
   render message
     = Some (LF +:+ "Too many node modules installed, 11/10 did you add some ?" +:+ LF)).
Proof.
  intros runtime development.
  assert (nbOfNodeModulesDeps packageJson = (size runtime + size development)%nat) as Hnb
    by (unfold nbOfNodeModulesDeps; by rewrite !length_Object_keys).
  split; [done|]. intros H6 H5 message. split; [|reflexivity].
  unfold emitted, checkNbOfNodeModulesDeps_await, bind.
  rewrite checkNbOfNodeModulesDeps_started by reflexivity. simpl when.
  rewrite (checkNbOfNodeModulesDeps_then_exceeded _ _ _) by (by rewrite Hnb, H6, H5).
  rewrite Hnb, H6, H5. simpl out. rewrite <- app_assoc. apply drop_app_length.
Qed.

Lemma dependency_count_witness :
  let packageJson :=
    {| dependencies :=
         Some (list_to_map [("colors", "^1.4.0"); ("fast-folder-size", "^1.7.1");
                            ("lodash", "^4.17.21"); ("rxjs", "^7.8.0");
                            ("tslib", "^2.5.0"); ("vite", "^4.1.4")]);
       devDependencies :=
         Some (list_to_map [("@types/jest", "^29.4.0"); ("@types/lodash", "^4.14.191");
                            ("jest", "^29.5.0"); ("ts-jest", "^29.0.5");
                            ("typescript", "^4.9.5")]) |} in
  nbOfNodeModulesDeps packageJson = 11%nat /\
  published (emitted (checkNbOfNodeModulesDeps_await (Num (of_Z 10)) packageJson)
                     (boot 0 "/app" None)) = [Error].
Proof.
  intros packageJson.
  destruct (dependency_count (boot 0 "/app" None) packageJson) as (Hnb & H).
  split; [rewrite Hnb; by vm_compute|].
  destruct H as (-> & _); by vm_compute.
Defined.

(** C9: a limit of zero acts like no limit.  Whatever the measured value,
    [checkBundleSizes] and [checkNodeModulesSize] give an informational
    outcome, classified as without a limit; [checkNbOfNodeModulesDeps]
    returns at once, without import and without outcome. *)
Theorem zero_limit_is_no_limit (w : world) (measured : number) (packageJson : manifest) :
  let zero := Num (of_Z 0) in
  emitted (checkBundleSizes zero measured) w
    = reported w Info c_log green (INFO_BUNDLE_SIZE_TXT measured zero) /\
  emitted (checkNodeModulesSize zero measured) w
    = reported w Info c_log green (INFO_NODE_MODULE_SIZE_TXT measured zero) /\
  published (emitted (checkBundleSizes zero measured) w)
    = published (emitted (checkBundleSizes Undefined measured) w) /\
  published (emitted (checkNodeModulesSize zero measured) w)
    = published (emitted (checkNodeModulesSize Undefined measured) w) /\
  checkNbOfNodeModulesDeps zero w = (Some false, w) /\
  checkNbOfNodeModulesDeps_await zero packageJson w = (Some tt, w).
Proof.
  intros zero.
  assert (emitted (checkBundleSizes zero measured) w
          = reported w Info c_log green (INFO_BUNDLE_SIZE_TXT measured zero)) as Hb
    by (apply writes_emitted; by apply checkBundleSizes_within).
  assert (emitted (checkNodeModulesSize zero measured) w
          = reported w Info c_log green (INFO_NODE_MODULE_SIZE_TXT measured zero)) as Hn
    by (apply writes_emitted; by apply checkNodeModulesSize_within).
  repeat split; try done.
  - rewrite Hb, (writes_emitted _ _ _ (checkBundleSizes_within Undefined measured w eq_refl)).
    by rewrite !published_reported.
  - rewrite Hn, (writes_emitted _ _ _ (checkNodeModulesSize_within Undefined measured w eq_refl)).
    by rewrite !published_reported.
Qed.

Example zero_limit_exceeded_yet_informational :
  gt (Num (of_Z 5)) (Num (of_Z 0)) = true /\
  published (emitted (checkBundleSizes (Num (of_Z 0)) (of_Z 5)) (boot 0 "/app" None)) = [Info].
Proof. split; reflexivity. Qed.

(* ===================================================================== *)
(** ** The callback of the memory monitor *)
(* ===================================================================== *)

Lemma invoke_each_writes calls w : writes (invoke_each calls) w (warnings w calls).
Proof.
  revert w. induction calls as [|[m L] calls IH]; intros w.
  - apply writes_ret.
  - simpl invoke_each.
    apply (writes_bind _ _ _ (reported w Warning c_log bgYellow
                                (WARNING_MEMORY_CONSUMPTION_at (clock w) (m, L)))).
    + apply (writes_publish Warning bgYellow c_log).
    + apply IH.
Qed.

Lemma warningMemoryLimit_spec memUsage limit w :
  let r := Lodash.debounced WARNING_WAIT true (warn_closure w) (clock w) (memUsage, limit) in
  warningMemoryLimit memUsage limit w
  = (Some tt, with_out (with_warn w r.2) (out w ++ warnings w r.1)).
Proof.
  intros r. unfold warningMemoryLimit. fold r. destruct r as [calls s].
  apply (invoke_each_writes calls (with_warn w s)).
Qed.

Lemma warningMemoryLimit_timerExpired_spec w :
  let r := Lodash.timerExpired WARNING_WAIT true (warn_closure w) (clock w) in
  warningMemoryLimit_timerExpired w
  = (Some tt, with_out (with_warn w r.2) (out w ++ warnings w r.1)).
Proof.
  intros r. unfold warningMemoryLimit_timerExpired. fold r. destruct r as [calls s].
  apply (invoke_each_writes calls (with_warn w s)).
Qed.

Lemma exits_app l l' : exits (l ++ l') = exits l ++ exits l'.
Proof. induction l as [|[] l IH]; simpl; by rewrite ?IH. Qed.

Lemma published_app l l' : published (l ++ l') = published l ++ published l'.
Proof. induction l as [|[] l IH]; simpl; by rewrite ?IH. Qed.

Lemma warnings_cons w a calls :
  warnings w (a :: calls)
  = reported w Warning c_log bgYellow (WARNING_MEMORY_CONSUMPTION_at (clock w) a)
    ++ warnings w calls.
Proof. reflexivity. Qed.

Lemma exits_warnings w calls : exits (warnings w calls) = [].
Proof.
  induction calls as [|a calls IH]; [done|].
  by rewrite warnings_cons, exits_app, exits_reported, IH.
Qed.

Lemma interval_callback_fatal c w :
  let memUsage := toMB (rss w) in
  let limit := c_MEMORY_ERROR_MAX_SIZE c in
  gt (Num memUsage) limit = true ->
  interval_callback c w
  = (None,
     with_exit
       (with_out w (out w ++ reported w Error c_error red
                               (ERROR_MEMORY_CONSUMPTION_at (clock w) memUsage limit)
                          ++ [process_exit 1])) 1).
Proof.
  intros memUsage limit H.
  unfold interval_callback, bind, memoryUsage_rss. fold memUsage limit. rewrite H.
  unfold when, ERROR_MEMORY_CONSUMPTION_TXT, bind, new_Date, ret, subject_next_,
    errorLog, colorizedLog, emit, process_exit_, reported, logged. simpl.
  fold memUsage limit.
  destruct (env_truthy _); simpl; by rewrite <- ?app_assoc.
Qed.

Lemma interval_callback_running c w i :
  let memUsage := toMB (rss w) in
  gt (Num memUsage) (c_MEMORY_ERROR_MAX_SIZE c) = false ->
  heap w !! c_infos c = Some i ->
  interval_callback c w
  = (Some tt,
     let w1 := if gt (Num memUsage) (c_MEMORY_WARNING_MAX_SIZE c)
               then warned memUsage (c_MEMORY_WARNING_MAX_SIZE c) w else w in
     if gt (Num memUsage) (Num (tmpMaxMemoryConsumption i))
     then recorded (c_infos c) memUsage w1 else w1).
Proof.
  intros memUsage Hf Hi.
  unfold interval_callback, bind, memoryUsage_rss. fold memUsage. rewrite Hf.
  unfold when at 1. unfold ret at 1.
  destruct (gt (Num memUsage) (c_MEMORY_WARNING_MAX_SIZE c)); unfold when at 1.
  - rewrite warningMemoryLimit_spec. fold (warned memUsage (c_MEMORY_WARNING_MAX_SIZE c) w).
    unfold deref. simpl. rewrite Hi.
    destruct (gt _ (Num _)); [|done]. reflexivity.
  - unfold ret at 1, deref. rewrite Hi.
    destruct (gt _ (Num _)); [|done]. reflexivity.
Qed.

Ltac emitted_eq :=
  unfold emitted; simpl out; rewrite <- ?app_assoc; rewrite ?drop_app_length;
  try (rewrite <- (app_nil_r (out _)) at 2; rewrite drop_app_length).

Lemma emitted_interval_callback_fatal c w :
  let memUsage := toMB (rss w) in
  let limit := c_MEMORY_ERROR_MAX_SIZE c in
  gt (Num memUsage) limit = true ->
  emitted (interval_callback c) w
  = reported w Error c_error red (ERROR_MEMORY_CONSUMPTION_at (clock w) memUsage limit)
    ++ [process_exit 1].
Proof.
  intros memUsage limit H. unfold emitted.
  rewrite interval_callback_fatal by done. simpl. apply drop_app_length.
Qed.

Lemma out_warned memUsage limit w :
  out (warned memUsage limit w)
  = out w ++ warnings w (Lodash.debounced WARNING_WAIT true (warn_closure w) (clock w)
                                          (memUsage, limit)).1.
Proof. reflexivity. Qed.

Lemma emitted_interval_callback_running c w :
  let memUsage := toMB (rss w) in
  let limit := c_MEMORY_WARNING_MAX_SIZE c in
  gt (Num memUsage) (c_MEMORY_ERROR_MAX_SIZE c) = false ->
  emitted (interval_callback c) w
  = if gt (Num memUsage) limit
    then warnings w (Lodash.debounced WARNING_WAIT true (warn_closure w) (clock w)
                                      (memUsage, limit)).1
    else [].
Proof.
  intros memUsage limit Hf.
  destruct (heap w !! c_infos c) as [i|] eqn:Hi.
  - unfold emitted. rewrite (interval_callback_running c w i) by done.
    fold memUsage limit. cbv zeta.
    destruct (gt (Num memUsage) limit), (gt (Num memUsage) (Num _)); simpl;
      rewrite ?out_warned; rewrite ?drop_app_length; try done.
    all: rewrite <- (app_nil_r (out w)) at 2; apply drop_app_length.
  - unfold emitted, interval_callback, bind, memoryUsage_rss. fold memUsage limit.
    rewrite Hf. unfold when at 1. unfold ret at 1.
    destruct (gt (Num memUsage) limit); unfold when at 1.
    + rewrite warningMemoryLimit_spec. unfold deref. simpl. rewrite Hi. simpl.
      apply drop_app_length.
    + unfold ret at 1, deref. rewrite Hi. simpl.
      rewrite <- (app_nil_r (out w)) at 2; apply drop_app_length.
Qed.

Lemma world_eq (w1 w2 : world) :
  clock w1 = clock w2 -> rss w1 = rss w2 -> cwd w1 = cwd w2 ->
  MONITORING_LOG_ENABLED w1 = MONITORING_LOG_ENABLED w2 ->
  heap w1 = heap w2 -> fresh_ref w1 = fresh_ref w2 ->
  intervals w1 = intervals w2 -> fresh_handle w1 = fresh_handle w2 ->
  warn_closure w1 = warn_closure w2 -> exit_code w1 = exit_code w2 ->
  out w1 = out w2 -> w1 = w2.
Proof. destruct w1, w2; simpl; intros; by subst. Qed.

Lemma checkMemoryUsage_spec warning fatal delay w :
  let r := fresh_ref w in
  let h := fresh_handle w in
  checkMemoryUsage warning fatal delay w
  = (Some r,
     with_out
       (with_intervals
          (with_heap w (<[r := {| interval := Some h;
                                  tmpMaxMemoryConsumption := of_Z 0;
                                  dateMaxMemoryConsumption := clock w |}]> (heap w))
                     (S r))
          (<[h := {| c_MEMORY_WARNING_MAX_SIZE := warning;
                     c_MEMORY_ERROR_MAX_SIZE := fatal;
                     c_infos := r |}]> (intervals w))
          (S h))
       (out w ++ [set_interval h delay])).
Proof.
  intros r h.
  unfold checkMemoryUsage, bind, new_Date, new_object, setInterval, assign, ret.
  simpl. f_equal. apply world_eq; try reflexivity.
  simpl. fold r h. by rewrite alter_insert_eq.
Qed.

Lemma monitoring_spec options w :
  let r := fresh_ref w in
  let h := fresh_handle w in
  let c := monitor_of options r in
  let w0 := logging options w in
  monitoring options w
  = (Some (plugin_of options r),
     with_out
       (with_intervals
          (with_heap w0 (<[r := {| interval := Some h;
                                   tmpMaxMemoryConsumption := of_Z 0;
                                   dateMaxMemoryConsumption := clock w |}]> (heap w))
                     (S r))
          (<[h := c]> (intervals w)) (S h))
       (out w
        ++ (if gt (c_MEMORY_WARNING_MAX_SIZE c) (c_MEMORY_ERROR_MAX_SIZE c)
            then reported w0 Error c_error red WARNING_ABOVE_ERROR_TXT else [])
        ++ [set_interval h (default_number (INTERVAL_CHECK_MEMORY options) 350)]
        ++ (if ToBoolean (NB_NODE_MODULES_MAX options)
            then [dynamic_import (cwd w) "./package.json"] else []))).
Proof.
  intros r h c w0.
  unfold monitoring.
  set (m := when (gt _ _) _).
  assert (forall w1, m w1
          = (Some tt, with_out w1 (out w1 ++
               if gt (c_MEMORY_WARNING_MAX_SIZE c) (c_MEMORY_ERROR_MAX_SIZE c)
               then reported w1 Error c_error red WARNING_ABOVE_ERROR_TXT else [])))
    as Hm.
  { intros w1. unfold m, when. simpl.
    destruct (gt _ _).
    - apply (writes_publish Error red c_error).
    - apply writes_ret. }
  unfold bind at 1.
  assert (when (nullish (LOG options) true) (set_env "true") w = (Some tt, w0)) as ->.
  { unfold when, w0, logging. by destruct (nullish _ _). }
  unfold bind at 1. rewrite Hm.
  unfold bind at 1. rewrite checkMemoryUsage_spec.
  unfold bind, checkNbOfNodeModulesDeps, ret, process_cwd, emit.
  assert (clock w0 = clock w /\ heap w0 = heap w /\ fresh_ref w0 = r /\
          intervals w0 = intervals w /\ fresh_handle w0 = h /\ out w0 = out w /\
          cwd w0 = cwd w) as (Hc & Hh & Hr & Hi & Hfh & Ho & Hcw)
    by (unfold w0, logging; by destruct (nullish _ _)).
  destruct (ToBoolean (NB_NODE_MODULES_MAX options)); simpl;
    f_equal; try (by rewrite Hr);
    apply world_eq; simpl; rewrite ?Hc, ?Hh, ?Hr, ?Hi, ?Hfh, ?Ho, ?Hcw;
    try reflexivity; rewrite <- ?app_assoc; try reflexivity.

Qed.

(* ===================================================================== *)
(** ** Starting the monitor *)
(* ===================================================================== *)

Lemma emitted_checkNbOfNodeModulesDeps limit w :
  emitted (checkNbOfNodeModulesDeps limit) w
  = if ToBoolean limit then [dynamic_import (cwd w) "./package.json"] else [].
Proof.
  unfold emitted, checkNbOfNodeModulesDeps, bind, process_cwd, emit, ret.
  destruct (ToBoolean limit); simpl.
  - apply drop_app_length.
  - rewrite <- (app_nil_r (out w)) at 2. apply drop_app_length.
Qed.

Lemma emitted_monitoring options w :
  let c := monitor_of options (fresh_ref w) in
  emitted (monitoring options) w
  = (if gt (c_MEMORY_WARNING_MAX_SIZE c) (c_MEMORY_ERROR_MAX_SIZE c)
     then reported (logging options w) Error c_error red WARNING_ABOVE_ERROR_TXT else [])
    ++ [set_interval (fresh_handle w) (default_number (INTERVAL_CHECK_MEMORY options) 350)]
    ++ emitted (checkNbOfNodeModulesDeps (NB_NODE_MODULES_MAX options)) w.
Proof.
  intros c. unfold emitted at 1. rewrite monitoring_spec. simpl out.
  rewrite emitted_checkNbOfNodeModulesDeps. apply drop_app_length.
Qed.

(** C6: a warning threshold above the fatal threshold is reported as an
    error, and [monitoring] goes on all the same: it returns its plugin,
    the memory monitor is started with the thresholds as configured, the
    dependency-count check is run, and the process is not made to exit. *)
Theorem misconfiguration_is_not_fatal (options : MonitoringOptions) (w : world) :
  let c := monitor_of options (fresh_ref w) in
  gt (c_MEMORY_WARNING_MAX_SIZE c) (c_MEMORY_ERROR_MAX_SIZE c) = true ->
  let w' := (monitoring options w).2 in
  (monitoring options w).1 = Some (plugin_of options (fresh_ref w)) /\
  emitted (monitoring options) w
  = reported (logging options w) Error c_error red WARNING_ABOVE_ERROR_TXT
    ++ [set_interval (fresh_handle w) (default_number (INTERVAL_CHECK_MEMORY options) 350)]
    ++ emitted (checkNbOfNodeModulesDeps (NB_NODE_MODULES_MAX options)) w /\
  intervals w' !! fresh_handle w = Some c /\
  running_max (fresh_ref w) w' = Some (of_Z 0, clock w) /\
  exits (emitted (monitoring options) w) = [] /\
  exit_code w' = exit_code w.
Proof.
  intros c Hgt w'. unfold w'. rewrite emitted_monitoring. fold c. rewrite Hgt.
  rewrite monitoring_spec. split; [done|]. split; [done|]. split; [|split; [|split]].
  - apply lookup_insert_eq.
  - unfold running_max. simpl. by rewrite lookup_insert_eq.
  - rewrite !exits_app, exits_reported, emitted_checkNbOfNodeModulesDeps.
    by destruct (ToBoolean _).
  - simpl. unfold logging. by destruct (nullish _ _).
Qed.

Lemma misconfiguration_is_not_fatal_witness :
  let options := {| MEMORY_WARNING_MAX_SIZE := Num (of_Z 5000);
                    MEMORY_ERROR_MAX_SIZE := Undefined;
                    BUNDLE_ROOT_FOLDER_PATH := None;
                    BUNDLE_MAX_SIZE := Undefined;
                    NODE_MODULES_MAX_SIZE := Undefined;
                    NB_NODE_MODULES_MAX := Num (of_Z 10);
                    INTERVAL_CHECK_MEMORY := Undefined;
                    LOG := None |} in
  let w := boot 0 "/app" None in
  published (emitted (monitoring options) w) = [Error] /\
  exit_code (monitoring options w).2 = None /\
  intervals (monitoring options w).2 !! O = Some (monitor_of options O).
Proof.
  intros options w.
  destruct (misconfiguration_is_not_fatal options w eq_refl) as (_ & -> & H & _ & _ & ->).
  repeat split.
Defined.

(* ===================================================================== *)
(** ** Ticks of the monitor *)
(* ===================================================================== *)

Lemma running_max_recorded r memUsage w i :
  heap w !! r = Some i ->
  running_max r (recorded r memUsage w) = Some (memUsage, clock w).
Proof.
  intros Hi. unfold running_max, recorded. simpl.
  by rewrite !lookup_alter_eq, Hi.
Qed.

Lemma running_max_recorded_ne r r' memUsage w :
  r <> r' -> running_max r' (recorded r memUsage w) = running_max r' w.
Proof.
  intros Hne. unfold running_max, recorded. simpl.
  by rewrite !lookup_alter_ne.
Qed.

(** A tick that does not take the fatal path. *)
Lemma interval_fires_running h c t r w i :
  exit_code w = None ->
  intervals w !! h = Some c ->
  heap w !! c_infos c = Some i ->
  let memUsage := toMB r in
  gt (Num memUsage) (c_MEMORY_ERROR_MAX_SIZE c) = false ->
  interval_fires h t r w
  = Some (let w0 := with_inputs w t r in
          let w1 := if gt (Num memUsage) (c_MEMORY_WARNING_MAX_SIZE c)
                    then warned memUsage (c_MEMORY_WARNING_MAX_SIZE c) w0 else w0 in
          if gt (Num memUsage) (Num (tmpMaxMemoryConsumption i))
          then recorded (c_infos c) memUsage w1 else w1).
Proof.
  intros Ha Hh Hi memUsage Hf. unfold interval_fires, alive.
  rewrite Ha, Hh. simpl. f_equal.
  by rewrite (interval_callback_running c (with_inputs w t r) i).
Qed.

(** A tick that takes the fatal path. *)
Lemma interval_fires_fatal h c t r w :
  exit_code w = None ->
  intervals w !! h = Some c ->
  let memUsage := toMB r in
  let limit := c_MEMORY_ERROR_MAX_SIZE c in
  gt (Num memUsage) limit = true ->
  interval_fires h t r w
  = Some (with_exit
            (with_out (with_inputs w t r)
               (out w ++ reported w Error c_error red
                           (ERROR_MEMORY_CONSUMPTION_at t memUsage limit)
                      ++ [process_exit 1])) 1).
Proof.
  intros Ha Hh memUsage limit Hf. unfold interval_fires, alive.
  rewrite Ha, Hh. simpl. f_equal.
  by rewrite (interval_callback_fatal c (with_inputs w t r)).
Qed.

Lemma interval_fires_Some h t r w w' :
  interval_fires h t r w = Some w' ->
  exit_code w = None /\ exists c, intervals w !! h = Some c.
Proof.
  unfold interval_fires, alive. case_bool_decide; [|done].
  destruct (intervals w !! h) as [c|]; [|done]. eauto.
Qed.

(* ===================================================================== *)
(** ** Completion of the build *)
(* ===================================================================== *)

Lemma finalCallback_spec p w i :
  heap w !! p_infos p = Some i ->
  finalCallback p w
  = (Some tt,
     with_out
       (with_intervals w
          (match interval i with
           | Some h => delete h (intervals w)
           | None => intervals w
           end) (fresh_handle w))
       (out w
        ++ [clear_interval (interval i)]
        ++ reported w Info c_log green
             (MEMORY_CONSUMPTION_TXT (tmpMaxMemoryConsumption i)
                                     (dateMaxMemoryConsumption i))
        ++ [fastFolderSize (p_BUNDLE_ROOT_FOLDER_PATH p);
            fastFolderSize "./node_modules"])).
Proof.
  intros Hi.
  unfold finalCallback, bind, deref, clearInterval, subject_next_, infoLog,
    colorizedLog, emit, reported, logged.
  rewrite Hi. simpl. rewrite Hi. simpl.
  destruct (env_truthy _); simpl; f_equal; apply world_eq; simpl; try done;
    by rewrite <- !app_assoc.
Qed.

Lemma finalCallback_dangling p w :
  heap w !! p_infos p = None -> finalCallback p w = (None, w).
Proof. intros Hi. unfold finalCallback, bind, deref. by rewrite Hi. Qed.

Lemma emitted_nothing {A : Type} (m : M A) w : (m w).2 = w -> emitted m w = [].
Proof.
  unfold emitted. intros ->. rewrite <- (app_nil_r (out w)) at 2. apply drop_app_length.
Qed.

Lemma emitted_finalCallback p w i :
  heap w !! p_infos p = Some i ->
  emitted (finalCallback p) w
  = clear_interval (interval i)
    :: reported w Info c_log green
         (MEMORY_CONSUMPTION_TXT (tmpMaxMemoryConsumption i) (dateMaxMemoryConsumption i))
    ++ [fastFolderSize (p_BUNDLE_ROOT_FOLDER_PATH p); fastFolderSize "./node_modules"].
Proof.
  intros Hi. unfold emitted. rewrite (finalCallback_spec p w i Hi). simpl out.
  apply drop_app_length.
Qed.

Lemma exits_finalCallback p w : exits (emitted (finalCallback p) w) = [].
Proof.
  destruct (heap w !! p_infos p) as [i|] eqn:Hi.
  - rewrite (emitted_finalCallback p w i Hi).
    change (clear_interval ?x :: ?l) with ([clear_interval x] ++ l).
    by rewrite !exits_app, exits_reported.
  - rewrite emitted_nothing; [done|]. by rewrite finalCallback_dangling.
Qed.

Lemma writes_finalCallback_then p bundle node_modules w :
  exists k k' t t',
    writes (finalCallback_then p bundle node_modules) w
           (reported w k c_error red t ++ reported w k' c_error red t') \/
    writes (finalCallback_then p bundle node_modules) w
           (reported w k c_error red t ++ reported w k' c_log green t') \/
    writes (finalCallback_then p bundle node_modules) w
           (reported w k c_log green t ++ reported w k' c_error red t') \/
    writes (finalCallback_then p bundle node_modules) w
           (reported w k c_log green t ++ reported w k' c_log green t').
Proof.
  unfold finalCallback_then.
  destruct (ToBoolean (p_NODE_MODULES_MAX_SIZE p)
            && gt (Num (toMB node_modules)) (p_NODE_MODULES_MAX_SIZE p)) eqn:En,
           (ToBoolean (p_BUNDLE_MAX_SIZE p)
            && gt (Num (toMB bundle)) (p_BUNDLE_MAX_SIZE p)) eqn:Eb.
  all: apply andb_true_iff in En || idtac; apply andb_true_iff in Eb || idtac.
  all: do 4 eexists.
  - left. eapply writes_bind.
    + apply checkNodeModulesSize_exceeded; apply En.
    + apply (checkBundleSizes_exceeded _ _ (with_out w _)); apply Eb.
  - right; left. eapply writes_bind.
    + apply checkNodeModulesSize_exceeded; apply En.
    + by apply (checkBundleSizes_within _ _ (with_out w _)).
  - right; right; left. eapply writes_bind.
    + by apply checkNodeModulesSize_within.
    + apply (checkBundleSizes_exceeded _ _ (with_out w _)); apply Eb.
  - right; right; right. eapply writes_bind.
    + by apply checkNodeModulesSize_within.
    + by apply (checkBundleSizes_within _ _ (with_out w _)).
Qed.

Lemma exits_finalCallback_then p bundle node_modules w :
  exits (emitted (finalCallback_then p bundle node_modules) w) = [].
Proof.
  destruct (writes_finalCallback_then p bundle node_modules w)
    as (k & k' & t & t' & [H|[H|[H|H]]]);
    rewrite (writes_emitted _ _ _ H), exits_app, !exits_reported; done.
Qed.

Lemma exits_checkNbOfNodeModulesDeps_await limit packageJson w :
  exits (emitted (checkNbOfNodeModulesDeps_await limit packageJson) w) = [].
Proof.
  unfold emitted, checkNbOfNodeModulesDeps_await, bind.
  destruct (ToBoolean limit) eqn:Et.
  - rewrite checkNbOfNodeModulesDeps_started by done. simpl when.
    destruct (gt (Num (of_nat (nbOfNodeModulesDeps packageJson))) limit) eqn:Eg.
    + rewrite (checkNbOfNodeModulesDeps_then_exceeded _ _ _ Eg). simpl out.
      rewrite <- app_assoc, drop_app_length, exits_app. apply exits_reported.
    + rewrite (checkNbOfNodeModulesDeps_then_within _ _ _ Eg). simpl out.
      rewrite <- app_assoc, drop_app_length, exits_app. apply exits_reported.
  - rewrite checkNbOfNodeModulesDeps_skipped by done. simpl.
    rewrite <- (app_nil_r (out w)) at 2. by rewrite drop_app_length.
Qed.

Lemma exits_monitoring options w : exits (emitted (monitoring options) w) = [].
Proof.
  rewrite emitted_monitoring, !exits_app, emitted_checkNbOfNodeModulesDeps.
  destruct (gt _ _), (ToBoolean _); by rewrite ?exits_reported.
Qed.

Lemma exits_warningMemoryLimit_timerExpired w :
  exits (emitted warningMemoryLimit_timerExpired w) = [].
Proof.
  unfold emitted. rewrite warningMemoryLimit_timerExpired_spec. simpl out.
  rewrite drop_app_length. apply exits_warnings.
Qed.

(* ===================================================================== *)
(** ** The fatal path *)
(* ===================================================================== *)

Lemma since_interval_fires h c t r w w' :
  intervals w !! h = Some c ->
  interval_fires h t r w = Some w' ->
  since w w' = emitted (interval_callback c) (with_inputs w t r).
Proof.
  unfold interval_fires. intros Hh. destruct (alive w); [|done]. rewrite Hh.
  by intros [= <-].
Qed.

(** C3: a tick whose sample exceeds the fatal threshold publishes an
    error that holds the sample and the limit, then calls
    [process.exit(1)], and makes no other call of [process.exit]; a tick
    whose sample does not exceed the fatal threshold calls [process.exit]
    not at all; nor does anything else in the plugin. *)
Theorem fatal_path (h : handle) (c : closure) (t : time) (r : number) (w w' : world) :
  intervals w !! h = Some c ->
  interval_fires h t r w = Some w' ->
  let memUsage := toMB r in
  let limit := c_MEMORY_ERROR_MAX_SIZE c in
  let message := ERROR_MEMORY_CONSUMPTION_at t memUsage limit in
  (gt (Num memUsage) limit = true ->
     since w w' = reported w Error c_error red message ++ [process_exit 1] /\
     In (Interp (Num memUsage)) message /\ In (Interp limit) message /\
     exits (since w w') = [1] /\ ~ In 0 (exits (since w w')) /\
     exit_code w' = Some 1) /\
  (gt (Num memUsage) limit = false ->
     exits (since w w') = [] /\ exit_code w' = None) /\
  (forall options w0, exits (emitted (monitoring options) w0) = []) /\
  (forall max packageJson w0,
     exits (emitted (checkNbOfNodeModulesDeps_await max packageJson) w0) = []) /\
  (forall w0, exits (emitted warningMemoryLimit_timerExpired w0) = []) /\
  (forall p w0, exits (emitted (finalCallback p) w0) = []) /\
  (forall p bundle node_modules w0,
     exits (emitted (finalCallback_then p bundle node_modules) w0) = []).
Proof.
  intros Hh Hf memUsage limit message.
  destruct (interval_fires_Some _ _ _ _ _ Hf) as (Ha & _).
  split; [|split; [|repeat split]].
  - intros Hg.
    assert (since w w' = reported w Error c_error red message ++ [process_exit 1])
      as -> by (rewrite (since_interval_fires h c t r w w' Hh Hf);
                by rewrite emitted_interval_callback_fatal).
    rewrite (interval_fires_fatal h c t r w Ha Hh Hg) in Hf. injection Hf as <-.
    rewrite exits_app, exits_reported. simpl. intuition lia.
  - intros Hg. rewrite (since_interval_fires h c t r w w' Hh Hf).
    rewrite emitted_interval_callback_running by done.
    split.
    + destruct (gt _ (c_MEMORY_WARNING_MAX_SIZE c)); [apply exits_warnings | done].
    + revert Hf. unfold interval_fires, alive. rewrite Ha, Hh. simpl. intros [= <-].
      unfold interval_callback, bind, memoryUsage_rss. simpl rss.
      fold memUsage limit. rewrite Hg. unfold when at 1. unfold ret at 1.
      destruct (gt (Num memUsage) (c_MEMORY_WARNING_MAX_SIZE c)); unfold when at 1.
      * rewrite warningMemoryLimit_spec. unfold deref. simpl.
        destruct (heap w !! c_infos c) as [i|]; [|done].
        unfold when. by destruct (gt _ (Num (tmpMaxMemoryConsumption i))).
      * unfold ret at 1, deref. simpl.
        destruct (heap w !! c_infos c) as [i|]; [|done].
        unfold when. by destruct (gt _ (Num (tmpMaxMemoryConsumption i))).
  - apply exits_monitoring.
  - apply exits_checkNbOfNodeModulesDeps_await.
  - apply exits_warningMemoryLimit_timerExpired.
  - apply exits_finalCallback.
  - apply exits_finalCallback_then.
Qed.

(* ===================================================================== *)
(** ** The running maximum *)
(* ===================================================================== *)

Lemma ratchet_refl x : ratchet x x.
Proof. by left. Qed.

Lemma ratchet_trans x y z : ratchet x y -> ratchet y z -> ratchet x z.
Proof.
  intros [->|Hxy] [->|Hyz]; [by left | by right | by right |].
  right. by apply (lt_trans _ y.1).
Qed.

Lemma ratchet_not_lt old new : ratchet old new -> lt new.1 old.1 = false.
Proof. intros [->|H]; [apply lt_irrefl | by apply lt_asym]. Qed.

(** The statements that leave the heap alone. *)
Lemma heap_warned memUsage limit w : heap (warned memUsage limit w) = heap w.
Proof. reflexivity. Qed.

Lemma running_max_warned r memUsage limit w :
  running_max r (warned memUsage limit w) = running_max r w.
Proof. reflexivity. Qed.

Lemma running_max_with_inputs r w t x :
  running_max r (with_inputs w t x) = running_max r w.
Proof. reflexivity. Qed.

(** Whatever the callback of a monitor does, it moves no maximum down. *)
Lemma running_max_interval_callback c w r old :
  running_max r w = Some old ->
  exists new, running_max r (interval_callback c w).2 = Some new /\ ratchet old new.
Proof.
  intros Hold.
  set (memUsage := toMB (rss w)).
  destruct (gt (Num memUsage) (c_MEMORY_ERROR_MAX_SIZE c)) eqn:Hf.
  - rewrite interval_callback_fatal by done. exists old. split; [done | apply ratchet_refl].
  - destruct (heap w !! c_infos c) as [i|] eqn:Hi.
    + rewrite (interval_callback_running c w i) by done. fold memUsage. cbv zeta.
      set (w1 := if gt (Num memUsage) (c_MEMORY_WARNING_MAX_SIZE c) then _ else w).
      assert (heap w1 = heap w) as Hw1
        by (unfold w1; by destruct (gt _ (c_MEMORY_WARNING_MAX_SIZE c))).
      assert (running_max r w1 = Some old) as Hold1
        by (unfold running_max in *; by rewrite Hw1).
      destruct (gt (Num memUsage) (Num (tmpMaxMemoryConsumption i))) eqn:Hg; simpl.
      * destruct (decide (c_infos c = r)) as [<-|Hne].
        -- rewrite (running_max_recorded _ _ _ i) by (by rewrite Hw1).
           eexists; split; [done|]. right. simpl.
           unfold running_max in Hold. rewrite Hi in Hold. by injection Hold as <-.
        -- rewrite running_max_recorded_ne by done.
           exists old. split; [done | apply ratchet_refl].
      * exists old. split; [done | apply ratchet_refl].
    + exists old. split; [| apply ratchet_refl].
      unfold interval_callback, bind, memoryUsage_rss. fold memUsage.
      rewrite Hf. unfold when at 1. unfold ret at 1.
      destruct (gt (Num memUsage) (c_MEMORY_WARNING_MAX_SIZE c)); unfold when at 1.
      * rewrite warningMemoryLimit_spec. unfold deref. simpl. by rewrite Hi.
      * unfold ret at 1, deref. by rewrite Hi.
Qed.

Lemma running_max_heap r w w' : heap w' = heap w -> running_max r w' = running_max r w.
Proof. unfold running_max. by intros ->. Qed.

Lemma writes_frame m w evs :
  writes m w evs ->
  heap (m w).2 = heap w /\
  forall h c, intervals (m w).2 !! h = Some c -> intervals w !! h = Some c.
Proof. unfold writes. by intros ->. Qed.

(** What one step of the event loop is: the callback of a live timer,
    the expiry of the pending timeout, or a callback that leaves the
    [infos] objects alone and starts no timer. *)
Lemma step_callback k w w' :
  step k w = Some w' ->
  match k with
  | Tick h t r =>
      exists c, intervals w !! h = Some c /\
                w' = (interval_callback c (with_inputs w t r)).2
  | Timeout =>
      exists due, Lodash.timerId (warn_closure w) = Some due /\
                  w' = (warningMemoryLimit_timerExpired (with_inputs w due (rss w))).2
  | _ =>
      heap w' = heap w /\
      forall h c, intervals w' !! h = Some c -> intervals w !! h = Some c
  end.
Proof.
  destruct k as [h t x| |limit pkg|p|p b n]; cbn [step];
    unfold interval_fires, timeout_fires, resumes; destruct (alive w); try done.
  - destruct (intervals w !! h) as [c|]; [|done]. intros [= <-]. by exists c.
  - destruct (Lodash.timerId _) as [due|]; [|done]. intros [= <-]. by exists due.
  - intros [= <-].
    destruct (gt (Num (of_nat (nbOfNodeModulesDeps pkg))) limit) eqn:Eg.
    + apply (writes_frame _ _ _ (checkNbOfNodeModulesDeps_then_exceeded _ _ w Eg)).
    + apply (writes_frame _ _ _ (checkNbOfNodeModulesDeps_then_within _ _ w Eg)).
  - intros [= <-]. destruct (heap w !! p_infos p) as [i|] eqn:Hi.
    + rewrite (finalCallback_spec p w i Hi). simpl. split; [done|].
      destruct (interval i) as [h0|]; [|done]. intros h c Hc.
      destruct (decide (h = h0)) as [->|Hne].
      * by rewrite lookup_delete_eq in Hc.
      * by rewrite lookup_delete_ne in Hc.
    + by rewrite finalCallback_dangling.
  - intros [= <-].
    destruct (writes_finalCallback_then p b n w)
      as (k & k' & t & t' & [H|[H|[H|H]]]); apply (writes_frame _ _ _ H).
Qed.

Lemma running_max_step k w w' r old :
  step k w = Some w' ->
  running_max r w = Some old ->
  exists new, running_max r w' = Some new /\ ratchet old new.
Proof.
  intros Hk Hold. apply step_callback in Hk.
  destruct k as [h t x| |limit pkg|p|p b n].
  - destruct Hk as (c & _ & ->). by apply running_max_interval_callback.
  - destruct Hk as (due & _ & ->).
    rewrite warningMemoryLimit_timerExpired_spec. exists old.
    split; [done | apply ratchet_refl].
  - exists old. split; [by rewrite (running_max_heap _ _ _ (proj1 Hk)) | apply ratchet_refl].
  - exists old. split; [by rewrite (running_max_heap _ _ _ (proj1 Hk)) | apply ratchet_refl].
  - exists old. split; [by rewrite (running_max_heap _ _ _ (proj1 Hk)) | apply ratchet_refl].
Qed.

Lemma running_max_run ks w w' r old :
  run ks w = Some w' ->
  running_max r w = Some old ->
  exists new, running_max r w' = Some new /\ ratchet old new.
Proof.
  revert w old. induction ks as [|k ks IH]; intros w old; simpl.
  - intros [= <-] Hold. exists old. split; [done | apply ratchet_refl].
  - destruct (step k w) as [w1|] eqn:Hk; [|done]. intros Hrun Hold.
    destruct (running_max_step _ _ _ _ _ Hk Hold) as (mid & Hmid & H1).
    destruct (IH _ _ Hrun Hmid) as (new & Hnew & H2).
    exists new. split; [done|]. by apply (ratchet_trans _ mid).
Qed.

(** A tick that does not take the fatal path stores the sample if and
    only if it exceeds the stored maximum. *)
Lemma running_max_tick h c t r w w' old :
  intervals w !! h = Some c ->
  running_max (c_infos c) w = Some old ->
  interval_fires h t r w = Some w' ->
  gt (Num (toMB r)) (c_MEMORY_ERROR_MAX_SIZE c) = false ->
  running_max (c_infos c) w'
  = Some (if gt (Num (toMB r)) (Num old.1) then (toMB r, t) else old) /\
  exit_code w' = None /\ intervals w' = intervals w.
Proof.
  intros Hh Hold Hf Hg.
  destruct (interval_fires_Some _ _ _ _ _ Hf) as (Ha & _).
  assert (exists i, heap w !! c_infos c = Some i /\
                    old = (tmpMaxMemoryConsumption i, dateMaxMemoryConsumption i))
    as (i & Hi & ->).
  { unfold running_max in Hold. destruct (heap w !! c_infos c) as [i|]; [|done].
    exists i. split; [done|]. by injection Hold as <-. }
  rewrite (interval_fires_running h c t r w i Ha Hh Hi Hg) in Hf.
  injection Hf as <-. cbv zeta. simpl fst.
  set (w1 := if gt _ (c_MEMORY_WARNING_MAX_SIZE c) then _ else _).
  assert (heap w1 = heap w /\ exit_code w1 = None /\ intervals w1 = intervals w
          /\ clock w1 = t) as (Hh1 & He1 & Hi1 & Hc1)
    by (unfold w1; by destruct (gt _ (c_MEMORY_WARNING_MAX_SIZE c))).
  destruct (gt (Num (toMB r)) (Num (tmpMaxMemoryConsumption i))).
  - rewrite (running_max_recorded _ _ _ i) by (by rewrite Hh1). by rewrite Hc1.
  - unfold running_max. by rewrite Hh1, Hi.
Qed.

Lemma interval_fires_running_Some h c t r w old :
  exit_code w = None ->
  intervals w !! h = Some c ->
  running_max (c_infos c) w = Some old ->
  gt (Num (toMB r)) (c_MEMORY_ERROR_MAX_SIZE c) = false ->
  exists w', interval_fires h t r w = Some w'.
Proof.
  intros Ha Hh Hold Hg. unfold running_max in Hold.
  destruct (heap w !! c_infos c) as [i|] eqn:Hi; [|done].
  rewrite (interval_fires_running h c t r w i Ha Hh Hi Hg). eauto.
Qed.

(** One tick of a session whose samples stay below the fatal threshold. *)
Lemma run_tick h c t n w old :
  exit_code w = None ->
  intervals w !! h = Some c ->
  running_max (c_infos c) w = Some old ->
  gt (Num (toMB (megabytes n))) (c_MEMORY_ERROR_MAX_SIZE c) = false ->
  exists w',
    interval_fires h t (megabytes n) w = Some w' /\
    exit_code w' = None /\ intervals w' !! h = Some c /\
    running_max (c_infos c) w'
    = Some (if gt (Num (toMB (megabytes n))) (Num old.1)
            then (toMB (megabytes n), t) else old).
Proof.
  intros Ha Hh Hold Hg.
  destruct (interval_fires_running_Some h c t _ w old Ha Hh Hold Hg) as (w' & Hw').
  destruct (running_max_tick h c t _ w w' old Hh Hold Hw' Hg) as (Hm & Ha' & Hi').
  exists w'. by rewrite Hi'.
Qed.

(** C2, as amended: the running maximum is a ratchet.  A tick whose
    sample does not exceed the fatal threshold stores its sample, with
    the instant of the tick, if and only if the sample exceeds the
    stored maximum, and leaves the process running; whatever runs, no
    stored maximum ever decreases; and after ticks with the samples 50,
    200, 80, 300, 100, under a fatal threshold that 300 does not exceed,
    the maximum is 300, dated by the fourth tick. *)
Theorem running_max_is_a_ratchet (h : handle) (c : closure) (w : world) :
  intervals w !! h = Some c ->
  (forall t r w' old,
     running_max (c_infos c) w = Some old ->
     interval_fires h t r w = Some w' ->
     gt (Num (toMB r)) (c_MEMORY_ERROR_MAX_SIZE c) = false ->
     running_max (c_infos c) w'
     = Some (if gt (Num (toMB r)) (Num old.1) then (toMB r, t) else old) /\
     exit_code w' = None) /\
  (forall ks w' old,
     running_max (c_infos c) w = Some old ->
     run ks w = Some w' ->
     exists new, running_max (c_infos c) w' = Some new /\
                 ratchet old new /\ lt new.1 old.1 = false) /\
  (forall d t1 t2 t3 t4 t5,
     exit_code w = None ->
     running_max (c_infos c) w = Some (of_Z 0, d) ->
     gt (Num (of_Z 300)) (c_MEMORY_ERROR_MAX_SIZE c) = false ->
     exists w',
       run (ticks_of h [(t1, 50); (t2, 200); (t3, 80); (t4, 300); (t5, 100)]) w
       = Some w' /\
       running_max (c_infos c) w' = Some (of_Z 300, t4)).
Proof.
  intros Hh. split; [|split].
  - intros t r w' old Hold Hf Hg.
    by destruct (running_max_tick h c t r w w' old Hh Hold Hf Hg) as (-> & -> & _).
  - intros ks w' old Hold Hrun.
    destruct (running_max_run ks w w' _ old Hrun Hold) as (new & Hnew & Hr).
    exists new. split; [done|]. split; [done|]. by apply ratchet_not_lt.
  - intros d t1 t2 t3 t4 t5 Ha Hold H300.
    assert (forall n, In n [50; 200; 80; 300; 100] ->
                      gt (Num (toMB (megabytes n))) (c_MEMORY_ERROR_MAX_SIZE c) = false)
      as Hbelow.
    { intros n Hn. destruct (gt (Num (toMB (megabytes n))) _) eqn:Hg; [|done].
      rewrite <- H300. unfold gt in *. cbn [ToNumber] in *.
      simpl in Hn. destruct Hn as [<-|[<-|[<-|[<-|[<-|[]]]]]].
      4: symmetry; exact Hg.
      all: symmetry; eapply lt_trans; [exact Hg | reflexivity]. }
    unfold ticks_of. cbn [fmap list_fmap run step fst snd].
    destruct (run_tick h c t1 50 w _ Ha Hh Hold) as (w1 & Hr1 & Ha1 & Hh1 & Hm1);
      [apply Hbelow; simpl; tauto | rewrite Hr1; clear Hr1].
    change (gt _ _) with true in Hm1.
    destruct (run_tick h c t2 200 w1 _ Ha1 Hh1 Hm1) as (w2 & Hr2 & Ha2 & Hh2 & Hm2);
      [apply Hbelow; simpl; tauto | rewrite Hr2; clear Hr2].
    change (gt _ _) with true in Hm2.
    destruct (run_tick h c t3 80 w2 _ Ha2 Hh2 Hm2) as (w3 & Hr3 & Ha3 & Hh3 & Hm3);
      [apply Hbelow; simpl; tauto | rewrite Hr3; clear Hr3].
    change (gt _ _) with false in Hm3.
    destruct (run_tick h c t4 300 w3 _ Ha3 Hh3 Hm3) as (w4 & Hr4 & Ha4 & Hh4 & Hm4);
      [apply Hbelow; simpl; tauto | rewrite Hr4; clear Hr4].
    change (gt _ _) with true in Hm4.
    destruct (run_tick h c t5 100 w4 _ Ha4 Hh4 Hm4) as (w5 & Hr5 & Ha5 & Hh5 & Hm5);
      [apply Hbelow; simpl; tauto | rewrite Hr5; clear Hr5].
    change (gt _ _) with false in Hm5.
    exists w5. split; [done|]. exact Hm5.
Qed.

(** C10: on a tick whose sample exceeds the fatal threshold the callback
    ends in [process.exit] before it reaches the update of the maximum:
    every stored maximum and its date are as before the tick, and
    nothing runs afterwards. *)
Theorem fatal_tick_leaves_maximum
    (h : handle) (c : closure) (t : time) (r : number) (w w' : world) :
  intervals w !! h = Some c ->
  gt (Num (toMB r)) (c_MEMORY_ERROR_MAX_SIZE c) = true ->
  interval_fires h t r w = Some w' ->
  (interval_callback c (with_inputs w t r)).1 = None /\
  last (out w') = Some (process_exit 1) /\
  heap w' = heap w /\
  running_max (c_infos c) w' = running_max (c_infos c) w /\
  exit_code w' = Some 1 /\
  (forall k, step k w' = None).
Proof.
  intros Hh Hg Hf.
  destruct (interval_fires_Some _ _ _ _ _ Hf) as (Ha & _).
  rewrite (interval_callback_fatal c (with_inputs w t r)) by done.
  rewrite (interval_fires_fatal h c t r w Ha Hh Hg) in Hf. injection Hf as <-.
  repeat split.
  - simpl out. by rewrite app_comm_cons, app_assoc, last_snoc.
  - by intros [h' t' r'| |limit pkg|p|p b n].
Qed.

(* ===================================================================== *)
(** ** No tick after the report *)
(* ===================================================================== *)

Lemma intervals_interval_callback c w :
  intervals (interval_callback c w).2 = intervals w.
Proof.
  set (memUsage := toMB (rss w)).
  destruct (gt (Num memUsage) (c_MEMORY_ERROR_MAX_SIZE c)) eqn:Hf.
  - by rewrite interval_callback_fatal.
  - destruct (heap w !! c_infos c) as [i|] eqn:Hi.
    + rewrite (interval_callback_running c w i) by done. fold memUsage. cbv zeta.
      by destruct (gt _ (c_MEMORY_WARNING_MAX_SIZE c)), (gt _ (Num _)).
    + unfold interval_callback, bind, memoryUsage_rss. fold memUsage.
      rewrite Hf. unfold when at 1. unfold ret at 1.
      destruct (gt (Num memUsage) (c_MEMORY_WARNING_MAX_SIZE c)); unfold when at 1.
      * rewrite warningMemoryLimit_spec. unfold deref. simpl. by rewrite Hi.
      * unfold ret at 1, deref. by rewrite Hi.
Qed.

(** The event loop starts no timer. *)
Lemma intervals_step k w w' h c :
  step k w = Some w' -> intervals w' !! h = Some c -> intervals w !! h = Some c.
Proof.
  intros Hk. apply step_callback in Hk.
  destruct k as [h' t x| |limit pkg|p|p b n].
  - destruct Hk as (c' & _ & ->). by rewrite intervals_interval_callback.
  - destruct Hk as (due & _ & ->). by rewrite warningMemoryLimit_timerExpired_spec.
  - apply Hk.
  - apply Hk.
  - apply Hk.
Qed.

(** The callback of a monitor touches the maximum of no other monitor. *)
Lemma running_max_interval_callback_ne c w r :
  c_infos c <> r ->
  running_max r (interval_callback c w).2 = running_max r w.
Proof.
  intros Hne. set (memUsage := toMB (rss w)).
  destruct (gt (Num memUsage) (c_MEMORY_ERROR_MAX_SIZE c)) eqn:Hf.
  - by rewrite interval_callback_fatal.
  - destruct (heap w !! c_infos c) as [i|] eqn:Hi.
    + rewrite (interval_callback_running c w i) by done. fold memUsage. cbv zeta.
      destruct (gt _ (c_MEMORY_WARNING_MAX_SIZE c)), (gt _ (Num _));
        cbn [snd]; rewrite ?running_max_recorded_ne by done; reflexivity.
    + unfold interval_callback, bind, memoryUsage_rss. fold memUsage.
      rewrite Hf. unfold when at 1. unfold ret at 1.
      destruct (gt (Num memUsage) (c_MEMORY_WARNING_MAX_SIZE c)); unfold when at 1.
      * rewrite warningMemoryLimit_spec. unfold deref. simpl. by rewrite Hi.
      * unfold ret at 1, deref. by rewrite Hi.
Qed.

Lemma running_max_run_foreign ks w w' r :
  (forall h c, intervals w !! h = Some c -> c_infos c <> r) ->
  run ks w = Some w' ->
  running_max r w' = running_max r w.
Proof.
  revert w. induction ks as [|k ks IH]; intros w Hforeign; simpl.
  - by intros [= <-].
  - destruct (step k w) as [w1|] eqn:Hk; [|done]. intros Hrun.
    rewrite (IH w1); [| | done].
    2: { intros h c Hc. apply (Hforeign h). by apply (intervals_step k w w1). }
    apply step_callback in Hk.
    destruct k as [h t x| |limit pkg|p|p b n].
    + destruct Hk as (c & Hh & ->).
      rewrite running_max_interval_callback_ne; [done | by apply (Hforeign h)].
    + destruct Hk as (due & _ & ->). by rewrite warningMemoryLimit_timerExpired_spec.
    + apply running_max_heap, Hk.
    + apply running_max_heap, Hk.
    + apply running_max_heap, Hk.
Qed.

(** [finalCallback] clears the timer of its monitor before it reads and
    reports the maximum and its date. *)
Lemma finalCallback_cancels_then_reports
    (p : Plugin) (w : world) (i : Infos) (h : handle) :
  heap w !! p_infos p = Some i ->
  interval i = Some h ->
  let w' := (finalCallback p w).2 in
  let report := MEMORY_CONSUMPTION_TXT (tmpMaxMemoryConsumption i)
                                       (dateMaxMemoryConsumption i) in
  emitted (finalCallback p) w
  = clear_interval (Some h)
    :: reported w Info c_log green report
    ++ [fastFolderSize (p_BUNDLE_ROOT_FOLDER_PATH p); fastFolderSize "./node_modules"] /\
  intervals w' = delete h (intervals w) /\
  (forall t r, interval_fires h t r w' = None) /\
  running_max (p_infos p) w'
  = Some (tmpMaxMemoryConsumption i, dateMaxMemoryConsumption i) /\
  ((forall h' c, intervals w !! h' = Some c -> c_infos c = p_infos p -> h' = h) ->
   forall ks w'', run ks w' = Some w'' ->
     running_max (p_infos p) w''
     = Some (tmpMaxMemoryConsumption i, dateMaxMemoryConsumption i)).
Proof.
  intros Hi Hh w' report.
  assert (running_max (p_infos p) w'
          = Some (tmpMaxMemoryConsumption i, dateMaxMemoryConsumption i)) as Hmax.
  { unfold w'. rewrite (finalCallback_spec p w i Hi). unfold running_max. simpl.
    by rewrite Hi. }
  assert (intervals w' = delete h (intervals w)) as Hint.
  { unfold w'. rewrite (finalCallback_spec p w i Hi). simpl. by rewrite Hh. }
  split; [|split; [|split; [|split]]]; try done.
  - rewrite (emitted_finalCallback p w i Hi). by rewrite Hh.
  - intros t r. unfold interval_fires. rewrite Hint, lookup_delete_eq.
    by destruct (alive w').
  - intros Honly ks w'' Hrun. rewrite <- Hmax.
    apply (running_max_run_foreign ks w' w''); [|done].
    intros h' c. rewrite Hint. intros Hc Heq.
    destruct (decide (h' = h)) as [->|Hne].
    + by rewrite lookup_delete_eq in Hc.
    + rewrite lookup_delete_ne in Hc by done. by apply Hne, (Honly h' c).
Qed.

(** The event loop keeps the [infos] objects and never reassigns their
    [interval] property. *)
Lemma interval_prop_interval_callback c w r i :
  heap w !! r = Some i ->
  exists i', heap (interval_callback c w).2 !! r = Some i' /\ interval i' = interval i.
Proof.
  intros Hr. set (memUsage := toMB (rss w)).
  destruct (gt (Num memUsage) (c_MEMORY_ERROR_MAX_SIZE c)) eqn:Hf.
  - rewrite interval_callback_fatal by done. by exists i.
  - destruct (heap w !! c_infos c) as [j|] eqn:Hj.
    + rewrite (interval_callback_running c w j) by done. fold memUsage. cbv zeta.
      set (w1 := if gt (Num memUsage) (c_MEMORY_WARNING_MAX_SIZE c) then _ else w).
      assert (heap w1 = heap w) as Hw1
        by (unfold w1; by destruct (gt _ (c_MEMORY_WARNING_MAX_SIZE c))).
      destruct (gt (Num memUsage) (Num (tmpMaxMemoryConsumption j))); cbn [snd].
      * unfold recorded. simpl. rewrite Hw1.
        destruct (decide (c_infos c = r)) as [<-|Hne].
        -- rewrite !lookup_alter_eq, Hr. simpl. by eexists.
        -- rewrite !lookup_alter_ne by done. by exists i.
      * rewrite Hw1. by exists i.
    + exists i. split; [|done].
      unfold interval_callback, bind, memoryUsage_rss. fold memUsage.
      rewrite Hf. unfold when at 1. unfold ret at 1.
      destruct (gt (Num memUsage) (c_MEMORY_WARNING_MAX_SIZE c)); unfold when at 1.
      * rewrite warningMemoryLimit_spec. unfold deref. simpl. by rewrite Hj.
      * unfold ret at 1, deref. by rewrite Hj.
Qed.

Lemma interval_prop_run ks w w' r i :
  run ks w = Some w' ->
  heap w !! r = Some i ->
  exists i', heap w' !! r = Some i' /\ interval i' = interval i.
Proof.
  revert w i. induction ks as [|k ks IH]; intros w i; simpl.
  - intros [= <-] Hr. by exists i.
  - destruct (step k w) as [w1|] eqn:Hk; [|done]. intros Hrun Hr.
    assert (exists i1, heap w1 !! r = Some i1 /\ interval i1 = interval i)
      as (i1 & Hr1 & Hi1).
    { apply step_callback in Hk.
      destruct k as [h t x| |limit pkg|p|p b n].
      - destruct Hk as (c & _ & ->). by apply interval_prop_interval_callback.
      - destruct Hk as (due & _ & ->).
        rewrite warningMemoryLimit_timerExpired_spec. by exists i.
      - exists i. by rewrite (proj1 Hk).
      - exists i. by rewrite (proj1 Hk).
      - exists i. by rewrite (proj1 Hk). }
    destruct (IH w1 i1 Hrun Hr1) as (i' & Hr' & Hi').
    exists i'. split; [done | congruence].
Qed.

Lemma intervals_run ks w w' h c :
  run ks w = Some w' -> intervals w' !! h = Some c -> intervals w !! h = Some c.
Proof.
  revert w. induction ks as [|k ks IH]; intros w; simpl.
  - by intros [= <-].
  - destruct (step k w) as [w1|] eqn:Hk; [|done]. intros Hrun Hc.
    apply (intervals_step k w w1); [done|]. by apply IH.
Qed.

(** C8: whenever [finalCallback] runs, after [monitoring] and whatever
    the event loop ran in between, it first clears the timer of its
    monitor and then reads and reports the maximum and its date; the
    timer cannot fire again, so that what was reported stays what is
    stored, whatever runs later. *)
Theorem timer_cancelled_before_report
    (options : MonitoringOptions) (w0 w : world) (ks : list task) :
  (forall h c, intervals w0 !! h = Some c -> c_infos c <> fresh_ref w0) ->
  run ks (monitoring options w0).2 = Some w ->
  let p := plugin_of options (fresh_ref w0) in
  let h := fresh_handle w0 in
  let w' := (finalCallback p w).2 in
  (monitoring options w0).1 = Some p /\
  exists maximum date,
    running_max (p_infos p) w = Some (maximum, date) /\
    emitted (finalCallback p) w
    = clear_interval (Some h)
      :: reported w Info c_log green (MEMORY_CONSUMPTION_TXT maximum date)
      ++ [fastFolderSize (p_BUNDLE_ROOT_FOLDER_PATH p); fastFolderSize "./node_modules"] /\
    intervals w' !! h = None /\
    (forall t r, interval_fires h t r w' = None) /\
    (forall ks' w'', run ks' w' = Some w'' ->
       running_max (p_infos p) w'' = Some (maximum, date)).
Proof.
  intros Hfresh Hrun p h w'.
  rewrite monitoring_spec in Hrun |- *. cbn [fst snd] in Hrun |- *.
  split; [done|].
  set (w1 := with_out _ _) in Hrun.
  assert (heap w1 !! fresh_ref w0
          = Some {| interval := Some h; tmpMaxMemoryConsumption := of_Z 0;
                    dateMaxMemoryConsumption := clock w0 |}) as Hr1
    by (unfold w1; simpl; apply lookup_insert_eq).
  destruct (interval_prop_run ks w1 w _ _ Hrun Hr1) as (i & Hi & Hh). simpl in Hh.
  destruct (finalCallback_cancels_then_reports p w i h Hi Hh)
    as (He & Hint & Hfire & Hmax & Hlater).
  exists (tmpMaxMemoryConsumption i), (dateMaxMemoryConsumption i).
  split; [unfold running_max; simpl; by rewrite Hi|].
  split; [done|]. split; [unfold w'; rewrite Hint; apply lookup_delete_eq|].
  split; [done|].
  apply Hlater. intros h' c Hc Heq.
  apply (intervals_run ks w1 w _ _ Hrun) in Hc. unfold w1 in Hc. simpl in Hc.
  destruct (decide (h' = h)) as [|Hne]; [done|]. exfalso.
  unfold h in Hne. rewrite lookup_insert_ne in Hc by done.
  by apply (Hfresh h' c).
Qed.

(* ===================================================================== *)
(** ** Coalescing of the memory warning *)
(* ===================================================================== *)

Section Debounce_facts.
Context {A : Type}.
Variable wait : Z.
Hypothesis wait_pos : 0 < wait.

(** The first call of a burst is on the leading edge. *)
Lemma debounced_leading (s : Lodash.state A) t a :
  idle wait t s ->
  exists s', Lodash.debounced wait true s t a = ([a], s') /\ in_burst wait None t s'.
Proof.
  intros (Hid & Hsh). unfold Lodash.debounced. rewrite Hsh. simpl. rewrite Hid.
  rewrite bool_decide_eq_true_2 by done. simpl.
  unfold Lodash.leadingEdge, Lodash.invokeFunc. simpl.
  eexists; split; [done|]. repeat split; simpl. eexists; split; [done|]. lia.
Qed.

(** A later call of the burst only replaces the waiting arguments. *)
Lemma debounced_pending (s : Lodash.state A) la t t' a :
  in_burst wait la t s ->
  t <= t' < t + wait ->
  (forall due, Lodash.timerId s = Some due -> t' < due) ->
  exists s', Lodash.debounced wait true s t' a = ([], s') /\
             in_burst wait (Some a) t' s'.
Proof.
  intros (Hla & Hlc & due & Hd & Hdue) Ht Hlate.
  unfold Lodash.debounced, Lodash.shouldInvoke. rewrite Hlc. simpl. rewrite Hd.
  rewrite (bool_decide_eq_false_2 (Some due = None)) by done.
  rewrite andb_false_r.
  eexists; split; [done|]. repeat split; simpl.
  exists due. split; [done|]. specialize (Hlate due Hd). lia.
Qed.

(** During a burst, a timeout that falls due starts over. *)
Lemma timerExpired_restarts (s : Lodash.state A) la t due :
  Lodash.lastArgs s = la -> Lodash.lastCallTime s = Some t ->
  Lodash.timerId s = Some due -> t < due < t + wait ->
  exists s', Lodash.timerExpired wait true s due = ([], s') /\
             Lodash.lastArgs s' = la /\ Lodash.lastCallTime s' = Some t /\
             Lodash.timerId s' = Some (t + wait).
Proof.
  intros Hla Hlc Hd Hdue.
  unfold Lodash.timerExpired, Lodash.shouldInvoke, Lodash.remainingWait.
  rewrite Hlc.
  replace (wait <=? due - t) with false by (symmetry; apply Z.leb_gt; lia).
  replace (due - t <? 0) with false by (symmetry; apply Z.ltb_ge; lia).
  simpl. eexists; split; [done|]. simpl. repeat split; try done.
  f_equal. lia.
Qed.

(** Once [wait] has passed since the last call, the timeout hands the
    waiting arguments to the function and the burst is over. *)
Lemma timerExpired_trailing (s : Lodash.state A) la t :
  Lodash.lastArgs s = la -> Lodash.lastCallTime s = Some t ->
  exists s', Lodash.timerExpired wait true s (t + wait)
             = (match la with Some a => [a] | None => [] end, s') /\
             Lodash.timerId s' = None /\ Lodash.lastCallTime s' = Some t.
Proof.
  intros Hla Hlc.
  unfold Lodash.timerExpired, Lodash.shouldInvoke, Lodash.trailingEdge.
  rewrite Hlc.
  replace (wait <=? t + wait - t) with true by (symmetry; apply Z.leb_le; lia).
  simpl. rewrite Hla. destruct la as [a|].
  - rewrite bool_decide_eq_true_2 by eauto.
    unfold Lodash.invokeFunc. simpl. eauto.
  - rewrite bool_decide_eq_false_2 by (by intros [? ?]). eauto.
Qed.
End Debounce_facts.

Lemma same_process_refl w : same_process w w.
Proof. by repeat split. Qed.

Lemma same_process_trans w1 w2 w3 :
  same_process w1 w2 -> same_process w2 w3 -> same_process w1 w3.
Proof.
  intros (He & Hi & Hl & Hh) (He' & Hi' & Hl' & Hh').
  repeat split; try congruence. intros r Hr. by apply Hh', Hh.
Qed.

Lemma reported_same_process w w' k ty c t :
  same_process w w' -> reported w' k ty c t = reported w k ty c t.
Proof. intros (_ & _ & Hl & _). unfold reported, logged. by rewrite Hl. Qed.

Lemma warnings_nil w : warnings w [] = [].
Proof. reflexivity. Qed.

(** The timeout of the warning fires in a live process. *)
Lemma timeout_fires_spec w due :
  exit_code w = None ->
  Lodash.timerId (warn_closure w) = Some due ->
  let r := Lodash.timerExpired WARNING_WAIT true (warn_closure w) due in
  timeout_fires w
  = Some (with_out (with_warn (with_inputs w due (rss w)) r.2)
                   (out w ++ warnings (with_inputs w due (rss w)) r.1)).
Proof.
  intros Ha Hd r. unfold timeout_fires, alive. rewrite Ha, Hd. simpl.
  by rewrite warningMemoryLimit_timerExpired_spec.
Qed.

(** While a burst is under way, catching up with the timeouts before the
    next tick writes nothing and leaves the timeout due after the tick. *)
Lemma timeouts_until_in_burst la t t' w :
  exit_code w = None ->
  in_burst WARNING_WAIT la t (warn_closure w) ->
  t <= t' < t + WARNING_WAIT ->
  let w1 := timeouts_until 2 t' w in
  out w1 = out w /\ same_process w w1 /\
  in_burst WARNING_WAIT la t (warn_closure w1) /\
  (forall due, Lodash.timerId (warn_closure w1) = Some due -> t' < due).
Proof.
  intros Ha (Hla & Hlc & due & Hd & Hdue) Ht. simpl. rewrite Hd.
  destruct (Z.leb_spec due t') as [Hle|Hgt].
  - rewrite (timeout_fires_spec w due Ha Hd).
    destruct (timerExpired_restarts WARNING_WAIT (warn_closure w) la t due
                Hla Hlc Hd ltac:(lia)) as (s' & -> & Hla' & Hlc' & Hd').
    simpl. rewrite Hd'.
    replace (t + WARNING_WAIT <=? t') with false by (symmetry; apply Z.leb_gt; lia).
    simpl. rewrite app_nil_r. repeat split; try done.
    + exists (t + WARNING_WAIT). split; [done|]. unfold WARNING_WAIT in *. lia.
    + rewrite Hd'. intros ? [= <-]. lia.
  - repeat split; try done.
    + exists due. by split.
    + rewrite Hd. intros ? [= <-]. lia.
Qed.

(** Once the burst is over, the timeout hands over the waiting arguments
    at [t + WARNING_WAIT], however late one looks. *)
Lemma timeouts_until_trailing la t T w :
  exit_code w = None ->
  in_burst WARNING_WAIT la t (warn_closure w) ->
  t + WARNING_WAIT <= T ->
  let w1 := timeouts_until 2 T w in
  out w1
  = out w ++ match la with
             | Some a => reported w Warning c_log bgYellow
                           (WARNING_MEMORY_CONSUMPTION_at (t + WARNING_WAIT) a)
             | None => []
             end /\
  same_process w w1 /\ Lodash.timerId (warn_closure w1) = None.
Proof.
  intros Ha (Hla & Hlc & due & Hd & Hdue) HT. simpl. rewrite Hd.
  replace (due <=? T) with true by (symmetry; apply Z.leb_le; lia).
  rewrite (timeout_fires_spec w due Ha Hd).
  destruct (decide (due = t + WARNING_WAIT)) as [->|Hne].
  - destruct (timerExpired_trailing WARNING_WAIT (warn_closure w) la t Hla Hlc)
      as (s' & -> & Hd' & Hlc').
    simpl. rewrite Hd'. simpl. repeat split; try done.
    destruct la as [a|]; [|done]. unfold warnings. simpl. by rewrite app_nil_r.
  - destruct (timerExpired_restarts WARNING_WAIT (warn_closure w) la t due
                Hla Hlc Hd ltac:(lia)) as (s' & -> & Hla' & Hlc' & Hd').
    simpl. rewrite Hd'.
    replace (t + WARNING_WAIT <=? T) with true by (symmetry; apply Z.leb_le; lia).
    unfold timeout_fires, alive. simpl. rewrite Ha, Hd'. simpl.
    rewrite warningMemoryLimit_timerExpired_spec. simpl.
    destruct (timerExpired_trailing WARNING_WAIT s' la t Hla' Hlc')
      as (s'' & -> & Hd'' & Hlc'').
    simpl. rewrite app_nil_r. repeat split; try done.
    destruct la as [a|]; [|done]. unfold warnings. simpl. by rewrite app_nil_r.
Qed.

Lemma same_process_recorded r memUsage w : same_process w (recorded r memUsage w).
Proof.
  repeat split. intros r' Hr'. unfold recorded. simpl.
  destruct (decide (r = r')) as [<-|Hne].
  - rewrite !lookup_alter_eq. destruct Hr' as [i ->]. by eexists.
  - by rewrite !lookup_alter_ne.
Qed.

(** A tick in the warning band, seen from the closure of the warning. *)
Lemma interval_fires_in_band h c t r w :
  exit_code w = None ->
  intervals w !! h = Some c ->
  is_Some (heap w !! c_infos c) ->
  in_warning_band c r ->
  let d := Lodash.debounced WARNING_WAIT true (warn_closure w) t
                            (toMB r, c_MEMORY_WARNING_MAX_SIZE c) in
  exists w',
    interval_fires h t r w = Some w' /\
    out w' = out w ++ warnings (with_inputs w t r) d.1 /\
    warn_closure w' = d.2 /\
    same_process w w'.
Proof.
  intros Ha Hh [i Hi] (Hw & Hf) d.
  rewrite (interval_fires_running h c t r w i Ha Hh Hi Hf). cbv zeta. rewrite Hw.
  eexists; split; [done|].
  destruct (gt _ (Num _)).
  - repeat split. apply (same_process_recorded _ _ (warned _ _ (with_inputs w t r))).
  - by repeat split.
Qed.

Lemma last_tick_cons tick tick' ticks :
  last_tick tick (tick' :: ticks) = last_tick tick' ticks.
Proof.
  unfold last_tick. revert tick tick'.
  induction ticks as [|x ticks IH]; intros tick tick'; [done|].
  change (List.last (tick' :: x :: ticks) tick) with (List.last (x :: ticks) tick).
  rewrite (IH tick x). symmetry. apply (IH tick' x).
Qed.

(** The ticks of a burst after its first: nothing is written. *)
Lemma session_in_burst h c ticks : forall la t w,
  exit_code w = None ->
  intervals w !! h = Some c ->
  is_Some (heap w !! c_infos c) ->
  in_burst WARNING_WAIT la t (warn_closure w) ->
  Forall (λ tick, in_warning_band c tick.2) ticks ->
  close_ticks t ticks ->
  let w' := session h ticks w in
  out w' = out w /\ same_process w w' /\
  match ticks with
  | [] => in_burst WARNING_WAIT la t (warn_closure w')
  | tick :: ticks' =>
      let tick' := last_tick tick ticks' in
      in_burst WARNING_WAIT (Some (toMB tick'.2, c_MEMORY_WARNING_MAX_SIZE c))
               tick'.1 (warn_closure w')
  end.
Proof.
  induction ticks as [|[t' r] ticks IH]; intros la t w Ha Hh Hi Hb Hband Hclose.
  - simpl. split; [done|]. split; [apply same_process_refl | done].
  - apply Forall_cons in Hband as (Hr & Hband). destruct Hclose as (Ht' & Hclose).
    cbn [session].
    destruct (timeouts_until_in_burst la t t' w Ha Hb Ht')
      as (Ho1 & Hs1 & Hb1 & Hlate).
    set (w1 := timeouts_until 2 t' w) in *.
    destruct Hs1 as (Ha1 & Hi1 & Hl1 & Hh1).
    destruct (interval_fires_in_band h c t' r w1) as (w2 & -> & Ho2 & Hw2 & Hs2);
      [congruence | congruence | by apply Hh1 | done |].
    destruct (debounced_pending WARNING_WAIT (warn_closure w1) la t t'
                (toMB r, c_MEMORY_WARNING_MAX_SIZE c) Hb1 Ht' Hlate)
      as (s' & Hd & Hb2).
    rewrite Hd in Ho2, Hw2. cbn [fst snd] in Ho2, Hw2.
    rewrite warnings_nil, app_nil_r in Ho2.
    destruct Hs2 as (Ha2 & Hi2 & Hl2 & Hh2).
    destruct (IH (Some (toMB r, c_MEMORY_WARNING_MAX_SIZE c)) t' w2)
      as (Ho3 & Hs3 & Hb3); [congruence | congruence | by apply Hh2, Hh1
                             | by rewrite Hw2 | done | done |].
    split; [congruence|]. split.
    + apply (same_process_trans _ w1); [by repeat split|].
      apply (same_process_trans _ w2); [by repeat split | done].
    + destruct ticks as [|tick ticks']; [exact Hb3|].
      rewrite last_tick_cons. exact Hb3.
Qed.

Lemma since_app w1 w2 evs :
  out w2 = out w1 ++ evs -> since w1 w2 = evs.
Proof. unfold since. intros ->. apply drop_app_length. Qed.

(** A tick whose sample exceeds no threshold writes nothing and leaves
    the closure of the warning as it is. *)
Lemma interval_fires_at_most_warning h c t r w :
  exit_code w = None ->
  intervals w !! h = Some c ->
  is_Some (heap w !! c_infos c) ->
  at_most_warning c r ->
  exists w',
    interval_fires h t r w = Some w' /\
    out w' = out w /\ warn_closure w' = warn_closure w /\ same_process w w'.
Proof.
  intros Ha Hh [i Hi] (Hw & Hf).
  rewrite (interval_fires_running h c t r w i Ha Hh Hi Hf). cbv zeta. rewrite Hw.
  eexists; split; [done|].
  destruct (gt _ (Num _)).
  - repeat split. apply (same_process_recorded _ _ (with_inputs w t r)).
  - by repeat split.
Qed.

(** Later ticks at or below the warning threshold, while no timeout of
    the warning is pending: nothing is written. *)
Lemma session_settled h c later : forall w,
  exit_code w = None ->
  intervals w !! h = Some c ->
  is_Some (heap w !! c_infos c) ->
  Lodash.timerId (warn_closure w) = None ->
  Forall (λ tick, at_most_warning c tick.2) later ->
  let w' := session h later w in
  out w' = out w /\ same_process w w' /\ Lodash.timerId (warn_closure w') = None.
Proof.
  induction later as [|[t' r] later IH]; intros w Ha Hh Hi Hnone Hlater.
  - simpl. split; [done|]. split; [apply same_process_refl | done].
  - apply Forall_cons in Hlater as (Hr & Hlater). cbn [session].
    assert (timeouts_until 2 t' w = w) as -> by (simpl; by rewrite Hnone).
    destruct (interval_fires_at_most_warning h c t' r w Ha Hh Hi Hr)
      as (w2 & -> & Ho2 & Hw2 & Hs2).
    pose proof Hs2 as (Ha2 & Hi2 & Hl2 & Hh2).
    destruct (IH w2) as (Ho3 & Hs3 & Hn3);
      [congruence | congruence | by apply Hh2 | by rewrite Hw2 | done |].
    split; [congruence|]. split; [by apply (same_process_trans _ w2) | done].
Qed.

(** Later ticks at or below the warning threshold, less than
    [WARNING_WAIT] after the last call of a burst: nothing is written
    and the burst is still under way. *)
Lemma session_waiting h c later : forall la t w,
  exit_code w = None ->
  intervals w !! h = Some c ->
  is_Some (heap w !! c_infos c) ->
  in_burst WARNING_WAIT la t (warn_closure w) ->
  Forall (λ tick, at_most_warning c tick.2 /\ t <= tick.1 < t + WARNING_WAIT) later ->
  let w' := session h later w in
  out w' = out w /\ same_process w w' /\ in_burst WARNING_WAIT la t (warn_closure w').
Proof.
  induction later as [|[t' r] later IH]; intros la t w Ha Hh Hi Hb Hlater.
  - simpl. split; [done|]. split; [apply same_process_refl | done].
  - apply Forall_cons in Hlater as ((Hr & Ht') & Hlater). cbn [session].
    destruct (timeouts_until_in_burst la t t' w Ha Hb Ht') as (Ho1 & Hs1 & Hb1 & _).
    set (w1 := timeouts_until 2 t' w) in *.
    pose proof Hs1 as (Ha1 & Hi1 & Hl1 & Hh1).
    destruct (interval_fires_at_most_warning h c t' r w1) as (w2 & -> & Ho2 & Hw2 & Hs2);
      [congruence | congruence | by apply Hh1 | done |].
    pose proof Hs2 as (Ha2 & Hi2 & Hl2 & Hh2).
    destruct (IH la t w2) as (Ho3 & Hs3 & Hb3);
      [congruence | congruence | by apply Hh2, Hh1 | by rewrite Hw2 | done |].
    split; [congruence|]. split; [|done].
    apply (same_process_trans _ w1); [done|]. by apply (same_process_trans _ w2).
Qed.

(** Later ticks at or below the warning threshold after the last call of
    a burst: either the burst is still under way and nothing was
    written, or its trailing edge has come and gone. *)
Lemma session_after_burst h c later : forall la t w,
  exit_code w = None ->
  intervals w !! h = Some c ->
  is_Some (heap w !! c_infos c) ->
  in_burst WARNING_WAIT la t (warn_closure w) ->
  Forall (λ tick, at_most_warning c tick.2 /\ t <= tick.1) later ->
  let w' := session h later w in
  same_process w w' /\
  ((out w' = out w /\ in_burst WARNING_WAIT la t (warn_closure w')) \/
   (out w' = out w ++ trailing_warning w la t /\
    Lodash.timerId (warn_closure w') = None)).
Proof.
  induction later as [|[t' r] later IH]; intros la t w Ha Hh Hi Hb Hlater.
  - simpl. split; [apply same_process_refl | by left].
  - apply Forall_cons in Hlater as ((Hr & Ht') & Hlater). cbn [session].
    cbn [fst snd] in Hr, Ht'.
    destruct (Z.lt_ge_cases t' (t + WARNING_WAIT)) as [Hin|Hout].
    + destruct (timeouts_until_in_burst la t t' w Ha Hb ltac:(lia))
        as (Ho1 & Hs1 & Hb1 & _).
      set (w1 := timeouts_until 2 t' w) in *.
      pose proof Hs1 as (Ha1 & Hi1 & Hl1 & Hh1).
      destruct (interval_fires_at_most_warning h c t' r w1)
        as (w2 & -> & Ho2 & Hw2 & Hs2);
        [congruence | congruence | by apply Hh1 | done |].
      pose proof Hs2 as (Ha2 & Hi2 & Hl2 & Hh2).
      destruct (IH la t w2) as (Hs3 & Hcase);
        [congruence | congruence | by apply Hh2, Hh1 | by rewrite Hw2 | done |].
      assert (same_process w w2) as Hs12 by (by apply (same_process_trans _ w1)).
      split; [by apply (same_process_trans _ w2)|].
      destruct Hcase as [(Ho3 & Hb3)|(Ho3 & Hn3)]; [left | right].
      * split; [congruence | done].
      * split; [|done]. rewrite Ho3, Ho2, Ho1. f_equal.
        unfold trailing_warning. destruct la; [|done]. by apply reported_same_process.
    + destruct (timeouts_until_trailing la t t' w Ha Hb Hout) as (Ho1 & Hs1 & Hn1).
      set (w1 := timeouts_until 2 t' w) in *.
      pose proof Hs1 as (Ha1 & Hi1 & Hl1 & Hh1).
      destruct (interval_fires_at_most_warning h c t' r w1)
        as (w2 & -> & Ho2 & Hw2 & Hs2);
        [congruence | congruence | by apply Hh1 | done |].
      pose proof Hs2 as (Ha2 & Hi2 & Hl2 & Hh2).
      destruct (session_settled h c later w2) as (Ho3 & Hs3 & Hn3);
        [congruence | congruence | by apply Hh2, Hh1 | by rewrite Hw2
        | by eapply Forall_impl; [exact Hlater | intros ? []] |].
      assert (same_process w w2) as Hs12 by (by apply (same_process_trans _ w1)).
      split; [by apply (same_process_trans _ w2)|].
      right. split; [|done]. by rewrite Ho3, Ho2, Ho1.
Qed.

(** C4, as amended: take a run of ticks of a monitor in the warning band
    that follow one another by less than 2500 ms and that begins while
    the debounced warning is idle (no timeout of it is pending and its
    previous call, if any, is 2500 ms old or older), in a process where
    only the ticks of this monitor and the timeouts of the warning run.
    However long the run lasts, only the warning of its first tick is
    written while it lasts, at once (leading edge).  After the run, as
    long as the later ticks of the monitor exceed neither threshold,
    nothing is written until 2500 ms have passed since the last tick of
    the run; then the warning of that last tick is written (trailing
    edge), if the run has more than one tick, and nothing else.  The
    ticks in between are never notified. *)
Theorem warnings_are_debounced
    (h : handle) (c : closure) (w : world)
    (tick : time * number) (ticks : list (time * number)) :
  exit_code w = None ->
  intervals w !! h = Some c ->
  is_Some (heap w !! c_infos c) ->
  idle WARNING_WAIT tick.1 (warn_closure w) ->
  Forall (λ tick, in_warning_band c tick.2) (tick :: ticks) ->
  close_ticks tick.1 ticks ->
  let limit := c_MEMORY_WARNING_MAX_SIZE c in
  let final := last_tick tick ticks in
  let w' := session h (tick :: ticks) w in
  since w w'
  = reported w Warning c_log bgYellow
      (WARNING_MEMORY_CONSUMPTION_at tick.1 (toMB tick.2, limit)) /\
  (forall (later : list (time * number)) (T : time),
     final.1 <= T ->
     Forall (λ tick, at_most_warning c tick.2 /\ final.1 <= tick.1 <= T) later ->
     let w'' := timeouts_until 2 T (session h later w') in
     (T < final.1 + WARNING_WAIT -> since w' w'' = []) /\
     (final.1 + WARNING_WAIT <= T ->
        since w' w''
        = match ticks with
          | [] => []
          | _ :: _ => reported w Warning c_log bgYellow
                        (WARNING_MEMORY_CONSUMPTION_at (final.1 + WARNING_WAIT)
                           (toMB final.2, limit))
          end)).
Proof.
  destruct tick as [t0 r0]. intros Ha Hh Hi Hidle Hband Hclose limit final w'.
  apply Forall_cons in Hband as (Hr0 & Hband).
  assert (timeouts_until 2 t0 w = w) as Hw1
    by (destruct Hidle as (Hnone & _); simpl; by rewrite Hnone).
  destruct (interval_fires_in_band h c t0 r0 w Ha Hh Hi Hr0)
    as (w2 & Hf2 & Ho2 & Hw2 & Hs2).
  destruct (debounced_leading WARNING_WAIT ltac:(done) (warn_closure w) t0
              (toMB r0, limit) Hidle) as (s' & Hd & Hb2).
  fold limit in Ho2, Hw2. rewrite Hd in Ho2, Hw2. cbn [fst snd] in Ho2, Hw2.
  assert (w' = session h ticks w2) as Hw'
    by (unfold w'; cbn [session]; by rewrite Hw1, Hf2).
  pose proof Hs2 as (Ha2 & Hi2 & Hl2 & Hh2).
  destruct (session_in_burst h c ticks None t0 w2) as (Ho3 & Hs3 & Hb3);
    [congruence | congruence | by apply Hh2 | by rewrite Hw2 | done | done |].
  rewrite <- Hw' in Ho3, Hs3, Hb3.
  assert (same_process w w') as Hs by (by apply (same_process_trans _ w2)).
  assert (exists la, in_burst WARNING_WAIT la final.1 (warn_closure w') /\
                     match ticks with
                     | [] => la = None
                     | _ :: _ => la = Some (toMB final.2, limit)
                     end) as (la & Hb & Hla).
  { destruct ticks as [|tick' ticks'].
    - exists None. by split.
    - eexists. split; [|done]. unfold final. rewrite last_tick_cons. exact Hb3. }
  pose proof Hs as (Ha' & Hi' & Hl' & Hh').
  assert (exit_code w' = None) as Ha'' by congruence.
  assert (intervals w' !! h = Some c) as Hh'' by congruence.
  assert (is_Some (heap w' !! c_infos c)) as Hi'' by (by apply Hh').
  assert (trailing_warning w' la final.1
          = match ticks with
            | [] => []
            | _ :: _ => reported w Warning c_log bgYellow
                          (WARNING_MEMORY_CONSUMPTION_at (final.1 + WARNING_WAIT)
                             (toMB final.2, limit))
            end) as Htrail.
  { unfold trailing_warning. destruct ticks; subst la; [done|].
    by apply reported_same_process. }
  split.
  - apply since_app. rewrite Ho3, Ho2.
    unfold warnings. simpl. by rewrite app_nil_r.
  - intros later T HT Hlater w''. split.
    + intros Hearly.
      destruct (session_waiting h c later la final.1 w' Ha'' Hh'' Hi'' Hb)
        as (Ho4 & Hs4 & Hb4).
      { eapply Forall_impl; [exact Hlater|]. intros ? (? & ? & ?). split; [done | lia]. }
      pose proof Hs4 as (Ha4 & _).
      destruct (timeouts_until_in_burst la final.1 T (session h later w')
                  ltac:(congruence) Hb4 ltac:(lia)) as (Ho5 & _).
      apply since_app. unfold w''. by rewrite Ho5, Ho4, app_nil_r.
    + intros Hlate. rewrite <- Htrail.
      destruct (session_after_burst h c later la final.1 w' Ha'' Hh'' Hi'' Hb)
        as (Hs4 & Hcase).
      { eapply Forall_impl; [exact Hlater|]. intros ? (? & ? & ?). by split. }
      pose proof Hs4 as (Ha4 & _).
      apply since_app. unfold w''.
      destruct Hcase as [(Ho4 & Hb4)|(Ho4 & Hn4)].
      * destruct (timeouts_until_trailing la final.1 T (session h later w')
                    ltac:(congruence) Hb4 Hlate) as (Ho5 & _).
        rewrite Ho5, Ho4. f_equal. unfold trailing_warning.
        destruct la; [|done]. by apply reported_same_process.
      * assert (timeouts_until 2 T (session h later w') = session h later w') as ->
          by (simpl; by rewrite Hn4).
        done.
Qed.

(** Two runs with a single tick below the threshold between them are
    one burst for the debounced warning: of the ticks at 350 and 700
    (3000 MB, 3001 MB) and at 1400 and 1750 (3002 MB, 3003 MB), only the
    first and the last are notified. *)
Example runs_close_to_one_another_are_one_burst :
  let ticks := [(350, megabytes 3000); (700, megabytes 3001); (1050, megabytes 100);
                (1400, megabytes 3002); (1750, megabytes 3003)] in
  notified (since started (timeouts_until 2 100000 (session 0%nat ticks started)))
  = [of_Z 3000; of_Z 3003].
Proof. reflexivity. Qed.

(** C4 as stated fails on sixteen ticks in the warning band, 350 ms
    apart (5250 ms, more than two windows of 2500 ms): the first and the
    last notification of each window would be those of ticks 0, 7, 8 and
    15, while only those of ticks 0 and 15 are written, the latter once
    the ticks have stopped. *)
Lemma sustained_warnings_not_windowed :
  let w' := timeouts_until 2 100000 (session 0%nat sustained started) in
  notified (since started w') = [of_Z 3000; of_Z 3015] /\
  spec_coalesce WARNING_WAIT (prod_map id toMB <$> sustained)
  = [of_Z 3000; of_Z 3007; of_Z 3008; of_Z 3015] /\
  notified (since started w')
  <> spec_coalesce WARNING_WAIT (prod_map id toMB <$> sustained).
Proof. repeat split. vm_compute. discriminate. Qed.

Lemma warnings_are_debounced_witness :
  let w' := session 0%nat sustained started in
  let later := [(5950, megabytes 100); (6300, megabytes 100)] in
  notified (since started w') = [of_Z 3000] /\
  notified (since w' (timeouts_until 2 8099 (session 0%nat later w'))) = [] /\
  notified (since w' (timeouts_until 2 8100 (session 0%nat later w'))) = [of_Z 3015].
Proof.
  intros w' later.
  assert (exists tick ticks, sustained = tick :: ticks /\ tick.1 = 350 /\
            last_tick tick ticks = (5600, megabytes 3015)) as (tick & ticks & Hs & Ht & Hl)
    by (do 2 eexists; repeat split).
  unfold w'. rewrite Hs.
  destruct (warnings_are_debounced 0%nat (monitor_of no_options 0%nat) started
              tick ticks) as (H1 & H2).
  - reflexivity.
  - reflexivity.
  - by eexists.
  - rewrite Ht. by split.
  - rewrite <- Hs. unfold sustained. simpl. repeat constructor.
  - injection Hs as <- <-. vm_compute. repeat split; discriminate.
  - rewrite Hl in H2.
    assert (forall T, 6300 <= T ->
              Forall (λ tick : time * number,
                        at_most_warning (monitor_of no_options 0%nat) tick.2 /\
                        (5600, megabytes 3015).1 <= tick.1 <= T) later) as Hlater.
    { intros T HT. unfold later. repeat constructor; cbn [fst]; lia. }
    destruct (H2 later 8099 ltac:(cbn [fst]; lia) (Hlater 8099 ltac:(lia))) as (H3 & _).
    destruct (H2 later 8100 ltac:(cbn [fst]; lia) (Hlater 8100 ltac:(lia))) as (_ & H4).
    rewrite H1, H3, H4.
    + injection Hs as <- <-. repeat split.
    + cbn [fst]. unfold WARNING_WAIT. lia.
    + cbn [fst]. unfold WARNING_WAIT. lia.
Defined.

(* ===================================================================== *)
(** ** The properties at work on a session *)
(* ===================================================================== *)

Lemma running_max_is_a_ratchet_witness :
  exists w',
    run (ticks_of 0%nat [(350, 50); (700, 200); (1050, 80); (1400, 300); (1750, 100)])
        started = Some w' /\
    running_max 0%nat w' = Some (of_Z 300, 1400).
Proof.
  destruct (running_max_is_a_ratchet 0%nat (monitor_of no_options 0%nat) started eq_refl)
    as (_ & _ & H).
  apply (H 0 350 700 1050 1400 1750); reflexivity.
Defined.

(** C2 as stated fails on a tick that takes the fatal path: in a process
    started without options, a first tick that reads 5000 MB exceeds the
    stored maximum 0, and the maximum stays 0, dated by the start, since
    the callback ends in [process.exit] before it reaches the update. *)
Lemma fatal_tick_exceeds_and_is_not_recorded :
  (exists w',
     interval_fires 0%nat 350 (megabytes 5000) started = Some w' /\
     running_max 0%nat started = Some (of_Z 0, 0) /\
     gt (Num (toMB (megabytes 5000))) (Num (of_Z 0)) = true /\
     running_max 0%nat w' = Some (of_Z 0, 0)) /\
  ~ (forall (h : handle) (c : closure) (w w' : world) (t : time) (r : number)
            (old : number * time),
       intervals w !! h = Some c ->
       running_max (c_infos c) w = Some old ->
       interval_fires h t r w = Some w' ->
       running_max (c_infos c) w'
       = Some (if gt (Num (toMB r)) (Num old.1) then (toMB r, t) else old)).
Proof.
  assert (exists w',
            interval_fires 0%nat 350 (megabytes 5000) started = Some w' /\
            running_max 0%nat w' = Some (of_Z 0, 0)) as (w' & Hf & Hmax).
  { rewrite (interval_fires_fatal 0%nat (monitor_of no_options 0%nat) 350
               (megabytes 5000) started eq_refl eq_refl eq_refl).
    eexists. split; [reflexivity|]. reflexivity. }
  split.
  - exists w'. repeat split; done.
  - intros H.
    specialize (H 0%nat (monitor_of no_options 0%nat) started w' 350
                  (megabytes 5000) (of_Z 0, 0) eq_refl eq_refl Hf).
    cbn [c_infos monitor_of] in H. rewrite Hmax in H.
    change (gt _ _) with true in H. cbv iota in H.
    pose proof (f_equal (fun x => match x with Some p => p.2 | None => 0 end) H) as H'.
    change (0 = 350) in H'. discriminate H'.
Qed.

Lemma fatal_path_witness :
  exists w',
    interval_fires 0%nat 350 (megabytes 5000) started = Some w' /\
    exits (since started w') = [1] /\ exit_code w' = Some 1.
Proof.
  destruct (interval_fires 0%nat 350 (megabytes 5000) started) as [w'|] eqn:E;
    [|vm_compute in E; discriminate].
  exists w'. split; [done|].
  destruct (fatal_path 0%nat (monitor_of no_options 0%nat) 350 (megabytes 5000)
              started w' eq_refl E) as (H & _).
  destruct (H eq_refl) as (_ & _ & _ & He & _ & Hc). by split.
Defined.

Lemma fatal_tick_leaves_maximum_witness :
  exists w',
    interval_fires 0%nat 350 (megabytes 5000) started = Some w' /\
    running_max 0%nat w' = Some (of_Z 0, 0).
Proof.
  destruct (interval_fires 0%nat 350 (megabytes 5000) started) as [w'|] eqn:E;
    [|vm_compute in E; discriminate].
  exists w'. split; [done|].
  destruct (fatal_tick_leaves_maximum 0%nat (monitor_of no_options 0%nat) 350
              (megabytes 5000) started w' eq_refl eq_refl E) as (_ & _ & _ & H & _).
  simpl in H. rewrite H. reflexivity.
Defined.

Lemma timer_cancelled_before_report_witness :
  let p := plugin_of no_options 0%nat in
  exists w,
    run (ticks_of 0%nat [(350, 50); (700, 200); (1050, 80)]) started = Some w /\
    notified (emitted (finalCallback p) w) = [] /\
    published (emitted (finalCallback p) w) = [Info] /\
    forall ks w', run ks (finalCallback p w).2 = Some w' ->
                  running_max 0%nat w' = Some (of_Z 200, 700).
Proof.
  intros p.
  destruct (run (ticks_of 0%nat [(350, 50); (700, 200); (1050, 80)]) started)
    as [w|] eqn:Hrun; [|vm_compute in Hrun; discriminate].
  exists w. split; [done|].
  destruct (timer_cancelled_before_report no_options (boot 0 "/app" None) w _
              ltac:(intros h c; simpl; by rewrite lookup_empty) Hrun)
    as (_ & maximum & date & Hmax & He & _ & _ & Hlater).
  assert (running_max 0%nat w = Some (of_Z 200, 700)) as Hw
    by (revert Hrun; vm_compute; by intros [= <-]).
  simpl in Hmax. rewrite Hw in Hmax. injection Hmax as <- <-.
  change (plugin_of no_options (fresh_ref (boot 0 "/app" None))) with p in *.
  rewrite He. split; [|split].
  - unfold reported, logged. by destruct (env_truthy _).
  - change (clear_interval ?x :: ?l) with ([clear_interval x] ++ l).
    by rewrite !published_app, published_reported.
  - exact Hlater.
Defined.

(* ===================================================================== *)
(** ** The console and the subject *)
(* ===================================================================== *)

Lemma messages_app l l' : messages (l ++ l') = messages l ++ messages l'.
Proof. induction l as [|[] l IH]; simpl; by rewrite ?IH. Qed.

Lemma consoles_app l l' : consoles (l ++ l') = consoles l ++ consoles l'.
Proof. induction l as [|[] l IH]; simpl; by rewrite ?IH. Qed.

Lemma mirrored_nil log : mirrored log [].
Proof. unfold mirrored. by destruct log. Qed.

Lemma mirrored_other log evs :
  messages evs = [] -> consoles evs = [] -> mirrored log evs.
Proof. unfold mirrored. intros -> ->. by destruct log. Qed.

Lemma mirrored_app log l l' : mirrored log l -> mirrored log l' -> mirrored log (l ++ l').
Proof.
  unfold mirrored. intros H H'. rewrite consoles_app, messages_app, H, H'.
  destruct log; [by rewrite fmap_app | done].
Qed.

Lemma mirrored_reported w k t :
  mirrored (env_truthy (MONITORING_LOG_ENABLED w))
           (reported w k (logger_of k).1 (logger_of k).2 t).
Proof. unfold mirrored, reported, logged. destruct (env_truthy _), k; done. Qed.

Lemma mirrored_warnings w calls :
  mirrored (env_truthy (MONITORING_LOG_ENABLED w)) (warnings w calls).
Proof.
  induction calls as [|a calls IH]; [apply mirrored_nil|].
  rewrite warnings_cons. apply mirrored_app; [|done].
  apply (mirrored_reported w Warning).
Qed.

(** What the callback of a monitor writes. *)
Lemma out_interval_callback c w :
  exists evs,
    out (interval_callback c w).2 = out w ++ evs /\
    MONITORING_LOG_ENABLED (interval_callback c w).2 = MONITORING_LOG_ENABLED w /\
    mirrored (env_truthy (MONITORING_LOG_ENABLED w)) evs.
Proof.
  set (memUsage := toMB (rss w)).
  destruct (gt (Num memUsage) (c_MEMORY_ERROR_MAX_SIZE c)) eqn:Hf.
  - rewrite interval_callback_fatal by done. eexists. split; [done|]. split; [done|].
    apply mirrored_app; [apply (mirrored_reported w Error) | by apply mirrored_other].
  - set (evs := if gt (Num memUsage) (c_MEMORY_WARNING_MAX_SIZE c)
                then warnings w (Lodash.debounced WARNING_WAIT true (warn_closure w)
                                   (clock w) (memUsage, c_MEMORY_WARNING_MAX_SIZE c)).1
                else []).
    exists evs.
    assert (mirrored (env_truthy (MONITORING_LOG_ENABLED w)) evs) as Hm
      by (unfold evs; destruct (gt _ (c_MEMORY_WARNING_MAX_SIZE c));
          [apply mirrored_warnings | apply mirrored_nil]).
    split; [|split; [|done]].
    + destruct (heap w !! c_infos c) as [i|] eqn:Hi.
      * rewrite (interval_callback_running c w i) by done. fold memUsage. cbv zeta.
        unfold evs.
        destruct (gt _ (c_MEMORY_WARNING_MAX_SIZE c)), (gt _ (Num _)); simpl;
          by rewrite ?app_nil_r.
      * unfold interval_callback, bind, memoryUsage_rss. fold memUsage.
        rewrite Hf. unfold when at 1. unfold ret at 1. unfold evs.
        destruct (gt (Num memUsage) (c_MEMORY_WARNING_MAX_SIZE c)); unfold when at 1.
        -- rewrite warningMemoryLimit_spec. unfold deref. simpl. by rewrite Hi.
        -- unfold ret at 1, deref. rewrite Hi. simpl. by rewrite app_nil_r.
    + destruct (heap w !! c_infos c) as [i|] eqn:Hi.
      * rewrite (interval_callback_running c w i) by done. fold memUsage. cbv zeta.
        by destruct (gt _ (c_MEMORY_WARNING_MAX_SIZE c)), (gt _ (Num _)).
      * unfold interval_callback, bind, memoryUsage_rss. fold memUsage.
        rewrite Hf. unfold when at 1. unfold ret at 1.
        destruct (gt (Num memUsage) (c_MEMORY_WARNING_MAX_SIZE c)); unfold when at 1.
        -- rewrite warningMemoryLimit_spec. unfold deref. simpl. by rewrite Hi.
        -- unfold ret at 1, deref. by rewrite Hi.
Qed.

Lemma out_writes m w evs :
  writes m w evs ->
  out (m w).2 = out w ++ evs /\
  MONITORING_LOG_ENABLED (m w).2 = MONITORING_LOG_ENABLED w.
Proof. unfold writes. by intros ->. Qed.

Lemma out_checkNodeModulesSize limit measured w :
  exists k t,
    writes (checkNodeModulesSize limit measured) w
           (reported w k (logger_of k).1 (logger_of k).2 t).
Proof.
  destruct (ToBoolean limit && gt (Num measured) limit) eqn:E.
  - apply andb_true_iff in E. exists Error. eexists.
    apply checkNodeModulesSize_exceeded; apply E.
  - exists Info. eexists. by apply checkNodeModulesSize_within.
Qed.

Lemma out_checkBundleSizes limit measured w :
  exists k t,
    writes (checkBundleSizes limit measured) w
           (reported w k (logger_of k).1 (logger_of k).2 t).
Proof.
  destruct (ToBoolean limit && gt (Num measured) limit) eqn:E.
  - apply andb_true_iff in E. exists Error. eexists.
    apply checkBundleSizes_exceeded; apply E.
  - exists Info. eexists. by apply checkBundleSizes_within.
Qed.

Lemma out_finalCallback_then p bundle node_modules w :
  exists evs,
    out (finalCallback_then p bundle node_modules w).2 = out w ++ evs /\
    MONITORING_LOG_ENABLED (finalCallback_then p bundle node_modules w).2
    = MONITORING_LOG_ENABLED w /\
    mirrored (env_truthy (MONITORING_LOG_ENABLED w)) evs.
Proof.
  destruct (out_checkNodeModulesSize (p_NODE_MODULES_MAX_SIZE p) (toMB node_modules) w)
    as (k & t & H).
  destruct (out_checkBundleSizes (p_BUNDLE_MAX_SIZE p) (toMB bundle)
              (with_out w (out w ++ reported w k (logger_of k).1 (logger_of k).2 t)))
    as (k' & t' & H').
  destruct (out_writes _ _ _ (writes_bind _ (fun _ => _) _ _ _ H H')) as (Ho & He).
  eexists. split; [exact Ho|]. split; [exact He|].
  apply mirrored_app; [apply mirrored_reported|].
  apply (mirrored_reported (with_out w _)).
Qed.

(** What one step of the event loop writes: the log setting stays, and
    the console mirrors the subject. *)
Lemma out_step k w w' :
  step k w = Some w' ->
  exists evs,
    out w' = out w ++ evs /\
    MONITORING_LOG_ENABLED w' = MONITORING_LOG_ENABLED w /\
    mirrored (env_truthy (MONITORING_LOG_ENABLED w)) evs.
Proof.
  destruct k as [h t x| |limit pkg|p|p b n]; cbn [step];
    unfold interval_fires, timeout_fires, resumes; destruct (alive w); try done.
  - destruct (intervals w !! h) as [c|]; [|done]. intros [= <-].
    apply (out_interval_callback c (with_inputs w t x)).
  - destruct (Lodash.timerId _) as [due|]; [|done]. intros [= <-].
    rewrite warningMemoryLimit_timerExpired_spec. eexists. split; [done|]. split; [done|].
    apply (mirrored_warnings (with_inputs w due (rss w))).
  - intros [= <-].
    destruct (gt (Num (of_nat (nbOfNodeModulesDeps pkg))) limit) eqn:Eg.
    + destruct (out_writes _ _ _ (checkNbOfNodeModulesDeps_then_exceeded _ _ w Eg))
        as (Ho & He).
      eexists. split; [exact Ho|]. split; [exact He|]. apply (mirrored_reported w Error).
    + destruct (out_writes _ _ _ (checkNbOfNodeModulesDeps_then_within _ _ w Eg))
        as (Ho & He).
      eexists. split; [exact Ho|]. split; [exact He|]. apply (mirrored_reported w Info).
  - intros [= <-]. destruct (heap w !! p_infos p) as [i|] eqn:Hi.
    + rewrite (finalCallback_spec p w i Hi). eexists. split; [done|]. split; [done|].
      apply (mirrored_app _ [_]); [by apply mirrored_other|].
      apply mirrored_app; [apply (mirrored_reported w Info) | by apply mirrored_other].
    + rewrite finalCallback_dangling by done. exists []. rewrite app_nil_r.
      split; [done|]. split; [done | apply mirrored_nil].
  - intros [= <-]. apply out_finalCallback_then.
Qed.

Lemma mirrored_monitoring options w :
  mirrored (env_truthy (MONITORING_LOG_ENABLED (logging options w)))
           (emitted (monitoring options) w).
Proof.
  rewrite emitted_monitoring, emitted_checkNbOfNodeModulesDeps.
  apply mirrored_app; [|apply (mirrored_app _ [_])].
  - destruct (gt _ _); [apply (mirrored_reported _ Error) | apply mirrored_nil].
  - by apply mirrored_other.
  - destruct (ToBoolean _); by apply mirrored_other.
Qed.

(** X1: whatever the event loop runs, the console shows exactly the
    messages published on [subject] in that step, in the same order,
    each through the logger of its key ([console.error] in red for an
    error, [console.log] on yellow for a warning, [console.log] in green
    for an information), when [MONITORING_LOG_ENABLED] is set to a
    non-empty string, and nothing when it is not; [monitoring] itself
    does the same, under the setting that its [LOG] option leaves. *)
Theorem console_mirrors_subject (k : task) (w w' : world) :
  step k w = Some w' ->
  consoles (since w w')
  = (if env_truthy (MONITORING_LOG_ENABLED w)
     then (λ m, (logger_of m.1, m.2)) <$> messages (since w w')
     else []) /\
  (forall options w0,
     consoles (emitted (monitoring options) w0)
     = if env_truthy (MONITORING_LOG_ENABLED (logging options w0))
       then (λ m, (logger_of m.1, m.2)) <$> messages (emitted (monitoring options) w0)
       else []).
Proof.
  intros Hk. split.
  - destruct (out_step k w w' Hk) as (evs & Ho & _ & Hm).
    by rewrite (since_app w w' evs Ho).
  - intros options w0. apply mirrored_monitoring.
Qed.

Lemma env_run ks w w' :
  run ks w = Some w' -> MONITORING_LOG_ENABLED w' = MONITORING_LOG_ENABLED w.
Proof.
  revert w. induction ks as [|k ks IH]; intros w; simpl.
  - by intros [= <-].
  - destruct (step k w) as [w1|] eqn:Hk; [|done]. intros Hrun.
    destruct (out_step k w w1 Hk) as (evs & _ & He & _).
    rewrite (IH w1 Hrun). exact He.
Qed.

(** X2: the [LOG] option only ever enables logging.  After
    [monitoring(options)], and whatever the event loop runs afterwards,
    [MONITORING_LOG_ENABLED] is ['true'] if [LOG] was true or omitted,
    and is what it was before the call if [LOG] was false: [LOG: false]
    does not silence a process in which the variable is already set. *)
Theorem log_option_only_enables
    (options : MonitoringOptions) (w w' : world) (ks : list task) :
  run ks (monitoring options w).2 = Some w' ->
  MONITORING_LOG_ENABLED w'
  = if nullish (LOG options) true then Some "true"%string
    else MONITORING_LOG_ENABLED w.
Proof.
  intros Hrun. rewrite (env_run _ _ _ Hrun), monitoring_spec. simpl.
  unfold logging. by destruct (nullish _ _).
Qed.

Lemma console_mirrors_subject_witness :
  exists w',
    step (Tick 0%nat 350 (megabytes 3000)) started = Some w' /\
    consoles (since started w')
    = [(c_log, bgYellow,
        WARNING_MEMORY_CONSUMPTION_at 350 (of_Z 3000, Num (of_Z 2950)))].
Proof.
  destruct (step (Tick 0%nat 350 (megabytes 3000)) started) as [w'|] eqn:E;
    [|vm_compute in E; discriminate].
  exists w'. split; [done|].
  destruct (console_mirrors_subject _ _ _ E) as (-> & _).
  revert E. vm_compute. by intros [= <-].
Defined.

Lemma log_option_only_enables_witness :
  let options := {| MEMORY_WARNING_MAX_SIZE := Undefined;
                    MEMORY_ERROR_MAX_SIZE := Undefined;
                    BUNDLE_ROOT_FOLDER_PATH := None;
                    BUNDLE_MAX_SIZE := Undefined;
                    NODE_MODULES_MAX_SIZE := Undefined;
                    NB_NODE_MODULES_MAX := Undefined;
                    INTERVAL_CHECK_MEMORY := Undefined;
                    LOG := Some false |} in
  exists w',
    run [Tick 1%nat 400 (megabytes 3000)] (monitoring options started).2 = Some w' /\
    MONITORING_LOG_ENABLED w' = Some "true"%string.
Proof.
  intros options.
  destruct (run [Tick 1%nat 400 (megabytes 3000)] (monitoring options started).2)
    as [w'|] eqn:E; [|vm_compute in E; discriminate].
  exists w'. split; [done|].
  by rewrite (log_option_only_enables options started w' _ E).
Defined.

(* ===================================================================== *)
(** ** Thresholds and limits at their edges *)
(* ===================================================================== *)

(** The callback of a monitor whose [infos] object is not there stops
    at the first property it reads of it. *)
Lemma interval_callback_dangling c w :
  let memUsage := toMB (rss w) in
  gt (Num memUsage) (c_MEMORY_ERROR_MAX_SIZE c) = false ->
  heap w !! c_infos c = None ->
  interval_callback c w
  = (None, if gt (Num memUsage) (c_MEMORY_WARNING_MAX_SIZE c)
           then warned memUsage (c_MEMORY_WARNING_MAX_SIZE c) w else w).
Proof.
  intros memUsage Hf Hi.
  unfold interval_callback, bind, memoryUsage_rss. fold memUsage. rewrite Hf.
  unfold when at 1. unfold ret at 1.
  destruct (gt (Num memUsage) (c_MEMORY_WARNING_MAX_SIZE c)); unfold when at 1.
  - rewrite warningMemoryLimit_spec. fold (warned memUsage (c_MEMORY_WARNING_MAX_SIZE c) w).
    unfold deref. simpl. by rewrite Hi.
  - unfold ret at 1, deref. by rewrite Hi.
Qed.

(** A tick either takes the fatal path, or requests the warning if its
    sample exceeds the warning threshold and goes on. *)
Lemma interval_fires_cases h c t r w w' :
  intervals w !! h = Some c ->
  interval_fires h t r w = Some w' ->
  let memUsage := toMB r in
  let d := Lodash.debounced WARNING_WAIT true (warn_closure w) t
                            (memUsage, c_MEMORY_WARNING_MAX_SIZE c) in
  (gt (Num memUsage) (c_MEMORY_ERROR_MAX_SIZE c) = true /\
   since w w' = reported w Error c_error red
                  (ERROR_MEMORY_CONSUMPTION_at t memUsage (c_MEMORY_ERROR_MAX_SIZE c))
                ++ [process_exit 1] /\
   exit_code w' = Some 1 /\ warn_closure w' = warn_closure w) \/
  (gt (Num memUsage) (c_MEMORY_ERROR_MAX_SIZE c) = false /\
   since w w' = (if gt (Num memUsage) (c_MEMORY_WARNING_MAX_SIZE c)
                 then warnings (with_inputs w t r) d.1 else []) /\
   exit_code w' = None /\
   warn_closure w' = if gt (Num memUsage) (c_MEMORY_WARNING_MAX_SIZE c)
                     then d.2 else warn_closure w).
Proof.
  intros Hh Hf memUsage d.
  destruct (interval_fires_Some _ _ _ _ _ Hf) as (Ha & _).
  pose proof (since_interval_fires h c t r w w' Hh Hf) as Hs.
  destruct (gt (Num memUsage) (c_MEMORY_ERROR_MAX_SIZE c)) eqn:Hg; [left|right].
  - split; [done|]. rewrite Hs, emitted_interval_callback_fatal by done.
    rewrite (interval_fires_fatal h c t r w Ha Hh Hg) in Hf. injection Hf as <-.
    done.
  - split; [done|]. rewrite Hs, emitted_interval_callback_running by done.
    split; [done|].
    revert Hf. unfold interval_fires, alive. rewrite Ha, Hh. simpl. intros [= <-].
    destruct (heap w !! c_infos c) as [i|] eqn:Hi.
    + rewrite (interval_callback_running c (with_inputs w t r) i) by done.
      fold memUsage. cbv zeta.
      by destruct (gt _ (c_MEMORY_WARNING_MAX_SIZE c)), (gt _ (Num _)).
    + rewrite (interval_callback_dangling c (with_inputs w t r)) by done.
      fold memUsage. by destruct (gt _ (c_MEMORY_WARNING_MAX_SIZE c)).
Qed.

Lemma gt_irrefl (x : number) : gt (Num x) (Num x) = false.
Proof. apply lt_irrefl. Qed.

Lemma published_emitted_within m w k ty c t :
  writes m w (reported w k ty c t) -> published (emitted m w) = [k].
Proof. intros H. by rewrite (writes_emitted _ _ _ H), published_reported. Qed.

(** X4: every limit is inclusive.  A size equal to its limit and a
    number of dependencies equal to its maximum are reported as
    information, not as an error; a memory sample equal to the fatal
    threshold does not end the process, and a sample equal to the
    warning threshold requests no warning. *)
Theorem limit_itself_is_within_limit
    (h : handle) (c : closure) (t : time) (r : number) (w w' : world) :
  intervals w !! h = Some c ->
  interval_fires h t r w = Some w' ->
  (c_MEMORY_ERROR_MAX_SIZE c = Num (toMB r) ->
     exit_code w' = None /\ exits (since w w') = []) /\
  (c_MEMORY_WARNING_MAX_SIZE c = Num (toMB r) ->
     warn_closure w' = warn_closure w /\ notified (since w w') = []) /\
  (forall x w0, published (emitted (checkBundleSizes (Num x) x) w0) = [Info]) /\
  (forall x w0, published (emitted (checkNodeModulesSize (Num x) x) w0) = [Info]) /\
  (forall packageJson w0,
     let nb := of_nat (nbOfNodeModulesDeps packageJson) in
     published (emitted (checkNbOfNodeModulesDeps_then (Num nb) packageJson) w0)
     = [Info]).
Proof.
  intros Hh Hf.
  destruct (interval_fires_cases h c t r w w' Hh Hf)
    as [(Hg & Hs & He & Hw)|(Hg & Hs & He & Hw)].
  all: split; [|split; [|split; [|split]]].
  - intros Heq. rewrite Heq, gt_irrefl in Hg. done.
  - intros Heq. split; [done|]. rewrite Hs. unfold reported, logged.
    by destruct (env_truthy _).
  - intros x w0. eapply published_emitted_within.
    apply checkBundleSizes_within. by rewrite gt_irrefl, andb_false_r.
  - intros x w0. eapply published_emitted_within.
    apply checkNodeModulesSize_within. by rewrite gt_irrefl, andb_false_r.
  - intros pkg w0 nb. eapply published_emitted_within.
    apply checkNbOfNodeModulesDeps_then_within. apply gt_irrefl.
  - intros Heq. split; [done|]. rewrite Hs.
    destruct (gt _ (c_MEMORY_WARNING_MAX_SIZE c)); [apply exits_warnings | done].
  - intros Heq. rewrite Heq, gt_irrefl in Hs, Hw. by rewrite Hs.
  - intros x w0. eapply published_emitted_within.
    apply checkBundleSizes_within. by rewrite gt_irrefl, andb_false_r.
  - intros x w0. eapply published_emitted_within.
    apply checkNodeModulesSize_within. by rewrite gt_irrefl, andb_false_r.
  - intros pkg w0 nb. eapply published_emitted_within.
    apply checkNbOfNodeModulesDeps_then_within. apply gt_irrefl.
Qed.

(** X5: a threshold that is not given is never crossed.  When
    [checkMemoryUsage] is called without [MEMORY_ERROR_MAX_SIZE], no
    tick of its timer ends the process; without
    [MEMORY_WARNING_MAX_SIZE], no tick requests the warning; without
    either, a tick writes nothing at all. *)
Theorem threshold_not_given_is_never_crossed
    (h : handle) (c : closure) (t : time) (r : number) (w w' : world) :
  intervals w !! h = Some c ->
  interval_fires h t r w = Some w' ->
  (forall warning delay w0,
     intervals (checkMemoryUsage warning Undefined delay w0).2 !! fresh_handle w0
     = Some {| c_MEMORY_WARNING_MAX_SIZE := warning;
               c_MEMORY_ERROR_MAX_SIZE := Undefined;
               c_infos := fresh_ref w0 |}) /\
  (c_MEMORY_ERROR_MAX_SIZE c = Undefined ->
     exit_code w' = None /\ exits (since w w') = []) /\
  (c_MEMORY_WARNING_MAX_SIZE c = Undefined ->
     warn_closure w' = warn_closure w /\ notified (since w w') = []) /\
  (c_MEMORY_ERROR_MAX_SIZE c = Undefined ->
   c_MEMORY_WARNING_MAX_SIZE c = Undefined ->
     since w w' = []).
Proof.
  intros Hh Hf.
  split; [intros; rewrite checkMemoryUsage_spec; apply lookup_insert_eq|].
  destruct (interval_fires_cases h c t r w w' Hh Hf)
    as [(Hg & Hs & He & Hw)|(Hg & Hs & He & Hw)].
  - split; [|split].
    + intros Heq. by rewrite Heq in Hg.
    + intros Heq. split; [done|]. rewrite Hs. unfold reported, logged.
      by destruct (env_truthy _).
    + intros Heq. by rewrite Heq in Hg.
  - split; [|split].
    + intros Heq. split; [done|]. rewrite Hs.
      destruct (gt _ (c_MEMORY_WARNING_MAX_SIZE c)); [apply exits_warnings | done].
    + intros Heq. rewrite Heq in Hs, Hw. by rewrite Hs.
    + intros _ Heq. rewrite Heq in Hs. done.
Qed.

(** X6: a monitor whose warning threshold is above its fatal threshold
    never warns: a sample above the warning threshold is above the fatal
    one as well, so a tick either ends the process or writes nothing. *)
Theorem misconfigured_monitor_never_warns
    (h : handle) (c : closure) (t : time) (r : number) (w w' : world) :
  intervals w !! h = Some c ->
  gt (c_MEMORY_WARNING_MAX_SIZE c) (c_MEMORY_ERROR_MAX_SIZE c) = true ->
  interval_fires h t r w = Some w' ->
  let memUsage := toMB r in
  let limit := c_MEMORY_ERROR_MAX_SIZE c in
  since w w'
  = (if gt (Num memUsage) limit
     then reported w Error c_error red (ERROR_MEMORY_CONSUMPTION_at t memUsage limit)
          ++ [process_exit 1]
     else []) /\
  warn_closure w' = warn_closure w.
Proof.
  intros Hh Hmis Hf memUsage limit.
  destruct (interval_fires_cases h c t r w w' Hh Hf)
    as [(Hg & Hs & He & Hw)|(Hg & Hs & He & Hw)]; fold memUsage limit in Hg, Hs;
    fold memUsage in Hw; rewrite Hg.
  - done.
  - destruct (gt (Num memUsage) (c_MEMORY_WARNING_MAX_SIZE c)) eqn:Hwarn; [|done].
    exfalso.
    assert (gt (Num memUsage) limit = true) as Hg'
      by (apply (lt_trans _ _ _ Hmis Hwarn)).
    congruence.
Qed.

(** X3: the defaults take part in the check of the configuration.  With
    only [MEMORY_ERROR_MAX_SIZE] given, below the default warning
    threshold of 2950, or only [MEMORY_WARNING_MAX_SIZE] given, above
    the default fatal threshold of 4500, [monitoring] reports the
    thresholds as misconfigured, and the monitor it starts has the
    given threshold and the default of the other. *)
Theorem defaults_can_conflict (options : MonitoringOptions) (w : world) (x : number) :
  (MEMORY_WARNING_MAX_SIZE options = Undefined /\
   MEMORY_ERROR_MAX_SIZE options = Num x /\ lt x (of_Z 2950) = true) \/
  (MEMORY_WARNING_MAX_SIZE options = Num x /\
   MEMORY_ERROR_MAX_SIZE options = Undefined /\ lt (of_Z 4500) x = true) ->
  messages (emitted (monitoring options) w) = [(Error, WARNING_ABOVE_ERROR_TXT)] /\
  exists c,
    intervals (monitoring options w).2 !! fresh_handle w = Some c /\
    gt (c_MEMORY_WARNING_MAX_SIZE c) (c_MEMORY_ERROR_MAX_SIZE c) = true /\
    (c_MEMORY_WARNING_MAX_SIZE c = Num (of_Z 2950) /\ c_MEMORY_ERROR_MAX_SIZE c = Num x \/
     c_MEMORY_WARNING_MAX_SIZE c = Num x /\ c_MEMORY_ERROR_MAX_SIZE c = Num (of_Z 4500)).
Proof.
  intros H.
  assert (gt (c_MEMORY_WARNING_MAX_SIZE (monitor_of options (fresh_ref w)))
             (c_MEMORY_ERROR_MAX_SIZE (monitor_of options (fresh_ref w))) = true) as Hg
    by (destruct H as [(Hw & He & Hx)|(Hw & He & Hx)]; simpl; by rewrite Hw, He).
  split.
  - rewrite emitted_monitoring, Hg, emitted_checkNbOfNodeModulesDeps.
    rewrite !messages_app. unfold reported, logged.
    by destruct (env_truthy _), (ToBoolean _).
  - exists (monitor_of options (fresh_ref w)). split; [|split; [done|]].
    + rewrite monitoring_spec. apply lookup_insert_eq.
    + destruct H as [(Hw & He & Hx)|(Hw & He & Hx)]; simpl; rewrite Hw, He; tauto.
Qed.

Lemma limit_itself_is_within_limit_witness :
  exists w',
    interval_fires 0%nat 350 (megabytes 4500) started = Some w' /\
    toMB (megabytes 4500) = of_Z 4500 /\
    exit_code w' = None /\ exits (since started w') = [].
Proof.
  destruct (interval_fires 0%nat 350 (megabytes 4500) started) as [w'|] eqn:E;
    [|vm_compute in E; discriminate].
  exists w'. split; [done|]. split; [reflexivity|].
  destruct (limit_itself_is_within_limit 0%nat (monitor_of no_options 0%nat) 350
              (megabytes 4500) started w' eq_refl E) as (H & _).
  apply H. reflexivity.
Defined.

Lemma threshold_not_given_is_never_crossed_witness :
  let w := (checkMemoryUsage Undefined Undefined Undefined (boot 0 "/app" None)).2 in
  exists w',
    interval_fires 0%nat 1 (megabytes 100000) w = Some w' /\
    since w w' = [] /\ exit_code w' = None /\
    running_max 0%nat w' = Some (of_Z 100000, 1).
Proof.
  intros w.
  destruct (interval_fires 0%nat 1 (megabytes 100000) w) as [w'|] eqn:E;
    [|vm_compute in E; discriminate].
  exists w'. split; [done|].
  destruct (threshold_not_given_is_never_crossed 0%nat
              {| c_MEMORY_WARNING_MAX_SIZE := Undefined;
                 c_MEMORY_ERROR_MAX_SIZE := Undefined; c_infos := 0%nat |}
              1 (megabytes 100000) w w' eq_refl E) as (_ & H1 & _ & H2).
  split; [by apply H2|]. split; [by apply H1|].
  revert E. vm_compute. by intros [= <-].
Defined.

Lemma misconfigured_monitor_never_warns_witness :
  let options := {| MEMORY_WARNING_MAX_SIZE := Num (of_Z 5000);
                    MEMORY_ERROR_MAX_SIZE := Undefined;
                    BUNDLE_ROOT_FOLDER_PATH := None;
                    BUNDLE_MAX_SIZE := Undefined;
                    NODE_MODULES_MAX_SIZE := Undefined;
                    NB_NODE_MODULES_MAX := Undefined;
                    INTERVAL_CHECK_MEMORY := Undefined;
                    LOG := None |} in
  let w := (monitoring options (boot 0 "/app" None)).2 in
  exists w',
    interval_fires 0%nat 350 (megabytes 5200) w = Some w' /\
    published (since w w') = [Error].
Proof.
  intros options w.
  destruct (interval_fires 0%nat 350 (megabytes 5200) w) as [w'|] eqn:E;
    [|vm_compute in E; discriminate].
  exists w'. split; [done|].
  destruct (misconfigured_monitor_never_warns 0%nat (monitor_of options 0%nat) 350
              (megabytes 5200) w w' eq_refl eq_refl E) as (-> & _).
  change (gt _ _) with true. cbv iota. by rewrite published_app, published_reported.
Defined.

Lemma defaults_can_conflict_witness :
  let options := {| MEMORY_WARNING_MAX_SIZE := Undefined;
                    MEMORY_ERROR_MAX_SIZE := Num (of_Z 2000);
                    BUNDLE_ROOT_FOLDER_PATH := None;
                    BUNDLE_MAX_SIZE := Undefined;
                    NODE_MODULES_MAX_SIZE := Undefined;
                    NB_NODE_MODULES_MAX := Undefined;
                    INTERVAL_CHECK_MEMORY := Undefined;
                    LOG := None |} in
  messages (emitted (monitoring options) (boot 0 "/app" None))
  = [(Error, WARNING_ABOVE_ERROR_TXT)].
Proof.
  intros options.
  apply (defaults_can_conflict options (boot 0 "/app" None) (of_Z 2000)).
  left. repeat split.
Defined.

(* ===================================================================== *)
(** ** The order of numbers that are not negative *)
(* ===================================================================== *)

Lemma lt_le (x y : number) : lt x y = true -> le x y = true.
Proof.
  unfold lt, le, SFltb, SFleb. by destruct (SFcompare x y) as [[]|].
Qed.

Lemma le_refl (x : number) : not_negative x -> le x x = true.
Proof.
  destruct x as [[]|[]| |[] m e]; try done. intros _.
  unfold le, SFleb. simpl. fold_pos_compare.
  by rewrite Z.compare_refl, Pos.compare_refl.
Qed.

Lemma not_lt_le (x y : number) :
  not_negative x -> not_negative y -> lt x y = false -> le y x = true.
Proof.
  destruct x as [[]|[]| |[] mx ex], y as [[]|[]| |[] my ey]; try done.
  intros _ _. unfold lt, le, SFltb, SFleb. simpl. fold_pos_compare.
  destruct (Z.compare_spec ex ey), (Z.compare_spec ey ex); try done; try lia.
  destruct (Pos.compare_spec mx my), (Pos.compare_spec my mx); try done; lia.
Qed.

Lemma le_trans (x y z : number) : le x y = true -> le y z = true -> le x z = true.
Proof.
  unfold le, SFleb.
  destruct x as [sx|sx| |sx mx ex], y as [sy|sy| |sy my ey], z as [sz|sz| |sz mz ez];
    simpl; try discriminate;
    repeat match goal with s : bool |- _ => destruct s end; simpl;
    try discriminate; try reflexivity;
    fold_pos_compare;
    destruct (Z.compare_spec ex ey), (Z.compare_spec ey ez), (Z.compare_spec ex ez);
    try discriminate; try reflexivity; try lia;
    destruct (Pos.compare_spec mx my), (Pos.compare_spec my mz), (Pos.compare_spec mx mz);
    cbn [CompOpp]; try discriminate; try reflexivity; try lia.
Qed.

Lemma lt_not_negative (x y : number) :
  not_negative x -> lt x y = true -> not_negative y.
Proof. by destruct x as [[]|[]| |[] mx ex], y as [[]|[]| |[] my ey]. Qed.
(* ===================================================================== *)
(** ** The maximum that is reported *)
(* ===================================================================== *)

(** Nothing runs in a process that has exited. *)
Lemma run_exited ks w w' code :
  run ks w = Some w' -> exit_code w = Some code -> w' = w.
Proof.
  destruct ks as [|k ks]; simpl; [by intros [= <-]|].
  intros Hrun He.
  assert (step k w = None) as Hk; [|by rewrite Hk in Hrun].
  destruct k; simpl; unfold interval_fires, timeout_fires, resumes, alive;
    by rewrite He.
Qed.

(** A timer that ticks later on is live now. *)
Lemma ticked_is_live ks w w' h t x :
  run ks w = Some w' -> In (Tick h t x) ks -> is_Some (intervals w !! h).
Proof.
  revert w. induction ks as [|k ks IH]; intros w; simpl; [done|].
  destruct (step k w) as [w1|] eqn:Hk; [|done]. intros Hrun [->|Hin].
  - destruct (interval_fires_Some _ _ _ _ _ Hk) as (_ & c & Hc). by exists c.
  - destruct (IH w1 Hrun Hin) as (c & Hc).
    exists c. by apply (intervals_step k w w1).
Qed.

Lemma ratchet_le old new :
  not_negative old.1 -> ratchet old new ->
  not_negative new.1 /\ le old.1 new.1 = true.
Proof.
  intros Hold [->|Hlt].
  - split; [done | by apply le_refl].
  - split; [by apply (lt_not_negative old.1) | by apply lt_le].
Qed.

(** Over a run that leaves the process running, the stored maximum ends
    at or above every sample of its monitor. *)
Lemma running_max_dominates r ks : forall w w' old,
  running_max r w = Some old -> not_negative old.1 ->
  run ks w = Some w' -> exit_code w' = None ->
  exists new,
    running_max r w' = Some new /\ not_negative new.1 /\ le old.1 new.1 = true /\
    forall h c t x,
      In (Tick h t x) ks -> intervals w !! h = Some c -> c_infos c = r ->
      not_negative x -> le (toMB x) new.1 = true.
Proof.
  induction ks as [|k ks IH]; intros w w' old Hold Hpos; simpl.
  - intros [= <-] _. exists old. split; [done|]. split; [done|].
    split; [by apply le_refl | done].
  - destruct (step k w) as [w1|] eqn:Hk; [|done]. intros Hrun Hlive.
    destruct (running_max_step _ _ _ _ _ Hk Hold) as (mid & Hmid & Hr).
    destruct (ratchet_le _ _ Hpos Hr) as (Hpos1 & Hle1).
    destruct (IH w1 w' mid Hmid Hpos1 Hrun Hlive) as (new & Hnew & Hpos' & Hle' & Hall).
    exists new. split; [done|]. split; [done|].
    split; [by apply (le_trans _ mid.1)|].
    intros h c t x [->|Hin] Hc Hr' Hx.
    + apply (le_trans _ mid.1); [|done]. subst r.
      destruct (gt (Num (toMB x)) (c_MEMORY_ERROR_MAX_SIZE c)) eqn:Hg.
      * exfalso. destruct (interval_fires_Some _ _ _ _ _ Hk) as (Ha & _).
        simpl in Hk. rewrite (interval_fires_fatal h c t x w Ha Hc Hg) in Hk.
        injection Hk as <-.
        rewrite (run_exited ks _ w' 1 Hrun eq_refl) in Hlive. done.
      * destruct (running_max_tick h c t x w w1 old Hc Hold Hk Hg) as (Hm & _).
        rewrite Hm in Hmid. injection Hmid as <-.
        destruct (gt (Num (toMB x)) (Num old.1)) eqn:Hgt; simpl.
        -- by apply le_refl, toMB_not_negative.
        -- apply not_lt_le; [done | by apply toMB_not_negative | done].
    + destruct (ticked_is_live ks w1 w' h t x Hrun Hin) as (c' & Hc').
      pose proof (intervals_step k w w1 h c' Hk Hc') as Hc''.
      rewrite Hc in Hc''. injection Hc'' as <-.
      by apply (Hall h c t x).
Qed.

(** Over a run, the stored maximum of a monitor stays as it is or becomes
    a sample of the timer of that monitor, dated by its tick. *)
Lemma running_max_attained r h0 ks : forall w w' old,
  (forall h c, intervals w !! h = Some c -> c_infos c = r -> h = h0) ->
  running_max r w = Some old ->
  run ks w = Some w' ->
  exists new,
    running_max r w' = Some new /\
    (new = old \/ exists t x, In (Tick h0 t x) ks /\ new = (toMB x, t)).
Proof.
  induction ks as [|k ks IH]; intros w w' old Honly Hold; simpl.
  - intros [= <-]. exists old. split; [done | by left].
  - destruct (step k w) as [w1|] eqn:Hk; [|done]. intros Hrun.
    assert (forall h c, intervals w1 !! h = Some c -> c_infos c = r -> h = h0) as Honly1.
    { intros h c Hc. apply (Honly h c). by apply (intervals_step k w w1). }
    assert (exists mid, running_max r w1 = Some mid /\
              (mid = old \/ exists t x, k = Tick h0 t x /\ mid = (toMB x, t)))
      as (mid & Hmid & Hcase).
    { pose proof Hk as Hk'. apply step_callback in Hk'.
      destruct k as [h t x| |limit pkg|p|p b n].
      - destruct Hk' as (c & Hc & ->).
        destruct (decide (c_infos c = r)) as [Heq|Hne].
        + pose proof (Honly h c Hc Heq) as ->. subst r.
          destruct (gt (Num (toMB x)) (c_MEMORY_ERROR_MAX_SIZE c)) eqn:Hg.
          * exists old. split; [|by left].
            rewrite interval_callback_fatal by done. done.
          * destruct (running_max_tick h0 c t x w _ old Hc Hold Hk Hg) as (Hm & _).
            eexists. split; [exact Hm|].
            destruct (gt _ (Num old.1)); [right; by exists t, x | by left].
        + exists old. split; [|by left].
          by rewrite running_max_interval_callback_ne.
      - destruct Hk' as (due & _ & ->). exists old. split; [|by left].
        by rewrite warningMemoryLimit_timerExpired_spec.
      - exists old. split; [|by left]. by rewrite (running_max_heap _ _ _ (proj1 Hk')).
      - exists old. split; [|by left]. by rewrite (running_max_heap _ _ _ (proj1 Hk')).
      - exists old. split; [|by left]. by rewrite (running_max_heap _ _ _ (proj1 Hk')). }
    destruct (IH w1 w' mid Honly1 Hmid Hrun) as (new & Hnew & Hcase').
    exists new. split; [done|].
    destruct Hcase' as [->|(t & x & Hin & ->)].
    + destruct Hcase as [->|(t & x & -> & ->)]; [by left|].
      right. exists t, x. split; [by left | done].
    + right. exists t, x. split; [by right | done].
Qed.

(** X7: the maximum that [finalCallback] reports is the largest sample.
    After [monitoring], and whatever the event loop ran since without
    ending the process, the stored maximum is a number that is not
    negative, no sample of the monitor's timer exceeds it, and it is
    either the initial 0, dated by the call of [monitoring], or one of
    these samples, dated by its tick. *)
Theorem reported_maximum_is_the_largest_sample
    (options : MonitoringOptions) (w0 w : world) (ks : list task) :
  (forall h c, intervals w0 !! h = Some c -> c_infos c <> fresh_ref w0) ->
  run ks (monitoring options w0).2 = Some w ->
  exit_code w = None ->
  let h := fresh_handle w0 in
  exists maximum date,
    running_max (fresh_ref w0) w = Some (maximum, date) /\
    le (of_Z 0) maximum = true /\
    (forall t x, In (Tick h t x) ks -> not_negative x ->
                 le (toMB x) maximum = true) /\
    ((maximum, date) = (of_Z 0, clock w0) \/
     exists t x, In (Tick h t x) ks /\ (maximum, date) = (toMB x, t)).
Proof.
  intros Hfresh Hrun Hlive h. rewrite monitoring_spec in Hrun. cbn [snd] in Hrun.
  set (w1 := with_out _ _) in Hrun.
  assert (running_max (fresh_ref w0) w1 = Some (of_Z 0, clock w0)) as Hold
    by (unfold running_max, w1; simpl; by rewrite lookup_insert_eq).
  assert (intervals w1 !! h = Some (monitor_of options (fresh_ref w0))) as Hh
    by (unfold w1; simpl; apply lookup_insert_eq).
  destruct (running_max_dominates _ ks w1 w _ Hold I Hrun Hlive)
    as ([maximum date] & Hnew & Hpos & Hle & Hall).
  assert (forall h' c, intervals w1 !! h' = Some c -> c_infos c = fresh_ref w0 -> h' = h)
    as Honly.
  { intros h' c. unfold w1. simpl. intros Hc Heq.
    destruct (decide (h' = h)) as [|Hne]; [done|]. exfalso.
    unfold h in Hne. rewrite lookup_insert_ne in Hc by done. by apply (Hfresh h' c). }
  destruct (running_max_attained (fresh_ref w0) h ks w1 w _ Honly Hold Hrun)
    as (new & Hnew' & Hcase).
  rewrite Hnew in Hnew'. injection Hnew' as <-.
  exists maximum, date. split; [done|]. split; [exact Hle|]. split; [|exact Hcase].
  intros t x Hin Hx. by apply (Hall h _ t x Hin Hh).
Qed.

Lemma reported_maximum_is_the_largest_sample_witness :
  let ks := ticks_of 0%nat [(350, 50); (700, 200); (1050, 80)] in
  exists w maximum date,
    run ks started = Some w /\
    running_max 0%nat w = Some (maximum, date) /\
    le (of_Z 0) maximum = true /\
    (forall t x, In (Tick 0%nat t x) ks -> not_negative x ->
                 le (toMB x) maximum = true) /\
    ((maximum, date) = (of_Z 0, 0) \/
     exists t x, In (Tick 0%nat t x) ks /\ (maximum, date) = (toMB x, t)).
Proof.
  intros ks.
  destruct (run ks started) as [w|] eqn:Hrun; [|vm_compute in Hrun; discriminate].
  assert (exit_code w = None) as Hlive
    by (revert Hrun; vm_compute; by intros [= <-]).
  destruct (reported_maximum_is_the_largest_sample no_options (boot 0 "/app" None) w ks
              ltac:(intros h c; simpl; by rewrite lookup_empty) Hrun Hlive)
    as (maximum & date & H).
  exists w, maximum, date. split; [reflexivity|]. exact H.
Defined.
(* ===================================================================== *)
(** ** Several monitors in one process *)
(* ===================================================================== *)


Lemma monitoring_state options w :
  let w' := (monitoring options w).2 in
  fresh_ref w' = S (fresh_ref w) /\
  fresh_handle w' = S (fresh_handle w) /\
  intervals w' = <[fresh_handle w := monitor_of options (fresh_ref w)]> (intervals w) /\
  heap w' = <[fresh_ref w := {| interval := Some (fresh_handle w);
                                tmpMaxMemoryConsumption := of_Z 0;
                                dateMaxMemoryConsumption := clock w |}]> (heap w) /\
  exit_code w' = exit_code w.
Proof.
  rewrite monitoring_spec. simpl. unfold logging. by destruct (nullish _ _).
Qed.

(** X9: the running maxima are per monitor.  Two calls of [monitoring]
    create two [infos] objects and two timers; a tick of one timer
    leaves the maximum of the other monitor as it is, and the
    [finalCallback] of one plugin clears its own timer only. *)
Theorem monitors_keep_separate_maxima
    (options1 options2 : MonitoringOptions) (w0 : world) :
  let w1 := (monitoring options1 w0).2 in
  let w2 := (monitoring options2 w1).2 in
  let r1 := fresh_ref w0 in
  let r2 := fresh_ref w1 in
  let h1 := fresh_handle w0 in
  let h2 := fresh_handle w1 in
  r1 <> r2 /\ h1 <> h2 /\
  intervals w2 !! h1 = Some (monitor_of options1 r1) /\
  intervals w2 !! h2 = Some (monitor_of options2 r2) /\
  (forall t x w', interval_fires h1 t x w2 = Some w' ->
                  running_max r2 w' = running_max r2 w2) /\
  (forall t x w', interval_fires h2 t x w2 = Some w' ->
                  running_max r1 w' = running_max r1 w2) /\
  (let w' := (finalCallback (plugin_of options1 r1) w2).2 in
   intervals w' !! h1 = None /\
   intervals w' !! h2 = Some (monitor_of options2 r2) /\
   running_max r2 w' = running_max r2 w2).
Proof.
  intros w1 w2 r1 r2 h1 h2.
  destruct (monitoring_state options1 w0) as (Hr & Hh & Hint1 & Hheap1 & _).
  destruct (monitoring_state options2 w1) as (_ & _ & Hint2 & Hheap2 & _).
  fold w1 in Hr, Hh, Hint1, Hheap1. fold w2 in Hint2, Hheap2.
  fold r1 r2 in Hr. fold h1 h2 in Hh. fold r1 h1 in Hint1, Hheap1.
  fold r2 h2 in Hint2, Hheap2.
  assert (r1 <> r2 /\ h1 <> h2) as (Hr' & Hh') by lia.
  assert (intervals w2 !! h1 = Some (monitor_of options1 r1)) as Hh1
    by (rewrite Hint2, lookup_insert_ne, Hint1, lookup_insert_eq; done).
  assert (intervals w2 !! h2 = Some (monitor_of options2 r2)) as Hh2
    by (rewrite Hint2; apply lookup_insert_eq).
  assert (heap w2 !! r1
          = Some {| interval := Some h1; tmpMaxMemoryConsumption := of_Z 0;
                    dateMaxMemoryConsumption := clock w0 |}) as Hheap
    by (rewrite Hheap2, lookup_insert_ne, Hheap1, lookup_insert_eq; done).
  split; [done|]. split; [done|]. split; [done|]. split; [done|].
  split; [|split].
  - intros t x w' Hf. revert Hf. unfold interval_fires.
    destruct (alive w2); [|done]. rewrite Hh1. intros [= <-].
    by rewrite running_max_interval_callback_ne.
  - intros t x w' Hf. revert Hf. unfold interval_fires.
    destruct (alive w2); [|done]. rewrite Hh2. intros [= <-].
    by rewrite running_max_interval_callback_ne.
  - rewrite (finalCallback_spec (plugin_of options1 r1) w2 _ Hheap). simpl.
    split; [apply lookup_delete_eq|].
    split; [by rewrite lookup_delete_ne|]. done.
Qed.



Lemma monitors_keep_separate_maxima_witness :
  let w2 := (monitoring no_options started).2 in
  exists w',
    interval_fires 0%nat 350 (megabytes 100) w2 = Some w' /\
    running_max 0%nat w' = Some (of_Z 100, 350) /\
    running_max 1%nat w' = Some (of_Z 0, 0).
Proof.
  intros w2.
  destruct (interval_fires 0%nat 350 (megabytes 100) w2) as [w'|] eqn:E;
    [|vm_compute in E; discriminate].
  exists w'. split; [done|].
  destruct (monitors_keep_separate_maxima no_options no_options (boot 0 "/app" None))
    as (_ & _ & _ & _ & H & _).
  split.
  - revert E. vm_compute. by intros [= <-].
  - exact (H 350 (megabytes 100) w' E).
Defined.


(* ===================================================================== *)
(** ** The checks at the end of the build *)
(* ===================================================================== *)

Lemma messages_reported w k ty c t : messages (reported w k ty c t) = [(k, t)].
Proof. unfold reported, logged. by destruct (env_truthy _). Qed.

(** X11: once the two folder sizes are there, [finalCallback] checks the
    size of [node_modules] and then the size of the bundle, each
    converted by [toMB]: it always publishes exactly two messages, in
    that order, each an error or an information by its own limit; an
    error of the first check does not keep the second from running, and
    the process is not made to exit. *)
Theorem final_checks_both_run
    (p : Plugin) (bundle node_modules : number) (w : world) :
  let bundleMB := toMB bundle in
  let nodeModuleMB := toMB node_modules in
  let w' := (finalCallback_then p bundle node_modules w).2 in
  (finalCallback_then p bundle node_modules w).1 = Some tt /\
  messages (since w w')
  = [if exceeds (p_NODE_MODULES_MAX_SIZE p) nodeModuleMB
     then (Error, ERROR_NODE_MODULE_SIZE_TXT nodeModuleMB (p_NODE_MODULES_MAX_SIZE p))
     else (Info, INFO_NODE_MODULE_SIZE_TXT nodeModuleMB (p_NODE_MODULES_MAX_SIZE p));
     if exceeds (p_BUNDLE_MAX_SIZE p) bundleMB
     then (Error, ERROR_BUNDLE_SIZE_TXT bundleMB (p_BUNDLE_MAX_SIZE p))
     else (Info, INFO_BUNDLE_SIZE_TXT bundleMB (p_BUNDLE_MAX_SIZE p))] /\
  exits (since w w') = [] /\
  w' = with_out w (out w ++ since w w').
Proof.
  intros bundleMB nodeModuleMB w'.
  assert (exists evs1 evs2,
            writes (finalCallback_then p bundle node_modules) w (evs1 ++ evs2) /\
            messages evs1
            = [if exceeds (p_NODE_MODULES_MAX_SIZE p) nodeModuleMB
               then (Error, ERROR_NODE_MODULE_SIZE_TXT nodeModuleMB
                              (p_NODE_MODULES_MAX_SIZE p))
               else (Info, INFO_NODE_MODULE_SIZE_TXT nodeModuleMB
                             (p_NODE_MODULES_MAX_SIZE p))] /\
            messages evs2
            = [if exceeds (p_BUNDLE_MAX_SIZE p) bundleMB
               then (Error, ERROR_BUNDLE_SIZE_TXT bundleMB (p_BUNDLE_MAX_SIZE p))
               else (Info, INFO_BUNDLE_SIZE_TXT bundleMB (p_BUNDLE_MAX_SIZE p))] /\
            exits evs1 = [] /\ exits evs2 = []) as (evs1 & evs2 & Hw & Hm1 & Hm2 & He1 & He2).
  { unfold finalCallback_then. fold bundleMB nodeModuleMB. unfold exceeds.
    destruct (ToBoolean (p_NODE_MODULES_MAX_SIZE p)
              && gt (Num nodeModuleMB) (p_NODE_MODULES_MAX_SIZE p)) eqn:En,
             (ToBoolean (p_BUNDLE_MAX_SIZE p)
              && gt (Num bundleMB) (p_BUNDLE_MAX_SIZE p)) eqn:Eb.
    all: apply andb_true_iff in En || idtac; apply andb_true_iff in Eb || idtac.
    all: do 2 eexists; split;
      [eapply writes_bind;
       [first [apply checkNodeModulesSize_exceeded; apply En
              | by apply checkNodeModulesSize_within]
       |first [apply (checkBundleSizes_exceeded _ _ (with_out w _)); apply Eb
              | by apply (checkBundleSizes_within _ _ (with_out w _))]]|].
    all: by rewrite !messages_reported, !exits_reported. }
  assert (since w w' = evs1 ++ evs2) as Hs
    by (apply since_app; unfold w'; by rewrite Hw).
  rewrite Hs, messages_app, exits_app, Hm1, Hm2, He1, He2.
  unfold w'. by rewrite Hw.
Qed.

(* ===================================================================== *)
(** ** Packages declared twice *)
(* ===================================================================== *)

Lemma size_inter_difference (X Y : gset string) :
  size Y = (size (Y ∖ X) + size (X ∩ Y))%nat.
Proof.
  rewrite <- size_union.
  - f_equal. apply set_eq. intros x.
    rewrite elem_of_union, elem_of_difference, elem_of_intersection.
    destruct (decide (x ∈ X)); tauto.
  - intros x Hx1 Hx2. apply elem_of_difference in Hx1 as [_ Hn].
    apply elem_of_intersection in Hx2 as [Hx _]. done.
Qed.

(** X12: a package that is declared under [dependencies] and under
    [devDependencies] counts twice: the number that
    [checkNbOfNodeModulesDeps] compares with its maximum is the number
    of distinct packages plus the number of packages declared in both
    sections. *)
Theorem shared_dependency_counts_twice (packageJson : manifest) :
  let deps := dom (nullish (dependencies packageJson) ∅) in
  let devDeps := dom (nullish (devDependencies packageJson) ∅) in
  nbOfNodeModulesDeps packageJson
  = (size (deps ∪ devDeps) + size (deps ∩ devDeps))%nat.
Proof.
  intros deps devDeps. unfold nbOfNodeModulesDeps.
  rewrite !length_Object_keys, <- !size_dom. fold deps devDeps.
  rewrite size_union_alt, (size_inter_difference deps devDeps). lia.
Qed.

(* ===================================================================== *)
(** ** Two-decimal numerals as numbers *)
(* ===================================================================== *)

(** The division that yields [n / 100], before rounding. *)
Lemma decimal_unfold (p : positive) :
  Zpos p < 2 ^ 53 ->
  let d := Zpos (digits2_pos p) in
  decimal (Zpos p) 2
  = binary_round_aux prec emax false (Zpos p * 2 ^ (60 - d) / 100) (d - 60)
      (new_location 100 ((Zpos p * 2 ^ (60 - d)) mod 100)).
Proof.
  intros Hp d. pose proof (Zdigits2_bounds p) as [Hl Hu]. fold d in Hl, Hu.
  assert (1 <= d <= 53) as Hd.
  { split; [unfold d; lia|].
    destruct (Z.le_gt_cases d 53) as [|Hgt]; [done|].
    assert (2 ^ 53 <= 2 ^ (d - 1)) by (apply Z.pow_le_mono_r; lia). lia. }
  unfold decimal. change (Z.to_pos (10 ^ Z.of_nat 2)) with 100%positive.
  unfold div, SFdiv, SFdiv_core_binary. simpl xorb.
  change (Zdigits2 (Zpos p)) with d. change (Zdigits2 100) with 7.
  rewrite fexp_normal by lia. rewrite Z.min_l by lia.
  replace (0 - 0 - (d + 0 - (7 + 0) - 53)) with (60 - d) by lia.
  destruct (60 - d) as [|s|s] eqn:Hs; [lia| |lia].
  rewrite Z.shiftl_mul_pow2 by lia.
  unfold Z.div, Z.modulo.
  destruct (Z.div_eucl (Zpos p * 2 ^ Zpos s) 100) as [q r].
  f_equal. lia.
Qed.

Lemma digits_below (p : positive) (D : Z) :
  0 < D -> Zpos p < 2 ^ D -> 1 <= Zpos (digits2_pos p) <= D.
Proof.
  intros HD Hp. pose proof (Zdigits2_bounds p) as [Hl Hu].
  split; [lia|].
  destruct (Z.le_gt_cases (Zpos (digits2_pos p)) D) as [|Hgt]; [done|].
  assert (2 ^ D <= 2 ^ (Zpos (digits2_pos p) - 1)) by (apply Z.pow_le_mono_r; lia).
  lia.
Qed.

(** The number that a numeral of hundredths denotes: its mantissa is
    the quotient by 100, scaled to 53 bits and cut, or one more. *)
Lemma decimal_canonical (p : positive) :
  Zpos p < 2 ^ 49 ->
  exists (m : positive) (s : Z),
    decimal (Zpos p) 2 = S754_finite false m (- s) /\
    9 <= s <= 59 /\
    2 ^ 52 <= Zpos m < 2 ^ 53 /\
    Zpos p * 2 ^ s / 100 <= Zpos m <= Zpos p * 2 ^ s / 100 + 1.
Proof.
  intros Hp.
  rewrite decimal_unfold by lia. cbv zeta.
  destruct (digits_below p 49 ltac:(lia) Hp) as [Hd1 Hd49].
  pose proof (Zdigits2_bounds p) as [Hl Hu].
  set (d := Zpos (digits2_pos p)) in *.
  set (a := Zpos p * 2 ^ (60 - d)).
  set (l := new_location 100 (a mod 100)).
  assert (2 ^ 59 <= a < 2 ^ 60) as Ha.
  { unfold a.
    replace (2 ^ 59) with (2 ^ (d - 1) * 2 ^ (60 - d))
      by (rewrite <- Z.pow_add_r by lia; f_equal; lia).
    replace (2 ^ 60) with (2 ^ d * 2 ^ (60 - d))
      by (rewrite <- Z.pow_add_r by lia; f_equal; lia).
    assert (0 < 2 ^ (60 - d)) by (apply Z.pow_pos_nonneg; lia).
    split; [apply Z.mul_le_mono_nonneg_r | apply Z.mul_lt_mono_pos_r]; lia. }
  assert (2 ^ 52 <= a / 100 < 2 ^ 54) as Hq.
  { split; [apply Z.div_le_lower_bound | apply Z.div_lt_upper_bound]; lia. }
  assert (a / 100 / 2 = Zpos p * 2 ^ (59 - d) / 100) as Hhalf.
  { unfold a. replace (60 - d) with (59 - d + 1) by lia.
    apply div_pow2_half; lia. }
  assert (a / 100 / 2 / 2 = Zpos p * 2 ^ (58 - d) / 100) as Hquarter.
  { rewrite Hhalf. replace (59 - d) with (58 - d + 1) by lia.
    apply div_pow2_half; lia. }
  destruct (a / 100) as [|pq|pq] eqn:Hpq; [lia| |lia].
  destruct (Z.lt_ge_cases (Zpos pq) (2 ^ 53)) as [H53|H54].
  - destruct (binary_round_aux_53 pq (d - 60) l) as (m & e & -> & Hm & Hcases & _);
      [lia | lia |].
    destruct Hcases as [(Hmq & ->)|[(Hmq & ->)|(Hcarry & Hmq & ->)]].
    + exists m, (60 - d). split; [f_equal; lia|]. split; [lia|]. split; [lia|].
      fold a. lia.
    + exists m, (60 - d). split; [f_equal; lia|]. split; [lia|]. split; [lia|].
      fold a. lia.
    + exists m, (59 - d). split; [f_equal; lia|]. split; [lia|]. split; [lia|].
      rewrite <- Hhalf, Hmq. replace (Zpos pq) with (2 ^ 53 - 1) by lia. done.
  - destruct (binary_round_aux_54 pq (d - 60) l) as (ph & l' & Hph & ->);
      [lia | lia |].
    assert (2 ^ 52 <= Zpos ph < 2 ^ 53) as Hph'.
    { rewrite Hph. split.
      - apply Z.div_le_lower_bound; lia.
      - apply Z.div_lt_upper_bound; lia. }
    destruct (binary_round_aux_53 ph (d - 60 + 1) l') as (m & e & -> & Hm & Hcases & _);
      [lia | lia |].
    destruct Hcases as [(Hmq & ->)|[(Hmq & ->)|(Hcarry & Hmq & ->)]].
    + exists m, (59 - d). split; [f_equal; lia|]. split; [lia|]. split; [lia|]. lia.
    + exists m, (59 - d). split; [f_equal; lia|]. split; [lia|]. split; [lia|]. lia.
    + exists m, (58 - d). split; [f_equal; lia|]. split; [lia|]. split; [lia|].
      rewrite <- Hquarter, <- Hph, Hmq. replace (Zpos ph) with (2 ^ 53 - 1) by lia. done.
Qed.

Lemma lt_finite (m m' : positive) (e e' : Z) :
  e < e' \/ (e = e' /\ Zpos m < Zpos m') ->
  lt (S754_finite false m e) (S754_finite false m' e') = true.
Proof.
  intros H. unfold lt, SFltb. simpl. fold_pos_compare.
  destruct (Z.compare_spec e e'); [|done|lia].
  destruct (Pos.compare_spec m m'); [lia|done|lia].
Qed.

(** The numbers of two numerals of hundredths are in the order of the
    numerals. *)
Lemma decimal_lt (n n' : Z) :
  0 <= n < n' -> n' < 2 ^ 49 -> lt (decimal n 2) (decimal n' 2) = true.
Proof.
  intros Hn Hn'.
  destruct n' as [|p'|p']; [lia| |lia].
  destruct (decimal_canonical p' Hn') as (m' & s' & -> & Hs' & Hm' & Hq').
  destruct n as [|p|p]; [done| |lia].
  destruct (decimal_canonical p ltac:(lia)) as (m & s & -> & Hs & Hm & Hq).
  apply lt_finite.
  assert (512 <= 2 ^ s) as HP by (change 512 with (2 ^ 9); apply Z.pow_le_mono_r; lia).
  assert (512 <= 2 ^ s') as HP' by (change 512 with (2 ^ 9); apply Z.pow_le_mono_r; lia).
  pose proof (Z.mul_div_le (Zpos p * 2 ^ s) 100 ltac:(lia)) as Hlo.
  pose proof (Z.mul_succ_div_gt (Zpos p * 2 ^ s) 100 ltac:(lia)) as Hhi.
  pose proof (Z.mul_div_le (Zpos p' * 2 ^ s') 100 ltac:(lia)) as Hlo'.
  pose proof (Z.mul_succ_div_gt (Zpos p' * 2 ^ s') 100 ltac:(lia)) as Hhi'.
  set (A := Zpos p * 2 ^ s) in *. set (A' := Zpos p' * 2 ^ s') in *.
  destruct (Z.lt_trichotomy s s') as [Hlt|[Heq|Hgt]].
  - exfalso.
    assert (2 * 2 ^ s <= 2 ^ s') as Hpow.
    { replace (2 * 2 ^ s) with (2 ^ (s + 1))
        by (rewrite Z.pow_add_r by lia; change (2 ^ 1) with 2; lia).
      apply Z.pow_le_mono_r; lia. }
    assert ((Zpos p + 1) * (2 * 2 ^ s) <= A').
    { unfold A'. transitivity (Zpos p' * (2 * 2 ^ s)).
      - apply Z.mul_le_mono_nonneg_r; lia.
      - apply Z.mul_le_mono_nonneg_l; lia. }
    unfold A in *. lia.
  - right. split; [lia|]. subst s'.
    assert (A + 2 ^ s <= A').
    { unfold A, A'. replace (Zpos p * 2 ^ s + 2 ^ s) with ((Zpos p + 1) * 2 ^ s) by lia.
      apply Z.mul_le_mono_nonneg_r; lia. }
    lia.
  - left. lia.
Qed.

(** An even mantissa of 54 bits loses its last bit and stays exact. *)
Lemma binary_round_aux_54_exact (q : positive) (ex : Z) :
  2 ^ 52 <= Zpos q < 2 ^ 53 -> -1075 <= ex <= 969 ->
  binary_round_aux prec emax false (Zpos q~0) ex loc_Exact
  = binary_round_aux prec emax false (Zpos q) (ex + 1) loc_Exact.
Proof.
  intros Hq He.
  unfold binary_round_aux. unfold shr_fexp at 1 3.
  change (Zdigits2 (Zpos q~0)) with (Zpos (digits2_pos q~0)).
  change (Zdigits2 (Zpos q)) with (Zpos (digits2_pos q)).
  rewrite (Zdigits2_unique q~0 54), (Zdigits2_unique q 53)
    by (change (Zpos q~0) with (2 * Zpos q); simpl; lia).
  rewrite !fexp_normal by lia.
  replace (54 + ex - 53 - ex) with 1 by lia.
  replace (53 + (ex + 1) - 53 - (ex + 1)) with 0 by lia.
  reflexivity.
Qed.

(** Two mantissas of 53 bits that scale the same integer are the same. *)
Lemma scaled_unique (L x y : Z) :
  0 < L -> 0 <= x -> 0 <= y ->
  2 ^ 52 <= L * 2 ^ x < 2 ^ 53 -> 2 ^ 52 <= L * 2 ^ y < 2 ^ 53 -> x = y.
Proof.
  assert (forall x y, 0 < L -> 0 <= x < y ->
            2 ^ 52 <= L * 2 ^ x -> L * 2 ^ y < 2 ^ 53 -> False) as H.
  { intros x' y' HL Hxy Hx Hy.
    assert (2 * 2 ^ x' <= 2 ^ y') as Hpow.
    { replace (2 * 2 ^ x') with (2 ^ (x' + 1))
        by (rewrite Z.pow_add_r by lia; change (2 ^ 1) with 2; lia).
      apply Z.pow_le_mono_r; lia. }
    assert (L * (2 * 2 ^ x') <= L * 2 ^ y') by (apply Z.mul_le_mono_nonneg_l; lia).
    lia. }
  intros HL Hx Hy Hbx Hby.
  destruct (Z.lt_trichotomy x y) as [Hlt|[Heq|Hgt]]; [exfalso|done|exfalso].
  - apply (H x y); lia.
  - apply (H y x); lia.
Qed.

(** A whole number of megabytes, written in hundredths, is that number. *)
Lemma decimal_whole (L : Z) :
  0 <= L -> 100 * L < 2 ^ 53 -> decimal (100 * L) 2 = of_Z L.
Proof.
  intros HL Hb.
  destruct L as [|pL|pL]; [done| |lia].
  destruct (of_Z_canonical (Zpos pL) ltac:(lia)) as (m & e & -> & Hm & He & Hme).
  change (100 * Zpos pL) with (Zpos (100 * pL)) in *.
  rewrite decimal_unfold by lia. cbv zeta.
  destruct (digits_below (100 * pL) 53 ltac:(lia) Hb) as [Hd1 Hd53].
  pose proof (Zdigits2_bounds (100 * pL)) as [Hl Hu].
  set (d := Zpos (digits2_pos (100 * pL))) in *.
  assert (Zpos (100 * pL) * 2 ^ (60 - d) = Zpos pL * 2 ^ (60 - d) * 100) as Ha by lia.
  rewrite Ha, Z.div_mul, Z.mod_mul by lia.
  change (new_location 100 0) with loc_Exact.
  remember (Zpos pL * 2 ^ (60 - d)) as q eqn:Hqdef.
  assert (2 ^ 59 <= q * 100 < 2 ^ 60) as Hq100.
  { rewrite <- Ha.
    replace (2 ^ 59) with (2 ^ (d - 1) * 2 ^ (60 - d))
      by (rewrite <- Z.pow_add_r by lia; f_equal; lia).
    replace (2 ^ 60) with (2 ^ d * 2 ^ (60 - d))
      by (rewrite <- Z.pow_add_r by lia; f_equal; lia).
    assert (0 < 2 ^ (60 - d)) by (apply Z.pow_pos_nonneg; lia).
    split; [apply Z.mul_le_mono_nonneg_r | apply Z.mul_lt_mono_pos_r]; lia. }
  assert (2 ^ 52 <= q < 2 ^ 54) as Hq by lia.
  assert (q = 2 * (Zpos pL * 2 ^ (59 - d))) as Heven.
  { rewrite Hqdef. replace (60 - d) with (59 - d + 1) by lia.
    rewrite Z.pow_add_r by lia. change (2 ^ 1) with 2. lia. }
  destruct q as [|pq|pq]; [lia| |lia].
  destruct (Z.lt_ge_cases (Zpos pq) (2 ^ 53)) as [H53|H54].
  - destruct (binary_round_aux_53 pq (d - 60) loc_Exact) as (m' & e' & -> & _ & _ & Hex);
      [lia | lia |].
    destruct (Hex eq_refl) as (-> & ->).
    assert (60 - d = - e) as Hexp
      by (apply (scaled_unique (Zpos pL)); lia).
    f_equal; [|lia]. apply Pos2Z.inj. rewrite Hme, <- Hexp. done.
  - destruct pq as [q'|q'|]; [|clear Heven|lia].
    { change (Zpos q'~1) with (2 * Zpos q' + 1) in Heven. lia. }
    assert (Zpos q'~0 = 2 * Zpos q') as Hdouble by done.
    rewrite (binary_round_aux_54_exact q' (d - 60)) by lia.
    destruct (binary_round_aux_53 q' (d - 60 + 1) loc_Exact)
      as (m' & e' & -> & _ & _ & Hex); [lia | lia |].
    destruct (Hex eq_refl) as (-> & ->).
    assert (Zpos q' = Zpos pL * 2 ^ (59 - d)) as Hq'.
    { assert (2 * Zpos q' = 2 * (Zpos pL * 2 ^ (59 - d))) as H2; [|lia].
      rewrite <- Hdouble, Hqdef. replace (60 - d) with (59 - d + 1) by lia.
      rewrite Z.pow_add_r by lia. change (2 ^ 1) with 2. lia. }
    assert (59 - d = - e) as Hexp
      by (apply (scaled_unique (Zpos pL)); lia).
    f_equal; [|lia]. apply Pos2Z.inj. rewrite Hme, <- Hexp. done.
Qed.

(** X13: [toMB] is monotone on byte counts below [2^51]: more bytes
    never show as fewer megabytes. *)
Theorem toMB_is_monotone (b b' : Z) :
  0 <= b <= b' -> b' < 2 ^ 51 ->
  le (toMB (of_Z b)) (toMB (of_Z b')) = true.
Proof.
  intros Hb Hb'.
  destruct (decide (b = b')) as [<-|Hne];
    [apply le_refl, toMB_not_negative, of_Z_not_negative; lia|].
  destruct (decide (b = 0)) as [->|Hpos].
  { change (toMB (of_Z 0)) with (of_Z 0).
    apply le_zero_not_negative, toMB_not_negative, of_Z_not_negative. lia. }
  destruct (toMB_nearest_hundredth b ltac:(lia)) as (n & -> & Hn & Hbn).
  destruct (toMB_nearest_hundredth b' ltac:(lia)) as (n' & -> & Hn' & Hbn').
  destruct (decide (n = n')) as [<-|Hnn];
    [apply le_refl, decimal_not_negative|].
  apply lt_le, decimal_lt; lia.
Qed.

(** A byte count against a limit given in hundredths of a megabyte. *)
Lemma gt_toMB_above (N b : Z) :
  0 <= N -> 10000 * N + 5000 < b -> b < 2 ^ 51 ->
  gt (Num (toMB (of_Z b))) (Num (decimal N 2)) = true.
Proof.
  intros HN Hlt Hb. unfold gt. cbn [ToNumber].
  destruct (toMB_nearest_hundredth b ltac:(lia)) as (n & -> & Hn & Hbn).
  apply decimal_lt; lia.
Qed.

Lemma gt_toMB_below (N b : Z) :
  0 <= N < 2 ^ 49 -> 0 <= b < 10000 * N + 5000 -> b < 2 ^ 51 ->
  gt (Num (toMB (of_Z b))) (Num (decimal N 2)) = false.
Proof.
  intros HN Hlt Hb. unfold gt. cbn [ToNumber].
  destruct (decide (b = 0)) as [->|Hpos].
  { change (toMB (of_Z 0)) with (of_Z 0).
    apply le_not_lt, le_zero_not_negative, decimal_not_negative. }
  destruct (toMB_nearest_hundredth b ltac:(lia)) as (n & -> & Hn & Hbn).
  destruct (decide (n = N)) as [->|Hne]; [apply lt_irrefl|].
  apply lt_asym, decimal_lt; lia.
Qed.

(** X14: the limits seen from the byte counts.  Against a limit of [N]
    hundredths of a megabyte, a count of [b] bytes, once converted by
    [toMB], is above the limit when [b] exceeds [10000 N + 5000], and is
    not when [b] is below that; what happens at [10000 N + 5000] itself
    depends on the rounding of the quotient.  A limit of [L] whole
    megabytes is the numeral of [100 L] hundredths. *)
Theorem limit_in_bytes (N b : Z) :
  0 <= N < 2 ^ 49 -> 0 <= b < 2 ^ 51 ->
  let limit := Num (decimal N 2) in
  (10000 * N + 5000 < b -> gt (Num (toMB (of_Z b))) limit = true) /\
  (b < 10000 * N + 5000 -> gt (Num (toMB (of_Z b))) limit = false) /\
  (N mod 100 = 0 -> decimal N 2 = of_Z (N / 100)).
Proof.
  intros HN Hb limit. unfold limit.
  split; [|split].
  - intros Hlt. apply gt_toMB_above; lia.
  - intros Hlt. apply gt_toMB_below; lia.
  - intros Hmod.
    assert (N = 100 * (N / 100)) as HNL
      by (rewrite (Z.div_mod N 100) at 1 by lia; lia).
    rewrite HNL at 1. apply decimal_whole.
    + apply Z.div_pos; lia.
    + rewrite <- HNL. lia.
Qed.

(** X15: the default thresholds in bytes.  A monitor started without
    [MEMORY_ERROR_MAX_SIZE] ends the process on a tick that reads more
    than 4,500,005,000 bytes of resident memory, and on no tick that
    reads less; started without [MEMORY_WARNING_MAX_SIZE], it requests
    no warning on a tick that reads less than 2,950,005,000 bytes, and
    requests one on a tick that reads more and does not end the
    process. *)
Theorem default_thresholds_in_bytes
    (options : MonitoringOptions) (r : ref) (h : handle) (t : time) (b : Z)
    (w w' : world) :
  intervals w !! h = Some (monitor_of options r) ->
  0 <= b < 2 ^ 51 ->
  interval_fires h t (of_Z b) w = Some w' ->
  (MEMORY_ERROR_MAX_SIZE options = Undefined ->
     (4500005000 < b -> exit_code w' = Some 1) /\
     (b < 4500005000 -> exit_code w' = None)) /\
  (MEMORY_WARNING_MAX_SIZE options = Undefined ->
     (b < 2950005000 -> warn_closure w' = warn_closure w) /\
     (2950005000 < b -> exit_code w' = None ->
        warn_closure w'
        = (Lodash.debounced WARNING_WAIT true (warn_closure w) t
             (toMB (of_Z b), Num (of_Z 2950))).2)).
Proof.
  intros Hh Hb Hf.
  destruct (interval_fires_cases h _ t (of_Z b) w w' Hh Hf)
    as [(Hg & Hs & He & Hw)|(Hg & Hs & He & Hw)];
    cbn [monitor_of c_MEMORY_ERROR_MAX_SIZE c_MEMORY_WARNING_MAX_SIZE] in Hg, Hw.
  - split.
    + intros Hu. rewrite Hu in Hg. cbn [default_number] in Hg.
      split; [done|]. intros Hlt.
      change (of_Z 4500) with (decimal 450000 2) in Hg.
      rewrite gt_toMB_below in Hg by lia. done.
    + intros Hu. split; [done|]. intros _ Hlive. congruence.
  - split.
    + intros Hu. rewrite Hu in Hg. cbn [default_number] in Hg.
      split; [|done]. intros Hlt.
      change (of_Z 4500) with (decimal 450000 2) in Hg.
      rewrite gt_toMB_above in Hg by lia. done.
    + intros Hu. rewrite Hu in Hw. cbn [default_number] in Hw.
      change (of_Z 2950) with (decimal 295000 2) in Hw at 1.
      split.
      * intros Hlt. by rewrite gt_toMB_below in Hw by lia.
      * intros Hlt _. by rewrite gt_toMB_above in Hw by lia.
Qed.

Lemma toMB_is_monotone_witness :
  le (toMB (of_Z 15000)) (toMB (of_Z 15001)) = true /\
  toMB (of_Z 15000) = decimal 1 2 /\ toMB (of_Z 15001) = decimal 2 2.
Proof.
  split; [apply (toMB_is_monotone 15000 15001); lia|]. split; reflexivity.
Defined.

Lemma limit_in_bytes_witness :
  gt (Num (toMB (of_Z 4500005001))) (Num (of_Z 4500)) = true /\
  gt (Num (toMB (of_Z 4500004999))) (Num (of_Z 4500)) = false.
Proof.
  destruct (limit_in_bytes 450000 4500005001 ltac:(lia) ltac:(lia)) as (H1 & _ & H3).
  destruct (limit_in_bytes 450000 4500004999 ltac:(lia) ltac:(lia)) as (_ & H2 & _).
  rewrite (H3 eq_refl) in H1, H2. split; [apply H1 | apply H2]; lia.
Defined.

Lemma default_thresholds_in_bytes_witness :
  exists w',
    interval_fires 0%nat 350 (of_Z 4500005001) started = Some w' /\
    exit_code w' = Some 1.
Proof.
  destruct (interval_fires 0%nat 350 (of_Z 4500005001) started) as [w'|] eqn:E;
    [|vm_compute in E; discriminate].
  exists w'. split; [done|].
  destruct (default_thresholds_in_bytes no_options 0%nat 0%nat 350 4500005001
              started w' eq_refl ltac:(lia) E) as (H & _).
  apply H; [reflexivity | lia].
Defined.

(* ===================================================================== *)
(** ** After a burst of warnings *)
(* ===================================================================== *)





(* ===================================================================== *)
(** ** Logging changes the console only *)
(* ===================================================================== *)

Lemma log_blind_ret {A : Type} (a : A) : log_blind (ret a).
Proof. by intros w. Qed.

Lemma log_blind_bind {A B : Type} (m : M A) (k : A -> M B) :
  log_blind m -> (forall a, log_blind (k a)) -> log_blind (bind m k).
Proof.
  intros Hm Hk w. unfold bind. rewrite Hm.
  destruct (m w) as [[a|] w1]; simpl; [apply Hk | done].
Qed.

Lemma log_blind_when b m : log_blind m -> log_blind (when b m).
Proof. intros Hm. destruct b; [done | apply log_blind_ret]. Qed.

Lemma silenced_out w evs :
  out (silenced (with_out w (out w ++ evs)))
  = out (silenced w) ++ List.filter off_console evs.
Proof. simpl. apply List.filter_app. Qed.

Lemma log_blind_emit e : off_console e = true -> log_blind (emit e).
Proof.
  intros He w. unfold emit. simpl. f_equal. unfold silenced. simpl.
  f_equal. rewrite List.filter_app. simpl. by rewrite He.
Qed.

Lemma log_blind_colorizedLog c ty t : log_blind (colorizedLog c ty t).
Proof.
  intros w. unfold colorizedLog. simpl.
  destruct (env_truthy (MONITORING_LOG_ENABLED w)); [|done].
  unfold emit, ret. simpl. f_equal. unfold silenced. simpl. f_equal.
  rewrite List.filter_app. simpl. by rewrite app_nil_r.
Qed.

Lemma log_blind_process_exit {A : Type} code : log_blind (@process_exit_ A code).
Proof.
  intros w. unfold process_exit_. simpl. f_equal. unfold silenced. simpl.
  f_equal. rewrite List.filter_app. done.
Qed.

Lemma log_blind_clearInterval h : log_blind (clearInterval h).
Proof.
  intros w. unfold clearInterval. simpl. f_equal. unfold silenced. simpl.
  f_equal. rewrite List.filter_app. done.
Qed.

Lemma log_blind_deref r : log_blind (deref r).
Proof. intros w. unfold deref. simpl. by destruct (heap w !! r). Qed.

Lemma log_blind_assign r f : log_blind (assign r f).
Proof. by intros w. Qed.

Lemma log_blind_new_Date : log_blind new_Date.
Proof. by intros w. Qed.

Lemma log_blind_memoryUsage_rss : log_blind memoryUsage_rss.
Proof. by intros w. Qed.

Ltac solve_log_blind :=
  repeat first
    [ apply log_blind_bind | apply log_blind_when | apply log_blind_ret
    | apply log_blind_colorizedLog | apply log_blind_process_exit
    | apply log_blind_clearInterval | apply log_blind_deref
    | apply log_blind_assign | apply log_blind_new_Date
    | apply log_blind_memoryUsage_rss
    | apply log_blind_emit; reflexivity
    | intro ].

Lemma log_blind_publish k c ty t :
  log_blind (subject_next_ k t ;;; colorizedLog c ty t).
Proof. unfold subject_next_. solve_log_blind. Qed.

Lemma log_blind_checkNodeModulesSize limit measured :
  log_blind (checkNodeModulesSize limit measured).
Proof.
  unfold checkNodeModulesSize, errorLog, infoLog.
  destruct (_ && _); apply log_blind_publish.
Qed.

Lemma log_blind_checkBundleSizes limit measured :
  log_blind (checkBundleSizes limit measured).
Proof.
  unfold checkBundleSizes, errorLog, infoLog.
  destruct (_ && _); apply log_blind_publish.
Qed.

Lemma log_blind_checkNbOfNodeModulesDeps_then limit pkg :
  log_blind (checkNbOfNodeModulesDeps_then limit pkg).
Proof.
  unfold checkNbOfNodeModulesDeps_then, errorLog, infoLog.
  destruct (gt _ _); apply log_blind_publish.
Qed.

Lemma log_blind_finalCallback_then p bundle node_modules :
  log_blind (finalCallback_then p bundle node_modules).
Proof.
  unfold finalCallback_then. apply log_blind_bind;
    [apply log_blind_checkNodeModulesSize | intros _; apply log_blind_checkBundleSizes].
Qed.

Lemma log_blind_finalCallback p : log_blind (finalCallback p).
Proof. unfold finalCallback, subject_next_, infoLog. solve_log_blind. Qed.

Lemma log_blind_invoke_each calls : log_blind (invoke_each calls).
Proof.
  induction calls as [|[memUsage limit] calls IH]; [apply log_blind_ret|].
  simpl. apply log_blind_bind; [|by intros _].
  unfold WARNING_MEMORY_CONSUMPTION_TXT, subject_next_, warningLog. solve_log_blind.
Qed.

Lemma log_blind_warningMemoryLimit memUsage limit :
  log_blind (warningMemoryLimit memUsage limit).
Proof.
  intros w. unfold warningMemoryLimit. simpl.
  destruct (Lodash.debounced _ _ _ _ _) as [calls s].
  apply (log_blind_invoke_each calls (with_warn w s)).
Qed.

Lemma log_blind_warningMemoryLimit_timerExpired :
  log_blind warningMemoryLimit_timerExpired.
Proof.
  intros w. unfold warningMemoryLimit_timerExpired. simpl.
  destruct (Lodash.timerExpired _ _ _ _) as [calls s].
  apply (log_blind_invoke_each calls (with_warn w s)).
Qed.

Lemma log_blind_interval_callback c : log_blind (interval_callback c).
Proof.
  unfold interval_callback, ERROR_MEMORY_CONSUMPTION_TXT, subject_next_, errorLog.
  apply log_blind_bind; [apply log_blind_memoryUsage_rss | intros bytes].
  apply log_blind_bind; [solve_log_blind | intros _].
  apply log_blind_bind;
    [apply log_blind_when, log_blind_warningMemoryLimit | intros _].
  solve_log_blind.
Qed.

(** One step of the event loop, with logging off. *)
Lemma step_silenced k w w' :
  step k w = Some w' -> step k (silenced w) = Some (silenced w').
Proof.
  destruct k as [h t x| |limit pkg|p|p b n]; cbn [step];
    unfold interval_fires, timeout_fires, resumes;
    change (alive (silenced w)) with (alive w); destruct (alive w); try done.
  - change (intervals (silenced w)) with (intervals w).
    destruct (intervals w !! h) as [c|]; [|done]. intros [= <-]. f_equal.
    apply (f_equal snd (log_blind_interval_callback c (with_inputs w t x))).
  - change (warn_closure (silenced w)) with (warn_closure w).
    destruct (Lodash.timerId _) as [due|]; [|done]. intros [= <-]. f_equal.
    apply (f_equal snd (log_blind_warningMemoryLimit_timerExpired
                          (with_inputs w due (rss w)))).
  - intros [= <-]. f_equal.
    apply (f_equal snd (log_blind_checkNbOfNodeModulesDeps_then limit pkg w)).
  - intros [= <-]. f_equal. apply (f_equal snd (log_blind_finalCallback p w)).
  - intros [= <-]. f_equal.
    apply (f_equal snd (log_blind_finalCallback_then p b n w)).
Qed.

Lemma run_silenced ks w w' :
  run ks w = Some w' -> run ks (silenced w) = Some (silenced w').
Proof.
  revert w. induction ks as [|k ks IH]; intros w; simpl.
  - by intros [= <-].
  - destruct (step k w) as [w1|] eqn:Hk; [|done]. intros Hrun.
    rewrite (step_silenced k w w1 Hk). by apply IH.
Qed.

Lemma messages_filter evs : messages (List.filter off_console evs) = messages evs.
Proof. induction evs as [|[] evs IH]; simpl; by rewrite ?IH. Qed.

Lemma filter_reported w k ty c t :
  List.filter off_console (reported w k ty c t) = [subject_next k t].
Proof. unfold reported, logged. by destruct (env_truthy _). Qed.

Lemma monitoring_silenced options w :
  monitoring (without_log options) (silenced w)
  = ((monitoring options w).1, silenced (monitoring options w).2).
Proof.
  rewrite !monitoring_spec. cbn [fst snd]. f_equal.
  apply world_eq; try reflexivity; simpl;
    try (unfold logging; by destruct (nullish _ _)).
  rewrite !List.filter_app.
  change (monitor_of (without_log options)) with (monitor_of options).
  f_equal. f_equal; [|by destruct (ToBoolean _)].
  destruct (gt _ _); [|done]. by rewrite filter_reported.
Qed.

Lemma exits_filter evs : exits (List.filter off_console evs) = exits evs.
Proof. induction evs as [|[] evs IH]; simpl; by rewrite ?IH. Qed.

Lemma consoles_filter evs : consoles (List.filter off_console evs) = [].
Proof. induction evs as [|[] evs IH]; simpl; by rewrite ?IH. Qed.

(** X17: logging changes the console only.  Take any run of the plugin:
    [monitoring(options)] and whatever the event loop runs afterwards.
    With [LOG: false] in a process where [MONITORING_LOG_ENABLED] is not
    set, [monitoring] returns the same plugin and the same run is
    possible; it publishes the same messages on [subject], in the same
    order, calls [process.exit] the same, leaves the same maxima, and
    writes nothing to the console. *)
Theorem logging_changes_only_the_console
    (options : MonitoringOptions) (w w' : world) (ks : list task) :
  run ks (monitoring options w).2 = Some w' ->
  (monitoring (without_log options) (silenced w)).1 = (monitoring options w).1 /\
  run ks (monitoring (without_log options) (silenced w)).2 = Some (silenced w') /\
  messages (out (silenced w')) = messages (out w') /\
  exits (out (silenced w')) = exits (out w') /\
  consoles (out (silenced w')) = [] /\
  exit_code (silenced w') = exit_code w' /\
  heap (silenced w') = heap w'.
Proof.
  intros Hrun. rewrite monitoring_silenced. cbn [fst snd].
  split; [done|]. split; [by apply run_silenced|].
  split; [apply messages_filter|]. split; [apply exits_filter|].
  split; [apply consoles_filter | done].
Qed.

Lemma logging_changes_only_the_console_witness :
  let ks := [Tick 0%nat 350 (megabytes 3000)] in
  exists w' w'',
    run ks (monitoring no_options (boot 0 "/app" None)).2 = Some w' /\
    run ks (monitoring (without_log no_options) (boot 0 "/app" None)).2 = Some w'' /\
    published (out w') = [Warning] /\ published (out w'') = [Warning] /\
    consoles (out w'') = [].
Proof.
  intros ks.
  destruct (run ks (monitoring no_options (boot 0 "/app" None)).2) as [w'|] eqn:E;
    [|vm_compute in E; discriminate].
  destruct (logging_changes_only_the_console no_options (boot 0 "/app" None) w' ks E)
    as (_ & H & _ & _ & Hc & _).
  exists w', (silenced w'). split; [done|]. split; [exact H|].
  split; [|split; [|exact Hc]]; revert E; vm_compute; by intros [= <-].
Defined.

(* ===================================================================== *)
(** ** What stops a monitor *)
(* ===================================================================== *)

Lemma intervals_writes m w evs : writes m w evs -> intervals (m w).2 = intervals w.
Proof. unfold writes. by intros ->. Qed.

(** X18: only the [writeBundle] hook stops a monitor.  No tick, no
    timeout of the warning, no resumed check removes an interval timer;
    [finalCallback] removes the timer of its own monitor and no other. *)
Theorem only_writeBundle_stops_a_monitor (k : task) (w w' : world) :
  step k w = Some w' ->
  intervals w'
  = match k with
    | WriteBundle p =>
        match heap w !! p_infos p ≫= interval with
        | Some h => delete h (intervals w)
        | None => intervals w
        end
    | _ => intervals w
    end.
Proof.
  destruct k as [h t x| |limit pkg|p|p b n]; cbn [step];
    unfold interval_fires, timeout_fires, resumes; destruct (alive w); try done.
  - destruct (intervals w !! h) as [c|]; [|done]. intros [= <-].
    apply (intervals_interval_callback c (with_inputs w t x)).
  - destruct (Lodash.timerId _) as [due|]; [|done]. intros [= <-].
    by rewrite warningMemoryLimit_timerExpired_spec.
  - intros [= <-].
    destruct (gt (Num (of_nat (nbOfNodeModulesDeps pkg))) limit) eqn:Eg.
    + apply (intervals_writes _ _ _ (checkNbOfNodeModulesDeps_then_exceeded _ _ w Eg)).
    + apply (intervals_writes _ _ _ (checkNbOfNodeModulesDeps_then_within _ _ w Eg)).
  - intros [= <-]. destruct (heap w !! p_infos p) as [i|] eqn:Hi.
    + by rewrite (finalCallback_spec p w i Hi).
    + by rewrite finalCallback_dangling.
  - intros [= <-].
    destruct (writes_finalCallback_then p b n w)
      as (k & k' & t & t' & [H|[H|[H|H]]]); apply (intervals_writes _ _ _ H).
Qed.

Lemma only_writeBundle_stops_a_monitor_witness :
  exists w1 w2,
    step (Tick 0%nat 350 (megabytes 3000)) started = Some w1 /\
    intervals w1 = intervals started /\
    step (WriteBundle (plugin_of no_options 0%nat)) started = Some w2 /\
    intervals w2 = ∅.
Proof.
  destruct (step (Tick 0%nat 350 (megabytes 3000)) started) as [w1|] eqn:E1;
    [|vm_compute in E1; discriminate].
  destruct (step (WriteBundle (plugin_of no_options 0%nat)) started) as [w2|] eqn:E2;
    [|vm_compute in E2; discriminate].
  exists w1, w2.
  pose proof (only_writeBundle_stops_a_monitor _ _ _ E1) as H1.
  pose proof (only_writeBundle_stops_a_monitor _ _ _ E2) as H2.
  split; [done|]. split; [exact H1|]. split; [done|].
  rewrite H2. reflexivity.
Defined.

(* ===================================================================== *)
(** ** The text of the messages *)
(* ===================================================================== *)

Lemma integer_value_of_Z (a : Z) : 0 <= a < 2 ^ 53 -> integer_value (of_Z a) = Some a.
Proof.
  intros Ha. destruct (decide (a = 0)) as [->|Hne]; [done|].
  destruct (of_Z_canonical a ltac:(lia)) as (m & e & -> & Hm & He & Hme).
  unfold integer_value. destruct (Z.leb_spec 0 e) as [Hle|Hlt].
  - assert (e = 0) as -> by lia. simpl. f_equal. simpl in Hme. lia.
  - assert (0 < 2 ^ (- e)) by (apply Z.pow_pos_nonneg; lia).
    rewrite Hme, Z.mod_mul, Z.div_mul by lia. done.
Qed.

Lemma Number_toString_of_Z (a : Z) :
  0 <= a < 2 ^ 53 -> Number_toString (of_Z a) = Some (pretty a).
Proof.
  intros Ha. pose proof (integer_value_of_Z a Ha) as Hv.
  destruct (decide (a = 0)) as [->|Hne]; [done|].
  destruct (of_Z_canonical a ltac:(lia)) as (m & e & Hof & _).
  rewrite Hof in Hv |- *. unfold Number_toString. rewrite Hv.
  by replace (Z.abs a <? 2 ^ 53) with true by (symmetry; apply Z.ltb_lt; lia).
Qed.

(** X19: the messages of the size checks, for whole numbers of
    megabytes.  The error reads [Bundle size is about <size>MB exedeed
    <limit>MB], between two line feeds; without a limit, the information
    reads [... limit is undefinedMB]; the messages about [node_modules]
    and about the number of dependencies read alike. *)
Theorem size_messages_read (size limit : Z) :
  0 <= size < 2 ^ 53 -> 0 <= limit < 2 ^ 53 ->
  render (ERROR_BUNDLE_SIZE_TXT (of_Z size) (Num (of_Z limit)))
  = Some (LF +:+ "Bundle size is about " +:+ pretty size +:+ "MB exedeed "
          +:+ pretty limit +:+ "MB" +:+ LF) /\
  render (INFO_BUNDLE_SIZE_TXT (of_Z size) Undefined)
  = Some (LF +:+ "Bundle size is about " +:+ pretty size
          +:+ "MB, limit is undefinedMB" +:+ LF) /\
  render (ERROR_NODE_MODULE_SIZE_TXT (of_Z size) (Num (of_Z limit)))
  = Some (LF +:+ "Node modules deps size is about " +:+ pretty size +:+ "MB exedeed "
          +:+ pretty limit +:+ "MB" +:+ LF) /\
  render (INFO_NODE_MODULE_SIZE_TXT (of_Z size) Undefined)
  = Some (LF +:+ "Node modules deps size is about " +:+ pretty size
          +:+ "MB, limit is undefinedMB" +:+ LF) /\
  render (ERROR_NODE_MODULE_NB_TXT (of_Z size) (Num (of_Z limit)))
  = Some (LF +:+ "Too many node modules installed, " +:+ pretty size +:+ "/"
          +:+ pretty limit +:+ " did you add some ?" +:+ LF) /\
  render (INFO_NODE_MODULE_NB_TXT (of_Z size) (Num (of_Z limit)))
  = Some (LF +:+ "Nb of node modules installed is, " +:+ pretty size +:+ "/"
          +:+ pretty limit +:+ " (max)" +:+ LF).
Proof.
  intros Hs Hl.
  pose proof (Number_toString_of_Z size Hs) as Hsize.
  pose proof (Number_toString_of_Z limit Hl) as Hlimit.
  unfold ERROR_BUNDLE_SIZE_TXT, INFO_BUNDLE_SIZE_TXT, ERROR_NODE_MODULE_SIZE_TXT,
    INFO_NODE_MODULE_SIZE_TXT, ERROR_NODE_MODULE_NB_TXT, INFO_NODE_MODULE_NB_TXT.
  cbn [render]. rewrite Hsize, Hlimit.
  repeat split.
Qed.

Lemma size_messages_read_witness :
  render (ERROR_BUNDLE_SIZE_TXT (of_Z 12) (Num (of_Z 10)))
  = Some (LF +:+ "Bundle size is about 12MB exedeed 10MB" +:+ LF).
Proof.
  destruct (size_messages_read 12 10 ltac:(lia) ltac:(lia)) as (-> & _).
  reflexivity.
Defined.
